(** * AutoTS: model selection and unified prediction for monthly time series

    A shallow embedding of [AutoTS/AutoTS.py].  The class [AutoTS] is a record
    of attributes; its methods are computations in a state-and-exception monad
    over a [world] made of the instance, the store of option dictionaries
    (which the instance shares with its caller) and a log of the calls made to
    the statistical libraries.  pmdarima, statsmodels, tbats, the error
    metrics and the validation helpers are collaborators: they are the fields
    of the class [Collaborators], and every definition below is parametric in
    them. *)

From stdpp Require Import gmap strings list.
From Stdlib Require Import ZArith QArith Qabs Lia Sorting.Sorted Sorting.Permutation.
Close Scope Q_scope.

Set Default Proof Using "Type".

(** ** Exceptions *)

Inductive exn_class :=
  | ValueError | AttributeError | TypeError | IndexError | KeyError
  | LibraryError (name : string).

Record exn := Exn { exn_cls : exn_class; exn_msg : string }.

Inductive result (A : Type) :=
  | Ok (a : A)
  | Raise (e : exn).
Arguments Ok {A} a.
Arguments Raise {A} e.

Definition is_ok {A} (r : result A) : bool :=
  match r with Ok _ => true | Raise _ => false end.

Definition raises {A} (r : result A) (c : exn_class) : Prop :=
  ∃ msg, r = Raise (Exn c msg).

(** ** Floats

    The program never computes with the numbers it carries: it orders errors
    with [<] and pandas pads misaligned tables with NaN.  A float is therefore
    NaN, an infinity, or a rational (every finite double is one). *)

Inductive float :=
  | NaN
  | NegInf
  | Fin (q : Q)
  | PosInf.

Definition Qltb (a b : Q) : bool :=
  (Qnum a * Z.pos (Qden b) <? Qnum b * Z.pos (Qden a))%Z.

(** Python's [x < y] on floats: false as soon as one side is NaN. *)
Definition float_lt (x y : float) : bool :=
  match x, y with
  | NaN, _ | _, NaN => false
  | NegInf, NegInf => false
  | NegInf, _ => true
  | _, NegInf => false
  | PosInf, _ => false
  | Fin _, PosInf => true
  | Fin a, Fin b => Qltb a b
  end.

Definition is_nan (x : float) : bool :=
  match x with NaN => true | _ => false end.

(** ** Timestamps

    A naive [datetime]: calendar date and time of day (microseconds since
    midnight).  Comparison is lexicographic, as in Python. *)

Record datetime := Datetime { year : Z; month : Z; day : Z; tod : Z }.

Global Instance datetime_eq_dec : EqDecision datetime.
Proof. solve_decision. Defined.

Definition dt_key (d : datetime) : Z * Z * Z * Z := (year d, month d, day d, tod d).

Definition dt_ltb (a b : datetime) : bool :=
  (year a <? year b)%Z
  || ((year a =? year b)%Z
      && ((month a <? month b)%Z
          || ((month a =? month b)%Z
              && ((day a <? day b)%Z
                  || ((day a =? day b)%Z && (tod a <? tod b)%Z))))).

Definition dt_leb (a b : datetime) : bool := negb (dt_ltb b a).
Definition dt_eqb (a b : datetime) : bool := bool_decide (a = b).

Definition is_leap (y : Z) : bool :=
  ((y mod 4 =? 0) && (negb (y mod 100 =? 0) || (y mod 400 =? 0)))%Z.

(** [calendar.monthrange(y, m)[1]] *)
Definition days_in_month (y m : Z) : Z :=
  if (m =? 2)%Z then (if is_leap y then 29 else 28)%Z
  else if ((m =? 4) || (m =? 6) || (m =? 9) || (m =? 11))%Z then 30%Z
  else 31%Z.

(** [d + relativedelta(months=+1)]: next month, the day clipped to the
    length of that month, the time of day kept. *)
Definition add_one_month (d : datetime) : datetime :=
  let m := (month d + 1)%Z in
  let y := if (12 <? m)%Z then (year d + 1)%Z else year d in
  let m := if (12 <? m)%Z then (m - 12)%Z else m in
  {| year := y; month := m; day := Z.min (days_in_month y m) (day d); tod := tod d |}.

(** [(b.year - a.year) * 12 + (b.month - a.month)] *)
Definition months_between (a b : datetime) : Z :=
  ((year b - year a) * 12 + (month b - month a))%Z.

(** [MonthBegin.rollforward]: a timestamp that is not on the first of a month
    moves to the first of the next one; the time of day is kept. *)
Definition rollforward_MS (d : datetime) : datetime :=
  if (day d =? 1)%Z then d
  else add_one_month {| year := year d; month := month d; day := 1; tod := tod d |}.

Fixpoint date_range_from (fuel : nat) (cur stop : datetime) : list datetime :=
  match fuel with
  | O => []
  | S fuel' =>
      if dt_leb cur stop
      then cur :: date_range_from fuel' (add_one_month cur) stop
      else []
  end.

(** [pd.date_range(start, end, freq='MS')]: from the rolled start, one entry a
    month while the entry is not past [stop].  Every step raises the month
    count by one, so [months_between + 1] steps reach past [stop]. *)
Definition date_range (start stop : datetime) : list datetime :=
  date_range_from (Z.to_nat (months_between start stop + 1)) (rollforward_MS start) stop.

(** ** Series and data frames *)

Record Series := { s_index : list datetime; s_values : list float }.

(** A frame is kept row by row: the label of the row and one value per
    column. *)
Record DataFrame := { columns : list string; rows : list (datetime * list float) }.

Definition df_index (df : DataFrame) : list datetime := (rows df).*1.
Definition df_len (df : DataFrame) : nat := length (rows df).

Fixpoint col_pos (c : string) (cols : list string) : option nat :=
  match cols with
  | [] => None
  | c' :: cols' => if String.eqb c c' then Some O else S <$> col_pos c cols'
  end.

Definition cell (p : nat) (row : list float) : float := nth p row NaN.

(** [df[c]]: [KeyError] for a label that is not a column. *)
Definition df_col (df : DataFrame) (c : string) : result Series :=
  match col_pos c (columns df) with
  | Some p => Ok {| s_index := df_index df; s_values := (λ r, cell p r.2) <$> rows df |}
  | None => Raise (Exn KeyError c)
  end.

(** Python's normalisation of a slice bound: a negative bound counts from the
    end, and everything is clipped into [0, n]. *)
Definition slice_bound (n : nat) (i : Z) : nat :=
  if (i <? 0)%Z then Z.to_nat (Z.max 0 (Z.of_nat n + i)) else Nat.min n (Z.to_nat i).

(** [l[:stop]] and [l[start:]] *)
Definition slice_to {A} (l : list A) (stop : Z) : list A := take (slice_bound (length l) stop) l.
Definition slice_from {A} (l : list A) (start : Z) : list A := drop (slice_bound (length l) start) l.

(** [l[i]] for a Python integer: [IndexError] out of range. *)
Definition py_index {A} (l : list A) (i : Z) : result A :=
  let j := if (i <? 0)%Z then (Z.of_nat (length l) + i)%Z else i in
  if (j <? 0)%Z then Raise (Exn IndexError "index out of bounds")
  else match l !! Z.to_nat j with
       | Some a => Ok a
       | None => Raise (Exn IndexError "index out of bounds")
       end.

Definition iloc_to (df : DataFrame) (stop : Z) : DataFrame :=
  {| columns := columns df; rows := slice_to (rows df) stop |}.
Definition iloc_from (df : DataFrame) (start : Z) : DataFrame :=
  {| columns := columns df; rows := slice_from (rows df) start |}.

(** [pd.Series(values, index=idx)] for an array of values: the lengths must
    agree. *)
Definition series_of_array (idx : list datetime) (vals : list float) : result Series :=
  if decide (length vals = length idx)
  then Ok {| s_index := idx; s_values := vals |}
  else Raise (Exn ValueError "Length of values does not match length of index").

Definition s_items (s : Series) : list (datetime * float) := zip (s_index s) (s_values s).

Definition s_lookup (s : Series) (t : datetime) : float :=
  match list_find (λ it, it.1 = t) (s_items s) with
  | Some (_, it) => it.2
  | None => NaN
  end.

(** [pd.Series(s, index=idx)] for a series [s]: the values are looked up by
    label, and a label that [s] does not have gets NaN. *)
Definition series_reindex (s : Series) (idx : list datetime) : Series :=
  {| s_index := idx; s_values := s_lookup s <$> idx |}.

(** [s.loc[lo:hi]] on an increasing index: the entries whose label lies in
    the closed interval. *)
Definition loc_slice (s : Series) (lo : datetime) (hi : option datetime) : Series :=
  let keep := List.filter (λ it, dt_leb lo it.1
                                 && match hi with Some h => dt_leb it.1 h | None => true end)
                          (s_items s) in
  {| s_index := keep.*1; s_values := keep.*2 |}.

(** [index.get_loc(t)]: the position of the label, [KeyError] without it. *)
Definition get_loc (idx : list datetime) (t : datetime) : result nat :=
  match list_find (λ t', t' = t) idx with
  | Some (i, _) => Ok i
  | None => Raise (Exn KeyError "timestamp not in index")
  end.

Fixpoint dt_insert (t : datetime) (l : list datetime) : list datetime :=
  match l with
  | [] => [t]
  | t' :: l' =>
      if dt_ltb t t' then t :: l
      else if dt_eqb t t' then l
      else t' :: dt_insert t l'
  end.

(** The sorted union of two indexes. *)
Definition index_union (a b : list datetime) : list datetime :=
  foldr dt_insert [] (a ++ b).

Definition has_dup (l : list datetime) : bool := bool_decide (¬ NoDup l).

(** [pd.DataFrame({c1: s1, c2: arr})]: the index is that of the series and the
    array must have its length. *)
Definition frame_of_series_array (c1 : string) (s1 : Series) (c2 : string) (arr : list float)
  : result DataFrame :=
  if decide (length arr = length (s_index s1))
  then Ok {| columns := [c1; c2];
             rows := zip (s_index s1) ((λ p, [p.1; p.2]) <$> zip (s_values s1) arr) |}
  else Raise (Exn ValueError "array length does not match index length").

(** [pd.DataFrame({c1: s1, c2: s2})] for two series: with equal indexes the
    columns sit side by side; otherwise both are aligned on the sorted union
    of the indexes, which pandas refuses when a label is repeated. *)
Definition frame_of_series_series (c1 : string) (s1 : Series) (c2 : string) (s2 : Series)
  : result DataFrame :=
  if decide (s_index s1 = s_index s2)
  then Ok {| columns := [c1; c2];
             rows := zip (s_index s1) ((λ p, [p.1; p.2]) <$> zip (s_values s1) (s_values s2)) |}
  else if has_dup (s_index s1) || has_dup (s_index s2)
  then Raise (Exn ValueError "cannot reindex on an axis with duplicate labels")
  else let idx := index_union (s_index s1) (s_index s2) in
       Ok {| columns := [c1; c2];
             rows := (λ t, (t, [s_lookup s1 t; s_lookup s2 t])) <$> idx |}.

(** Positions of the columns kept by a test on the label. *)
Fixpoint positions_where (f : string → bool) (cols : list string) (p : nat) : list nat :=
  match cols with
  | [] => []
  | c :: cols' => if f c then p :: positions_where f cols' (S p) else positions_where f cols' (S p)
  end.

Definition pick (ps : list nat) (row : list float) : list float := (λ p, cell p row) <$> ps.

(** [df.drop(c, axis='columns')]: [KeyError] when no column has the label. *)
Definition df_drop (df : DataFrame) (c : string) : result DataFrame :=
  match col_pos c (columns df) with
  | None => Raise (Exn KeyError c)
  | Some _ =>
      let ps := positions_where (λ c', negb (String.eqb c' c)) (columns df) 0 in
      Ok {| columns := filter (λ c', c' ≠ c) (columns df);
            rows := (λ r, (r.1, pick ps r.2)) <$> rows df |}
  end.

Fixpoint col_positions (cs : list string) (cols : list string) : result (list nat) :=
  match cs with
  | [] => Ok []
  | c :: cs' =>
      match col_pos c cols with
      | None => Raise (Exn KeyError c)
      | Some p => match col_positions cs' cols with
                  | Ok ps => Ok (p :: ps)
                  | Raise e => Raise e
                  end
      end
  end.

(** [df[[c1, ..., cn]]] *)
Definition df_select (df : DataFrame) (cs : list string) : result DataFrame :=
  match col_positions cs (columns df) with
  | Ok ps => Ok {| columns := cs; rows := (λ r, (r.1, pick ps r.2)) <$> rows df |}
  | Raise e => Raise e
  end.

(** [df[c] = vals], the new values given row by row: an existing column is
    overwritten, a new one is added on the right. *)
Definition df_assign (df : DataFrame) (c : string) (vals : list float) : DataFrame :=
  match col_pos c (columns df) with
  | Some p =>
      {| columns := columns df;
         rows := (λ rv, (rv.1.1, <[p := rv.2]> (rv.1.2))) <$> zip (rows df) vals |}
  | None =>
      {| columns := columns df ++ [c];
         rows := (λ rv, (rv.1.1, rv.1.2 ++ [rv.2])) <$> zip (rows df) vals |}
  end.

Definition with_suffix (others : list string) (sfx : string) (c : string) : string :=
  if bool_decide (c ∈ others) then c +:+ sfx else c.

(** [pd.merge(l, r, left_index=True, right_index=True)]: the inner join on
    the row labels, in the order of the left frame; a column label present
    on both sides is suffixed [_x] on the left and [_y] on the right. *)
Definition merge (l r : DataFrame) : DataFrame :=
  {| columns := (with_suffix (columns r) "_x" <$> columns l)
                ++ (with_suffix (columns l) "_y" <$> columns r);
     rows := rl ← rows l;
             (λ rr, (rl.1, rl.2 ++ rr.2)) <$> filter (λ rr, rr.1 = rl.1) (rows r) |}.

(** [str.endswith] *)
Fixpoint ends_with (sfx s : string) : bool :=
  String.eqb s sfx
  || match s with
     | EmptyString => false
     | String _ s' => ends_with sfx s'
     end.

(** [functools.reduce(f, l)] without an initial value. *)
Definition reduce {A} (f : A → A → result A) (l : list A) : result A :=
  match l with
  | [] => Raise (Exn TypeError "reduce() of empty iterable with no initial value")
  | a :: l' =>
      foldl (λ acc b, match acc with Ok x => f x b | Raise e => Raise e end) (Ok a) l'
  end.

(** ** Python values held by the option dictionaries *)

Inductive pyval :=
  | PNone
  | PBool (b : bool)
  | PInt (z : Z)
  | PStr (s : string).

Global Instance pyval_eq_dec : EqDecision pyval.
Proof. solve_decision. Defined.

Abbreviation pydict := (gmap string pyval).
Abbreviation loc := positive.

(** ** Candidate models *)

Module CandidateModel.
Record CandidateModel (H : Type) := {
  error : float;
  fit_model : option H;
  model_type : string;
  predictions : DataFrame;
}.
Arguments error {H} _.
Arguments fit_model {H} _.
Arguments model_type {H} _.
Arguments predictions {H} _.
End CandidateModel.
Export CandidateModel(CandidateModel).

(** ** Collaborators

    Everything [AutoTS.py] imports: the handle type of fitted models with the
    methods the program calls on it, the two helper modules of the package
    that are not part of this development, and the pandas operations that
    compute with floats. *)

Class Collaborators := {
  handle : Type;
  (* AutoTS.utils.validation *)
  check_models : list string → option exn;
  check_datetime_index : DataFrame → option exn;
  (* AutoTS.utils.error_metrics *)
  mase : DataFrame → string → string → result float;
  mse : DataFrame → string → string → result float;
  rmse : DataFrame → string → string → result float;
  (* AutoTS.utils.CandidateModel: [candidate[0]], which exists only if the
     class defines item access *)
  candidate_getitem : CandidateModel handle → Z → result float;
  (* pmdarima: auto_arima(series, seasonal, m, exogenous, **args) and the
     methods of the model it returns *)
  auto_arima : Series → bool → Z → option DataFrame → pydict → result handle;
  arima_predict : handle → Z → option DataFrame → result (list float);
  arima_predict_in_sample : handle → nat → option nat → option DataFrame → result (list float);
  arima_update : handle → Series → result handle;
  (* statsmodels: ExponentialSmoothing(series, seasonal_periods, **args).fit()
     and the [predict] of the fitted model *)
  exponential_smoothing : Series → option Z → pydict → result handle;
  es_predict : handle → datetime → datetime → result Series;
  (* tbats: BATS(seasonal_periods, use_box_cox=False, **args).fit(series),
     [forecast] and the attribute [y_hat] *)
  bats : option (list Z) → pydict → Series → result handle;
  bats_forecast : handle → Z → result (list float);
  bats_y_hat : handle → result (list float);
  (* pandas *)
  row_mean : list float → float;
  to_datetime : string → result datetime;
}.

(** Calls to the statistical libraries, in the order they are made, and the
    lines echoed in verbose mode. *)
Inductive call :=
  | CallAutoArima (args : pydict)
  | CallArimaPredict (n : Z)
  | CallArimaPredictInSample (start : nat) (stop : option nat)
  | CallArimaUpdate
  | CallExponentialSmoothing (args : pydict)
  | CallEsPredict (start stop : datetime)
  | CallBats (args : pydict)
  | CallBatsForecast (n : Z)
  | Warn (msg : string)
  | Echo (model : string) (err : float).

Section AutoTS.
Context `{C : Collaborators}.

(** ** The instance *)

Record AutoTS := {
  model_names : list string;
  error_metric : string;
  is_seasonal : bool;
  seasonal_period : option (list Z);
  holdout_period : Z;
  verbose : bool;
  auto_arima_args : loc;
  exponential_smoothing_args : loc;
  tbats_args : loc;
  data : option DataFrame;
  training_data : option DataFrame;
  testing_data : option DataFrame;
  series_column_name : option string;
  exogenous : option (list string);
  using_exogenous : bool;
  candidate_models : list (CandidateModel handle);
  fit_model : option handle;
  fit_model_type : option string;
  best_model_error : option float;
  is_fitted : bool;
}.

(** Attribute assignments.  None of them touches the nine attributes of the
    configuration. *)
Definition set_input (d tr te : DataFrame) (c : string) (s : AutoTS) : AutoTS :=
  {| model_names := model_names s; error_metric := error_metric s;
     is_seasonal := is_seasonal s; seasonal_period := seasonal_period s;
     holdout_period := holdout_period s; verbose := verbose s;
     auto_arima_args := auto_arima_args s;
     exponential_smoothing_args := exponential_smoothing_args s;
     tbats_args := tbats_args s;
     data := Some d; training_data := Some tr; testing_data := Some te;
     series_column_name := Some c;
     exogenous := exogenous s; using_exogenous := using_exogenous s;
     candidate_models := candidate_models s; fit_model := fit_model s;
     fit_model_type := fit_model_type s; best_model_error := best_model_error s;
     is_fitted := is_fitted s |}.

Definition set_exogenous (ex : list string) (s : AutoTS) : AutoTS :=
  {| model_names := model_names s; error_metric := error_metric s;
     is_seasonal := is_seasonal s; seasonal_period := seasonal_period s;
     holdout_period := holdout_period s; verbose := verbose s;
     auto_arima_args := auto_arima_args s;
     exponential_smoothing_args := exponential_smoothing_args s;
     tbats_args := tbats_args s;
     data := data s; training_data := training_data s; testing_data := testing_data s;
     series_column_name := series_column_name s;
     exogenous := Some ex; using_exogenous := true;
     candidate_models := candidate_models s; fit_model := fit_model s;
     fit_model_type := fit_model_type s; best_model_error := best_model_error s;
     is_fitted := is_fitted s |}.

Definition set_candidate_models (cs : list (CandidateModel handle)) (s : AutoTS) : AutoTS :=
  {| model_names := model_names s; error_metric := error_metric s;
     is_seasonal := is_seasonal s; seasonal_period := seasonal_period s;
     holdout_period := holdout_period s; verbose := verbose s;
     auto_arima_args := auto_arima_args s;
     exponential_smoothing_args := exponential_smoothing_args s;
     tbats_args := tbats_args s;
     data := data s; training_data := training_data s; testing_data := testing_data s;
     series_column_name := series_column_name s;
     exogenous := exogenous s; using_exogenous := using_exogenous s;
     candidate_models := cs; fit_model := fit_model s;
     fit_model_type := fit_model_type s; best_model_error := best_model_error s;
     is_fitted := is_fitted s |}.

Definition set_fit_model (h : option handle) (s : AutoTS) : AutoTS :=
  {| model_names := model_names s; error_metric := error_metric s;
     is_seasonal := is_seasonal s; seasonal_period := seasonal_period s;
     holdout_period := holdout_period s; verbose := verbose s;
     auto_arima_args := auto_arima_args s;
     exponential_smoothing_args := exponential_smoothing_args s;
     tbats_args := tbats_args s;
     data := data s; training_data := training_data s; testing_data := testing_data s;
     series_column_name := series_column_name s;
     exogenous := exogenous s; using_exogenous := using_exogenous s;
     candidate_models := candidate_models s; fit_model := h;
     fit_model_type := fit_model_type s; best_model_error := best_model_error s;
     is_fitted := is_fitted s |}.

Definition set_fit_model_type (t : option string) (s : AutoTS) : AutoTS :=
  {| model_names := model_names s; error_metric := error_metric s;
     is_seasonal := is_seasonal s; seasonal_period := seasonal_period s;
     holdout_period := holdout_period s; verbose := verbose s;
     auto_arima_args := auto_arima_args s;
     exponential_smoothing_args := exponential_smoothing_args s;
     tbats_args := tbats_args s;
     data := data s; training_data := training_data s; testing_data := testing_data s;
     series_column_name := series_column_name s;
     exogenous := exogenous s; using_exogenous := using_exogenous s;
     candidate_models := candidate_models s; fit_model := fit_model s;
     fit_model_type := t; best_model_error := best_model_error s;
     is_fitted := is_fitted s |}.

Definition set_best_model_error (e : option float) (s : AutoTS) : AutoTS :=
  {| model_names := model_names s; error_metric := error_metric s;
     is_seasonal := is_seasonal s; seasonal_period := seasonal_period s;
     holdout_period := holdout_period s; verbose := verbose s;
     auto_arima_args := auto_arima_args s;
     exponential_smoothing_args := exponential_smoothing_args s;
     tbats_args := tbats_args s;
     data := data s; training_data := training_data s; testing_data := testing_data s;
     series_column_name := series_column_name s;
     exogenous := exogenous s; using_exogenous := using_exogenous s;
     candidate_models := candidate_models s; fit_model := fit_model s;
     fit_model_type := fit_model_type s; best_model_error := e;
     is_fitted := is_fitted s |}.

Definition set_is_fitted (b : bool) (s : AutoTS) : AutoTS :=
  {| model_names := model_names s; error_metric := error_metric s;
     is_seasonal := is_seasonal s; seasonal_period := seasonal_period s;
     holdout_period := holdout_period s; verbose := verbose s;
     auto_arima_args := auto_arima_args s;
     exponential_smoothing_args := exponential_smoothing_args s;
     tbats_args := tbats_args s;
     data := data s; training_data := training_data s; testing_data := testing_data s;
     series_column_name := series_column_name s;
     exogenous := exogenous s; using_exogenous := using_exogenous s;
     candidate_models := candidate_models s; fit_model := fit_model s;
     fit_model_type := fit_model_type s; best_model_error := best_model_error s;
     is_fitted := b |}.

(** ** The world and the monad of methods *)

Record world := {
  self : AutoTS;
  store : gmap loc pydict;
  calls : list call;
}.

Definition M (A : Type) : Type := world → result A * world.

Global Instance M_ret : MRet M := λ A a w, (Ok a, w).
Global Instance M_bind : MBind M := λ A B f m w,
  match m w with
  | (Ok a, w') => f a w'
  | (Raise e, w') => (Raise e, w')
  end.

Definition raise {A} (c : exn_class) (msg : string) : M A := λ w, (Raise (Exn c msg), w).
Definition lift {A} (r : result A) : M A := λ w, (r, w).
Definition get_self : M AutoTS := λ w, (Ok (self w), w).
Definition modify_self (f : AutoTS → AutoTS) : M unit :=
  λ w, (Ok tt, {| self := f (self w); store := store w; calls := calls w |}).
Definition log (c : call) : M unit :=
  λ w, (Ok tt, {| self := self w; store := store w; calls := calls w ++ [c] |}).
Definition when (b : bool) (m : M unit) : M unit := if b then m else mret tt.

(** A dictionary is reached through its address: a missing one reads as
    empty. *)
Definition read_dict (l : loc) : M pydict := λ w, (Ok (default ∅ (store w !! l)), w).
Definition dict_set (l : loc) (k : string) (v : pyval) : M unit :=
  λ w, (Ok tt, {| self := self w;
                  store := <[l := <[k := v]> (default ∅ (store w !! l))]> (store w);
                  calls := calls w |}).

(** An attribute that is still [None] where the program needs an object:
    subscripting it or taking its length is a [TypeError], reading an
    attribute of it an [AttributeError]. *)
Definition required {A} (o : option A) (what : string) : M A :=
  match o with
  | Some a => mret a
  | None => raise TypeError what
  end.

Definition attr_of {A} (o : option A) (what : string) : M A :=
  match o with
  | Some a => mret a
  | None => raise AttributeError what
  end.

(** A method call on [self.fit_model], which may be [None]. *)
Definition on_handle {A} (f : handle → result A) (h : option handle) : M A :=
  match h with
  | Some h => lift (f h)
  | None => raise AttributeError "'NoneType' object has no attribute"
  end.

(** [name in self.model_names] *)
Definition configured (name : string) (s : AutoTS) : bool :=
  bool_decide (name ∈ model_names s).

(** ** Construction *)

Definition lower_ascii (c : Ascii.ascii) : Ascii.ascii :=
  let n := Ascii.nat_of_ascii c in
  if (65 <=? n)%nat && (n <=? 90)%nat then Ascii.ascii_of_nat (n + 32) else c.

(** [str.lower] on ASCII text *)
Fixpoint lower (s : string) : string :=
  match s with
  | EmptyString => EmptyString
  | String c s' => String (lower_ascii c) (lower s')
  end.

Inductive seasonal_arg :=
  | NoSeason
  | SeasonInt (p : Z)
  | SeasonList (ps : list Z).

Definition valid_error_metrics : list string := ["mase"; "mse"; "rmse"].

(** A dictionary argument left at [None] becomes a new empty dictionary; one
    that the caller passes is kept as it is, by reference. *)
Definition arg_dict (a : option loc) (st : gmap loc pydict) : loc * gmap loc pydict :=
  match a with
  | Some l => (l, st)
  | None => let l := fresh (dom st) in (l, <[l := ∅]> st)
  end.

Definition __init__ (model_names : list string) (error_metric : string)
    (seasonal_period : seasonal_arg) (holdout_period : Z) (verbose : bool)
    (auto_arima_args exponential_smoothing_args tbats_args : option loc)
    (st : gmap loc pydict) : result world :=
  let '(aa, st) := arg_dict auto_arima_args st in
  let '(es, st) := arg_dict exponential_smoothing_args st in
  let '(tb, st) := arg_dict tbats_args st in
  match check_models model_names with
  | Some e => Raise e
  | None =>
      if bool_decide (lower error_metric ∈ valid_error_metrics)
      then Ok {| self := {| model_names := lower <$> model_names;
                            error_metric := lower error_metric;
                            is_seasonal := match seasonal_period with NoSeason => false | _ => true end;
                            seasonal_period := match seasonal_period with
                                               | NoSeason => None
                                               | SeasonInt p => Some [p]
                                               | SeasonList ps => Some ps
                                               end;
                            holdout_period := holdout_period;
                            verbose := verbose;
                            auto_arima_args := aa;
                            exponential_smoothing_args := es;
                            tbats_args := tb;
                            data := None; training_data := None; testing_data := None;
                            series_column_name := None;
                            exogenous := None; using_exogenous := false;
                            candidate_models := [];
                            fit_model := None; fit_model_type := None;
                            best_model_error := None;
                            is_fitted := false |};
                 store := st; calls := [] |}
      else Raise (Exn ValueError "Error metric must be one of ['mase', 'mse', 'rmse']")
  end.

(** ** Fitting *)

(** [_set_input_data] *)
Definition _set_input_data (d : DataFrame) (series_column_name : string) : M unit :=
  s ← get_self;
  modify_self (set_input d (iloc_to d (- holdout_period s)) (iloc_from d (- holdout_period s))
                         series_column_name).

(** [_error_metric].  The method falls off its end, returning [None], for a
    metric outside the three names; [__init__] admits no such metric and no
    caller can rank [None], so that case is a [TypeError] here. *)
Definition _error_metric (d : DataFrame) (predictions_column actuals_column : string) : M float :=
  s ← get_self;
  if String.eqb (error_metric s) "mase" then lift (mase d predictions_column actuals_column)
  else if String.eqb (error_metric s) "mse" then lift (mse d predictions_column actuals_column)
  else if String.eqb (error_metric s) "rmse" then lift (rmse d predictions_column actuals_column)
  else raise TypeError "'<' not supported for 'NoneType'".

(** [f(..., k=v, **args)]: a key of [args] that repeats a named argument is a
    [TypeError]. *)
Definition kwargs (named : list string) (args : pydict) : M unit :=
  if bool_decide (Exists (λ k, is_Some (args !! k)) named)
  then raise TypeError "got multiple values for keyword argument"
  else mret tt.

(** [try: body  except ValueError: handler] *)
Definition try_except_ValueError {A} (body handler : M A) : M A := λ w,
  match body w with
  | (Raise (Exn ValueError _), w') => handler w'
  | r => r
  end.

Definition df_cols (d : option DataFrame) (cs : option (list string)) : M DataFrame :=
  d ← required d "'NoneType' object is not subscriptable";
  match cs with
  | Some cs => lift (df_select d cs)
  | None => raise KeyError "None"
  end.

(** [obj[c]] for an attribute that holds a frame, or still [None]. *)
Definition column_of (d : option DataFrame) (c : option string) : M Series :=
  d ← required d "'NoneType' object is not subscriptable";
  match c with
  | Some c => lift (df_col d c)
  | None => raise KeyError "None"
  end.

Definition call_auto_arima (model_data : option DataFrame) (m : Z) (train_exog : option DataFrame)
  : M handle :=
  s ← get_self;
  y ← column_of model_data (series_column_name s);
  args ← read_dict (auto_arima_args s);
  kwargs ["y"; "supress_warning"; "seasonal"; "m"; "exogenous"] args;;
  log (CallAutoArima args);;
  lift (auto_arima y (is_seasonal s) m train_exog args).

(** Lines 143-158 of [_fit_auto_arima]: the data to fit on, the exogenous
    columns for fitting and for testing, and the seasonal period. *)
Definition arima_inputs (use_full_dataset : bool)
  : M (option DataFrame * option DataFrame * option DataFrame * Z) :=
  s ← get_self;
  let model_data := if use_full_dataset then data s else training_data s in
  '(train_exog, test_exog) ←
     (if using_exogenous s
      then tr ← df_cols model_data (exogenous s);
           te ← df_cols (testing_data s) (exogenous s);
           mret (Some tr, Some te)
      else mret (None, None));
  auto_arima_seasonal_period ←
     match seasonal_period s with
     | None => mret 1%Z
     | Some ps => lift (py_index ps 0)
     end;
  mret (model_data, train_exog, test_exog, auto_arima_seasonal_period).

(** Lines 172-182: the handler of the [ValueError]. *)
Definition retry_with_ch (model_data : option DataFrame) (m : Z) (train_exog : option DataFrame)
  : M handle :=
  s ← get_self;
  args ← read_dict (auto_arima_args s);
  when (bool_decide (args !! "seasonal_test" = Some (PStr "ocsb")))
       (log (Warn "Forcing seasonal_test='ch' as 'ocsb' occasionally causes numpy errors"));;
  dict_set (auto_arima_args s) "seasonal_test" (PStr "ch");;
  call_auto_arima model_data m train_exog.

(** Lines 160-182: the [try] statement. *)
Definition auto_arima_or_retry (model_data : option DataFrame) (m : Z)
    (train_exog : option DataFrame) : M handle :=
  try_except_ValueError (call_auto_arima model_data m train_exog)
                        (retry_with_ch model_data m train_exog).

Definition _fit_auto_arima (use_full_dataset : bool) : M (CandidateModel handle) :=
  '(model_data, train_exog, test_exog, auto_arima_seasonal_period) ←
     arima_inputs use_full_dataset;
  model ← auto_arima_or_retry model_data auto_arima_seasonal_period train_exog;
  s ← get_self;
  actuals ← column_of (testing_data s) (series_column_name s);
  testing ← required (testing_data s) "object of type 'NoneType' has no len()";
  log (CallArimaPredict (Z.of_nat (df_len testing)));;
  preds ← lift (arima_predict model (Z.of_nat (df_len testing)) test_exog);
  test_predictions ← lift (frame_of_series_array "actuals" actuals "aa_test_predictions" preds);
  test_error ← _error_metric test_predictions "aa_test_predictions" "actuals";
  model ← (if use_full_dataset then mret model
           else y ← column_of (testing_data s) (series_column_name s);
                log CallArimaUpdate;;
                lift (arima_update model y));
  mret {| CandidateModel.error := test_error;
          CandidateModel.fit_model := Some model;
          CandidateModel.model_type := "auto_arima";
          CandidateModel.predictions := test_predictions |}.

(** [if k not in d.keys(): d[k] = v] *)
Definition setdefault (l : loc) (k : string) (v : pyval) : M unit :=
  args ← read_dict l;
  when (bool_decide (args !! k = None)) (dict_set l k v).

Definition _fit_exponential_smoothing (use_full_dataset : bool) : M (CandidateModel handle) :=
  s ← get_self;
  let model_data := if use_full_dataset then data s else training_data s in
  setdefault (exponential_smoothing_args s) "trend" (PStr "add");;
  setdefault (exponential_smoothing_args s) "seasonal"
             (match seasonal_period s with Some _ => PStr "add" | None => PNone end);;
  es_seasonal_period ←
     match seasonal_period s with
     | None => mret None
     | Some ps => p ← lift (py_index ps 0); mret (Some p)
     end;
  y ← column_of model_data (series_column_name s);
  args ← read_dict (exponential_smoothing_args s);
  kwargs ["endog"; "seasonal_periods"] args;;
  log (CallExponentialSmoothing args);;
  model ← lift (exponential_smoothing y es_seasonal_period args);
  actuals ← column_of (testing_data s) (series_column_name s);
  testing ← attr_of (testing_data s) "'NoneType' object has no attribute 'index'";
  start ← lift (py_index (df_index testing) (- holdout_period s));
  stop ← lift (py_index (df_index testing) (-1));
  log (CallEsPredict start stop);;
  preds ← lift (es_predict model start stop);
  test_predictions ← lift (frame_of_series_series "actuals" actuals "es_test_predictions" preds);
  err ← _error_metric test_predictions "es_test_predictions" "actuals";
  mret {| CandidateModel.error := err;
          CandidateModel.fit_model := Some model;
          CandidateModel.model_type := "exponential_smoothing";
          CandidateModel.predictions := test_predictions |}.

Definition _fit_tbats (use_full_dataset : bool) : M (CandidateModel handle) :=
  s ← get_self;
  let model_data := if use_full_dataset then data s else training_data s in
  let tbats_seasonal_periods := seasonal_period s in
  setdefault (tbats_args s) "n_jobs" (PInt 1);;
  setdefault (tbats_args s) "use_arma_errors" (PBool false);;
  args ← read_dict (tbats_args s);
  kwargs ["seasonal_periods"; "use_box_cox"] args;;
  y ← column_of model_data (series_column_name s);
  log (CallBats args);;
  fit_model ← lift (bats tbats_seasonal_periods args y);
  actuals ← column_of (testing_data s) (series_column_name s);
  testing ← required (testing_data s) "object of type 'NoneType' has no len()";
  log (CallBatsForecast (Z.of_nat (df_len testing)));;
  preds ← lift (bats_forecast fit_model (Z.of_nat (df_len testing)));
  test_predictions ← lift (frame_of_series_array "actuals" actuals "tb_test_predictions" preds);
  err ← _error_metric test_predictions "tb_test_predictions" "actuals";
  mret {| CandidateModel.error := err;
          CandidateModel.fit_model := Some fit_model;
          CandidateModel.model_type := "tbats";
          CandidateModel.predictions := test_predictions |}.

(** [pd.merge(left, right.drop('actuals', axis='columns'), ...)] *)
Definition merge_predictions (left right : DataFrame) : result DataFrame :=
  match df_drop right "actuals" with
  | Ok r => Ok (merge left r)
  | Raise e => Raise e
  end.

Definition predictions_columns (d : DataFrame) : list string :=
  List.filter (ends_with "predictions") (columns d).

(** The row-wise mean of the chosen columns. *)
Definition mean_of_columns (d : DataFrame) (cs : list string) : result (list float) :=
  match df_select d cs with
  | Ok sel => Ok ((λ r, row_mean r.2) <$> rows sel)
  | Raise e => Raise e
  end.

Definition with_predictions (d : DataFrame) (c : CandidateModel handle) : CandidateModel handle :=
  {| CandidateModel.error := CandidateModel.error c;
     CandidateModel.fit_model := CandidateModel.fit_model c;
     CandidateModel.model_type := CandidateModel.model_type c;
     CandidateModel.predictions := d |}.

(** [_fit_ensemble].  With a single candidate [reduce] hands back that
    candidate's own table, so the new column is written into it: the
    candidate changes with the assignment. *)
Definition _fit_ensemble : M (CandidateModel handle) :=
  s ← get_self;
  let model_predictions := CandidateModel.predictions <$> candidate_models s in
  all_predictions ← lift (reduce merge_predictions model_predictions);
  let cols := predictions_columns all_predictions in
  means ← lift (mean_of_columns all_predictions cols);
  let all_predictions := df_assign all_predictions "en_test_predictions" means in
  match candidate_models s with
  | [c] => modify_self (set_candidate_models [with_predictions all_predictions c])
  | _ => mret tt
  end;;
  err ← _error_metric all_predictions "en_test_predictions" "actuals";
  table ← lift (df_select all_predictions ["actuals"; "en_test_predictions"]);
  mret {| CandidateModel.error := err;
          CandidateModel.fit_model := None;
          CandidateModel.model_type := "ensemble";
          CandidateModel.predictions := table |}.

(** [self.candidate_models.append(c)] *)
Definition append_candidate (c : CandidateModel handle) : M unit :=
  modify_self (λ s, set_candidate_models (candidate_models s ++ [c]) s).

(** [sorted(l, key=key)], which compares keys with [<] and with nothing
    else.  CPython's [list.sort] (listobject.c, as of version 3.11) takes
    the run at the head of the list ([count_run]: the elements up to the
    first that is smaller than the one before it, or, when the second
    element is smaller than the first, the strictly descending run,
    reversed) and puts the remaining elements into it one by one, each at
    the place that a binary search finds ([binarysort]).  This is the whole
    sort of a list of fewer than 64 elements.  A longer list is cut into
    such runs, which are then merged; the outcome is the same list whenever
    no key is NaN, the sort being stable. *)
Section python_sort.
Context {A : Type} (key : A → float).

Definition key_lt (x y : A) : bool := float_lt (key x) (key y).

(** The run goes on while an element is smaller than the one before it. *)
Fixpoint descending_tail (prev : A) (l : list A) : list A * list A :=
  match l with
  | x :: l' =>
      if key_lt x prev
      then let '(run, rest) := descending_tail x l' in (x :: run, rest)
      else ([], l)
  | [] => ([], [])
  end.

(** The run goes on until an element is smaller than the one before it. *)
Fixpoint ascending_tail (prev : A) (l : list A) : list A * list A :=
  match l with
  | x :: l' =>
      if key_lt x prev
      then ([], l)
      else let '(run, rest) := ascending_tail x l' in (x :: run, rest)
  | [] => ([], [])
  end.

(** The run at the head of the list, in ascending order, and what follows
    it. *)
Definition count_run (l : list A) : list A * list A :=
  match l with
  | x :: y :: l' =>
      if key_lt y x
      then let '(run, rest) := descending_tail y l' in (reverse (x :: y :: run), rest)
      else let '(run, rest) := ascending_tail y l' in (x :: y :: run, rest)
  | _ => (l, [])
  end.

(** One step of [binarysort]: the search looks at the middle [p] of the part
    [l] it is before with ([p = l + ((r - l) >> 1)]) and goes on to the before of
    it when [pivot < *p], to the after of it otherwise; the pivot is put
    where nothing is before.  The search halves the part, so that [length l]
    steps are more than it takes. *)
Fixpoint binary_insert (steps : nat) (pivot : A) (l : list A) : list A :=
  match steps, drop (Nat.div2 (length l)) l with
  | S steps', y :: after =>
      let before := take (Nat.div2 (length l)) l in
      if key_lt pivot y
      then binary_insert steps' pivot before ++ y :: after
      else before ++ y :: binary_insert steps' pivot after
  | _, _ => pivot :: l
  end.

Definition sorted (l : list A) : list A :=
  let '(run, rest) := count_run l in
  foldl (λ acc x, binary_insert (length acc) x acc) run rest.

End python_sort.

(** [self.candidate_models is None] is asked of an attribute that always
    holds a list. *)
Definition is_None {A} (l : list A) : bool := false.

Inductive names_arg :=
  | NoNames
  | OneName (c : string)
  | Names (cs : list string).

(** Lines 94-103 of [fit]: the check of the index, the split and the names
    of the exogenous columns. *)
Definition prepare_fit (d : DataFrame) (series_column_name : string) (exogenous : names_arg)
  : M unit :=
  lift (match check_datetime_index d with Some e => Raise e | None => Ok tt end);;
  _set_input_data d series_column_name;;
  let exogenous := match exogenous with
                   | NoNames => None
                   | OneName c => Some [c]
                   | Names cs => Some cs
                   end in
  match exogenous with
  | Some ex => modify_self (set_exogenous ex)
  | None => mret tt
  end.

(** Lines 94-122 of [fit]: after the preparation, one fitter per configured
    model. *)
Definition fit_candidates (d : DataFrame) (series_column_name : string) (exogenous : names_arg)
  : M unit :=
  prepare_fit d series_column_name exogenous;;
  s ← get_self;
  when (configured "auto_arima" s)
       (c ← _fit_auto_arima true;
        append_candidate c;;
        when (verbose s) (log (Echo "auto_arima" (CandidateModel.error c))));;
  when (configured "exponential_smoothing" s)
       (c ← _fit_exponential_smoothing true;
        append_candidate c;;
        when (verbose s) (log (Echo "exponential_smoothing" (CandidateModel.error c))));;
  when (configured "tbats" s)
       (c ← _fit_tbats true;
        append_candidate c;;
        when (verbose s) (log (Echo "tbats" (CandidateModel.error c))));;
  when (configured "ensemble" s)
       (s' ← get_self;
        when (is_None (candidate_models s')) (raise ValueError "No candidate models to ensemble");;
        c ← _fit_ensemble;
        append_candidate c;;
        when (verbose s)
             (e ← lift (candidate_getitem c 0);
              log (Echo "ensemble" e))).

(** Lines 128-132 of [fit]: rank the candidates and keep the first. *)
Definition retain_winner : M unit :=
  s ← get_self;
  let ranked := sorted CandidateModel.error (candidate_models s) in
  modify_self (set_candidate_models ranked);;
  best ← lift (py_index ranked 0);
  modify_self (set_best_model_error (Some (CandidateModel.error best)));;
  modify_self (set_fit_model (CandidateModel.fit_model best));;
  modify_self (set_fit_model_type (Some (CandidateModel.model_type best)));;
  modify_self (set_is_fitted true).

Definition fit (d : DataFrame) (series_column_name : string) (exogenous : names_arg) : M unit :=
  fit_candidates d series_column_name exogenous;;
  retain_winner.

(** ** Predicting *)

(** [self.data.index[i]] *)
Definition data_index (i : Z) : M datetime :=
  s ← get_self;
  d ← attr_of (data s) "'NoneType' object has no attribute 'index'";
  lift (py_index (df_index d) i).

Definition data_get_loc (t : datetime) : M nat :=
  s ← get_self;
  d ← attr_of (data s) "'NoneType' object has no attribute 'index'";
  lift (get_loc (df_index d) t).

Definition _predict_auto_arima (start_date end_date last_data_date : datetime)
    (exogenous : option DataFrame) : M Series :=
  s ← get_self;
  last ← data_index (-1);
  preds ←
    (if dt_ltb start_date last && dt_leb end_date last then
       (* start date and end date are both in-sample *)
       i ← data_get_loc start_date;
       j ← data_get_loc end_date;
       log (CallArimaPredictInSample i (Some j));;
       on_handle (λ h, arima_predict_in_sample h i (Some j) exogenous) (fit_model s)
     else if dt_ltb start_date last && dt_ltb last end_date then
       (* start date is in-sample but end date is not *)
       let num_extra_months := months_between last_data_date end_date in
       i ← data_get_loc start_date;
       log (CallArimaPredictInSample i None);;
       in_sample_preds ← on_handle (λ h, arima_predict_in_sample h i None None) (fit_model s);
       log (CallArimaPredict num_extra_months);;
       out_of_sample_preds ← on_handle (λ h, arima_predict h num_extra_months None) (fit_model s);
       mret (in_sample_preds ++ out_of_sample_preds)
     else
       let months_to_predict := (months_between start_date end_date + 1)%Z in
       log (CallArimaPredict months_to_predict);;
       on_handle (λ h, arima_predict h months_to_predict exogenous) (fit_model s));
  lift (series_of_array (date_range start_date end_date) preds).

Definition _predict_exponential_smoothing (start_date end_date : datetime) : M Series :=
  s ← get_self;
  log (CallEsPredict start_date end_date);;
  on_handle (λ h, es_predict h start_date end_date) (fit_model s).

Definition _predict_tbats (start_date end_date last_data_date : datetime) : M Series :=
  s ← get_self;
  y_hat ← on_handle bats_y_hat (fit_model s);
  first ← data_index 0;
  last ← data_index (-1);
  in_sample_preds ← lift (series_of_array (date_range first last) y_hat);
  in_last ← lift (py_index (s_index in_sample_preds) (-1));
  if dt_ltb start_date in_last && dt_leb end_date in_last then
    (* start date and end date are both in-sample *)
    let preds := loc_slice in_sample_preds start_date (Some end_date) in
    mret (series_reindex preds (date_range start_date end_date))
  else
    last ← data_index (-1);
    if dt_ltb start_date last && dt_ltb last end_date then
      (* start date is in-sample but end date is not *)
      let num_extra_months := months_between last_data_date end_date in
      let in_sample_portion := loc_slice in_sample_preds start_date None in
      log (CallBatsForecast num_extra_months);;
      out_of_sample_portion ← on_handle (λ h, bats_forecast h num_extra_months) (fit_model s);
      lift (series_of_array (date_range start_date end_date)
                            (s_values in_sample_portion ++ out_of_sample_portion))
    else
      let months_to_predict := (months_between start_date end_date + 1)%Z in
      log (CallBatsForecast months_to_predict);;
      preds ← on_handle (λ h, bats_forecast h months_to_predict) (fit_model s);
      lift (series_of_array (date_range start_date end_date) preds).

(** [for candidate in self.candidate_models: if candidate.model_type == t:
    self.fit_model = candidate.fit_model] *)
Definition activate (t : string) : M unit :=
  modify_self (λ s,
    foldl (λ s c, if String.eqb (CandidateModel.model_type c) t
                  then set_fit_model (CandidateModel.fit_model c) s else s)
          s (candidate_models s)).

(** A named series seen as a frame of one column. *)
Definition frame_of_series (name : string) (s : Series) : DataFrame :=
  {| columns := [name]; rows := (λ it, (it.1, [it.2])) <$> s_items s |}.

Definition _predict_ensemble (start_date end_date last_data_date : datetime)
    (exogenous : option DataFrame) : M Series :=
  s ← get_self;
  p1 ← (if configured "auto_arima" s then
          activate "auto_arima";;
          preds ← _predict_auto_arima start_date end_date last_data_date exogenous;
          mret [frame_of_series "auto_arima_predictions" preds]
        else mret []);
  p2 ← (if configured "exponential_smoothing" s then
          activate "exponential_smoothing";;
          preds ← _predict_exponential_smoothing start_date end_date;
          mret [frame_of_series "exponential_smoothing_predictions" preds]
        else mret []);
  p3 ← (if configured "tbats" s then
          activate "tbats";;
          preds ← _predict_tbats start_date end_date last_data_date;
          mret [frame_of_series "tbats_predictions" preds]
        else mret []);
  let ensemble_model_predictions := p1 ++ p2 ++ p3 in
  all_predictions ← lift (reduce (λ left right, Ok (merge left right)) ensemble_model_predictions);
  (* a single series comes back from [reduce] as it is, and a series has no
     axis named 'columns' *)
  when (bool_decide (length ensemble_model_predictions = 1%nat))
       (raise ValueError "No axis named columns for object type Series");;
  let means := (λ r, row_mean r.2) <$> rows all_predictions in
  modify_self (set_fit_model None);;
  modify_self (set_fit_model_type (Some "ensemble"));;
  lift (series_of_array (date_range start_date end_date) means).

Inductive date_arg :=
  | DateStr (text : string)
  | DateObj (d : datetime)
  | DateOther.

Inductive exog_arg :=
  | NoExog
  | ExogFrame (d : DataFrame)
  | ExogSeries (name : string) (s : Series).

(** A string is parsed, a datetime is taken as it is, anything else is a
    [TypeError]. *)
Definition date_of (a : date_arg) (what : string) : result datetime :=
  match a with
  | DateStr text => to_datetime text
  | DateObj d => Ok d
  | DateOther => Raise (Exn TypeError what)
  end.

Definition as_datetime (a : date_arg) (what : string) : M datetime := lift (date_of a what).

(** Lines 416-452 of [predict]: the checks, which hand on the two dates and
    the last date of the data. *)
Definition predict_checks (start_date end_date : date_arg) (exogenous : exog_arg)
  : M (datetime * datetime * datetime) :=
  s ← get_self;
  when (negb (is_fitted s))
       (raise AttributeError
          "Model must be fitted to be able to make predictions. Use the `fit` method to fit before predicting");;
  start_date ← as_datetime start_date "`start_date` must be a str or datetime-like object";
  end_date ← as_datetime end_date "`end_date` must be a str or datetime-like object";
  when (dt_ltb end_date start_date)
       (raise ValueError "`end_date` must come after `start_date`");;
  last_date ← data_index (-1);
  when (dt_ltb (add_one_month last_date) start_date)
       (raise ValueError "`start_date` must be no more than 1 month past the last date of data received during fit");;
  first ← data_index 0;
  when (dt_ltb start_date first)
       (raise ValueError "`start_date` must be later than the earliest date received during fit");;
  when (using_exogenous s && dt_ltb last_date end_date
        && match exogenous with NoExog => true | _ => false end)
       (raise ValueError "Exogenous regressor(s) must be provided as a dataframe since they were provided during training");;
  mret (start_date, end_date, last_date).

(** [return m] *)
Definition returning {A} (m : M A) : M (option A) := r ← m; mret (Some r).

(** Lines 454-469 of [predict]: the predictor of the retained model type.
    With a type outside the four names the method ends without a value. *)
Definition predict_dispatch (start_date end_date last_date : datetime) (exogenous : exog_arg)
  : M (option Series) :=
  s ← get_self;
  let exogenous := match exogenous with
                   | NoExog => None
                   | ExogFrame d => Some d
                   | ExogSeries name x => Some (frame_of_series name x)
                   end in
  if bool_decide (fit_model_type s = Some "auto_arima") then
    returning $ _predict_auto_arima start_date end_date last_date exogenous
  else if bool_decide (fit_model_type s = Some "exponential_smoothing") then
    returning $ _predict_exponential_smoothing start_date end_date
  else if bool_decide (fit_model_type s = Some "tbats") then
    returning $ _predict_tbats start_date end_date last_date
  else if bool_decide (fit_model_type s = Some "ensemble") then
    returning $ _predict_ensemble start_date end_date last_date exogenous
  else mret None.

Definition predict (start_date end_date : date_arg) (exogenous : exog_arg) : M (option Series) :=
  '(start_date, end_date, last_date) ← predict_checks start_date end_date exogenous;
  predict_dispatch start_date end_date last_date exogenous.

End AutoTS.

(** ** Stand-in collaborators

    A naive forecaster for each library: a fitted model remembers its
    training series, predicts the past exactly and repeats the last
    observation for the future.  [auto_arima] fails with a [ValueError] under
    the seasonal test ["ocsb"], as the source reports of pmdarima. *)

Module Demo.

Inductive demo_handle := Trained (family : string) (train : Series).

Definition last_value (s : Series) : float := List.last (s_values s) NaN.

Definition known_models : list string :=
  ["auto_arima"; "exponential_smoothing"; "tbats"; "ensemble"].

(** Modelled from the spec: [AutoTS.utils.validation.check_models] is not
    part of the sources at hand; an unknown model name is an invalid
    configuration. *)
Definition accept_models (names : list string) : option exn :=
  if forallb (λ n, bool_decide (n ∈ known_models)) names then None
  else Some (Exn ValueError "not a valid model").

Fixpoint increasing (l : list datetime) : bool :=
  match l with
  | a :: (b :: _) as l' => dt_ltb a b && increasing l'
  | _ => true
  end.

(** Modelled from the spec: [AutoTS.utils.validation.check_datetime_index]
    is not part of the sources at hand; the index must be strictly
    increasing. *)
Definition accept_index (d : DataFrame) : option exn :=
  if increasing (df_index d) then None
  else Some (Exn ValueError "index must be a strictly increasing datetime index").

Definition fin (x : float) : option Q :=
  match x with Fin q => Some q | _ => None end.

Definition Qsum (l : list Q) : Q := Qred (foldr Qplus 0%Q l).

Definition Qmean (l : list Q) : float :=
  match l with
  | [] => NaN
  | _ => Fin (Qred (Qsum l / inject_Z (Z.of_nat (length l))))
  end.

(** The two columns of a table as rationals, when every cell is finite. *)
Definition column_pair (d : DataFrame) (p a : string) : result (option (list (Q * Q))) :=
  match df_col d p, df_col d a with
  | Ok ps, Ok acts =>
      Ok (mapM (λ xy, x ← fin xy.1; y ← fin xy.2; Some (x, y)) (zip (s_values ps) (s_values acts)))
  | Raise e, _ | _, Raise e => Raise e
  end.

(** Modelled from the spec: [AutoTS.utils.error_metrics] is not part of the
    sources at hand; the mean squared error of the predictions, an error on
    an empty table. *)
Definition mean_squared_error (d : DataFrame) (p a : string) : result float :=
  match column_pair d p a with
  | Raise e => Raise e
  | Ok None => Ok NaN
  | Ok (Some []) => Raise (Exn ValueError "empty table")
  | Ok (Some l) => Ok (Qmean ((λ xy, (xy.1 - xy.2) * (xy.1 - xy.2))%Q <$> l))
  end.

Fixpoint lag_diffs (l : list Q) : list Q :=
  match l with
  | a :: (b :: _) as l' => Qabs (b - a)%Q :: lag_diffs l'
  | _ => []
  end.

(** Modelled from the spec: the mean absolute error divided by that of the
    one-step-lag forecast of the actuals; undefined (NaN) when the divisor
    vanishes. *)
Definition mean_absolute_scaled_error (d : DataFrame) (p a : string) : result float :=
  match column_pair d p a with
  | Raise e => Raise e
  | Ok None => Ok NaN
  | Ok (Some []) => Raise (Exn ValueError "empty table")
  | Ok (Some l) =>
      match Qmean ((λ xy, Qabs (xy.1 - xy.2)%Q) <$> l), Qmean (lag_diffs (l.*2)) with
      | Fin num, Fin den =>
          if Qeq_bool den 0%Q then Ok NaN else Ok (Fin (Qred (num / den)))
      | _, _ => Ok NaN
      end
  end.

Definition mean_of_row (row : list float) : float :=
  Qmean (omap fin row).

Definition as_family {A} (family : string) (h : demo_handle) (f : Series → result A) : result A :=
  match h with
  | Trained fam train =>
      if String.eqb fam family then f train
      else Raise (Exn AttributeError "object has no such attribute")
  end.

Definition naive_arima (y : Series) (seasonal : bool) (m : Z) (exog : option DataFrame)
    (args : pydict) : result demo_handle :=
  if bool_decide (args !! "seasonal_test" = Some (PStr "ocsb"))
  then Raise (Exn ValueError "shapes not aligned")
  else Ok (Trained "auto_arima" y).

Definition forecast (n : Z) (train : Series) : result (list float) :=
  Ok (replicate (Z.to_nat n) (last_value train)).

Definition in_sample (start : nat) (stop : option nat) (train : Series) : result (list float) :=
  let vals := s_values train in
  Ok (drop start (match stop with Some j => take (S j) vals | None => vals end)).

Definition naive_es_predict (h : demo_handle) (start stop : datetime) : result Series :=
  as_family "exponential_smoothing" h (λ train,
    let idx := date_range start stop in
    Ok {| s_index := idx;
          s_values := (λ t, if bool_decide (t ∈ s_index train)
                            then s_lookup train t else last_value train) <$> idx |}).

Definition digit (c : Ascii.ascii) : option Z :=
  let n := Ascii.nat_of_ascii c in
  if (48 <=? n)%nat && (n <=? 57)%nat then Some (Z.of_nat (n - 48)) else None.

Fixpoint number (s : string) (acc : Z) : option Z :=
  match s with
  | EmptyString => Some acc
  | String c s' => d ← digit c; number s' (acc * 10 + d)%Z
  end.

(** [pd.to_datetime] on the form YYYY-MM-DD *)
Definition parse_date (text : string) : result datetime :=
  match number (String.substring 0 4 text) 0, number (String.substring 5 2 text) 0,
        number (String.substring 8 2 text) 0 with
  | Some y, Some m, Some d =>
      if bool_decide (String.length text = 10%nat ∧ String.substring 4 1 text = "-"
                      ∧ String.substring 7 1 text = "-"
                      ∧ (1 ≤ m ≤ 12)%Z ∧ (1 ≤ d ≤ days_in_month y m)%Z)
      then Ok {| year := y; month := m; day := d; tod := 0 |}
      else Raise (Exn ValueError "Unknown datetime string format")
  | _, _, _ => Raise (Exn ValueError "Unknown datetime string format")
  end.

Global Instance collaborators : Collaborators := {|
  handle := demo_handle;
  check_models := accept_models;
  check_datetime_index := accept_index;
  mase := mean_absolute_scaled_error;
  mse := mean_squared_error;
  rmse := mean_squared_error;
  candidate_getitem := λ c i, if (i =? 0)%Z then Ok (CandidateModel.error c)
                              else Raise (Exn TypeError "not a float");
  auto_arima := naive_arima;
  arima_predict := λ h n _, as_family "auto_arima" h (forecast n);
  arima_predict_in_sample := λ h i j _, as_family "auto_arima" h (in_sample i j);
  arima_update := λ h y, as_family "auto_arima" h (λ train,
     Ok (Trained "auto_arima" {| s_index := s_index train ++ s_index y;
                                 s_values := s_values train ++ s_values y |}));
  exponential_smoothing := λ y _ _, Ok (Trained "exponential_smoothing" y);
  es_predict := naive_es_predict;
  bats := λ _ _ y, Ok (Trained "tbats" y);
  bats_forecast := λ h n, as_family "tbats" h (forecast n);
  bats_y_hat := λ h, as_family "tbats" h (λ train, Ok (s_values train));
  row_mean := mean_of_row;
  to_datetime := parse_date;
|}.

(** A second set of stand-ins: exponential smoothing has diverged and
    predicts NaN throughout, and BATS repeats the end of its training series,
    which in [fit] contains the holdout. *)
Definition diverging : Collaborators := {|
  handle := demo_handle;
  check_models := accept_models;
  check_datetime_index := accept_index;
  mase := mean_absolute_scaled_error;
  mse := mean_squared_error;
  rmse := mean_squared_error;
  candidate_getitem := λ c i, if (i =? 0)%Z then Ok (CandidateModel.error c)
                              else Raise (Exn TypeError "not a float");
  auto_arima := naive_arima;
  arima_predict := λ h n _, as_family "auto_arima" h (forecast n);
  arima_predict_in_sample := λ h i j _, as_family "auto_arima" h (in_sample i j);
  arima_update := λ h y, as_family "auto_arima" h (λ train,
     Ok (Trained "auto_arima" {| s_index := s_index train ++ s_index y;
                                 s_values := s_values train ++ s_values y |}));
  exponential_smoothing := λ y _ _, Ok (Trained "exponential_smoothing" y);
  es_predict := λ h start stop, as_family "exponential_smoothing" h (λ _,
     let idx := date_range start stop in
     Ok {| s_index := idx; s_values := (λ _, NaN) <$> idx |});
  bats := λ _ _ y, Ok (Trained "tbats" y);
  bats_forecast := λ h n, as_family "tbats" h (λ train,
     Ok (drop (length (s_values train) - Z.to_nat n) (s_values train)));
  bats_y_hat := λ h, as_family "tbats" h (λ train, Ok (s_values train));
  row_mean := mean_of_row;
  to_datetime := parse_date;
|}.

(** Twenty-four months from January 2020, the series 1, 2, ..., 24. *)
Definition month_start (k : nat) : datetime :=
  {| year := 2020 + Z.of_nat k / 12; month := Z.of_nat k mod 12 + 1; day := 1; tod := 0 |}.

Definition sales : DataFrame :=
  {| columns := ["sales"];
     rows := (λ k, (month_start k, [Fin (inject_Z (Z.of_nat (S k)))])) <$> seq 0 24 |}.

Definition empty_store : gmap loc pydict := ∅.

Definition blank : world :=
  {| self := {| model_names := []; error_metric := "mse"; is_seasonal := false;
                seasonal_period := None; holdout_period := 4; verbose := false;
                auto_arima_args := 1%positive; exponential_smoothing_args := 2%positive;
                tbats_args := 3%positive;
                data := None; training_data := None; testing_data := None;
                series_column_name := None; exogenous := None; using_exogenous := false;
                candidate_models := []; fit_model := None; fit_model_type := None;
                best_model_error := None; is_fitted := false |};
     store := ∅; calls := [] |}.

Definition world_of (r : result world) : world :=
  match r with Ok w => w | Raise _ => blank end.

(** [AutoTS(model_names=names, error_metric='mse')] *)
Definition unfitted (names : list string) : world :=
  world_of (__init__ names "mse" NoSeason 4 false None None None empty_store).

(** ... followed by [fit(sales, 'sales')] *)
Definition fitted (names : list string) : world :=
  (fit sales "sales" NoNames (unfitted names)).2.

(** The same two steps with the second set of stand-ins. *)
Definition unfitted_diverging (names : list string) : world (C := diverging) :=
  match __init__ (C := diverging) names "mse" NoSeason 4 false None None None empty_store with
  | Ok w => w
  | Raise _ => {| self := {| model_names := []; error_metric := "mse"; is_seasonal := false;
                seasonal_period := None; holdout_period := 4; verbose := false;
                auto_arima_args := 1%positive; exponential_smoothing_args := 2%positive;
                tbats_args := 3%positive;
                data := None; training_data := None; testing_data := None;
                series_column_name := None; exogenous := None; using_exogenous := false;
                candidate_models := []; fit_model := None; fit_model_type := None;
                best_model_error := None; is_fitted := false |};
     store := ∅; calls := [] |}
  end.

(** An instance whose BATS options repeat a fixed argument of the call:
    exponential smoothing is fitted, then the BATS constructor fails. *)
Definition clashing_store : gmap loc pydict :=
  {[ 1%positive := {[ "use_box_cox" := PBool true ]} ]}.

Definition half_fitted : world :=
  world_of (__init__ ["exponential_smoothing"; "tbats"] "mse" NoSeason 4 false
                     None None (Some 1%positive) clashing_store).

(** An instance configured with the seasonal test that fails, after the
    preparation of [fit]. *)
Definition ocsb_store : gmap loc pydict :=
  {[ 1%positive := {[ "seasonal_test" := PStr "ocsb" ]} ]}.

Definition ocsb_prepared : world :=
  (prepare_fit sales "sales" NoNames
     (world_of (__init__ ["auto_arima"] "mse" NoSeason 4 false
                         (Some 1%positive) None None ocsb_store))).2.

(** The same months with every value doubled: a second delivery of data. *)
Definition revised : DataFrame :=
  {| columns := ["sales"];
     rows := (λ k, (month_start k, [Fin (inject_Z (2 * Z.of_nat (S k)))])) <$> seq 0 24 |}.

Definition refit_models : list string := ["exponential_smoothing"; "tbats"; "ensemble"].

(** [fit(sales, 'sales')] followed by [fit(revised, 'sales')], the second call
    stopped where it is about to fit the ensemble. *)
Definition refit_before_ensemble : world :=
  let w := (prepare_fit revised "sales" NoNames (fitted refit_models)).2 in
  let w := ((c ← _fit_exponential_smoothing true; append_candidate c) w).2 in
  ((c ← _fit_tbats true; append_candidate c) w).2.

(** The second column of a test-prediction table: its predictions. *)
Definition second_column (d : DataFrame) : list float := (λ r, cell 1 r.2) <$> rows d.

Definition first_column (d : DataFrame) : list float := (λ r, cell 0 r.2) <$> rows d.

End Demo.

(** ** Histories without a successful fit *)

(** The instances on which no call of [fit] has returned: a new instance, and
    what a failed [fit] or any [predict] leaves of such an instance. *)
Inductive never_fitted `{C : Collaborators} : world → Prop :=
  | never_fitted_init names metric season holdout verb aa es tb st w :
      __init__ names metric season holdout verb aa es tb st = Ok w →
      never_fitted w
  | never_fitted_fit w d c ex e w' :
      never_fitted w → fit d c ex w = (Raise e, w') → never_fitted w'
  | never_fitted_predict w a b ex r w' :
      never_fitted w → predict a b ex w = (r, w') → never_fitted w'.

(** * Properties *)

(** Closed equations between results of the stand-in collaborators are
    settled by evaluation.  They are kept small: of a run only the outcome
    is evaluated, and the world it leaves is named by projection. *)
Ltac by_vm := match goal with |- ?a = ?b => vm_cast_no_check (@eq_refl _ b) end.

Lemma run_eq `{C : Collaborators} {A} (x : result A * world) (r : result A) :
  x.1 = r → x = (r, x.2).
Proof. destruct x. by intros <-. Qed.

Lemma world_of_ok (r : result (world (C := Demo.collaborators))) :
  is_ok r = true → r = Ok (Demo.world_of r).
Proof. by destruct r. Qed.

(** ** The order of floats *)

Lemma Qltb_lt a b : Qltb a b = true ↔ (a < b)%Q.
Proof. unfold Qltb, Qlt. apply Z.ltb_lt. Qed.

Lemma Qltb_nlt a b : Qltb a b = false ↔ (b <= a)%Q.
Proof. unfold Qltb, Qle. rewrite Z.ltb_ge. done. Qed.

Lemma float_lt_irrefl x : float_lt x x = false.
Proof.
  destruct x; simpl; try done.
  apply Qltb_nlt, Qle_refl.
Qed.

Lemma float_lt_trans x y z :
  float_lt x y = true → float_lt y z = true → float_lt x z = true.
Proof.
  destruct x, y, z; simpl; try done.
  rewrite !Qltb_lt. apply Qlt_trans.
Qed.

(** Without NaN in the middle, "not smaller" is transitive too. *)
Lemma float_lt_negtrans x y z :
  is_nan y = false →
  float_lt x y = false → float_lt y z = false → float_lt x z = false.
Proof.
  destruct x, y, z; simpl; try done.
  rewrite !Qltb_nlt. intros _ H1 H2. by apply Qle_trans with q0.
Qed.

Lemma float_lt_asym x y : float_lt x y = true → float_lt y x = false.
Proof.
  intros H. destruct (float_lt y x) eqn:E; [|done].
  by rewrite <- (float_lt_irrefl x), <- (float_lt_trans _ _ _ H E).
Qed.

(** Two floats that are not NaN compare one way or the other, or tie. *)
Lemma float_lt_total x y :
  is_nan x = false → is_nan y = false →
  float_lt x y = false → float_lt y x = false → ∀ z, float_lt x z = float_lt y z.
Proof.
  destruct x, y; simpl; try done. intros _ _. rewrite !Qltb_nlt. intros H1 H2 z.
  destruct z; simpl; try done.
  destruct (Qltb q q1) eqn:E1, (Qltb q0 q1) eqn:E2; try done.
  - apply Qltb_lt in E1. apply Qltb_nlt in E2.
    exfalso. apply (Qlt_irrefl q). eapply Qlt_le_trans; [done|]. by eapply Qle_trans.
  - apply Qltb_lt in E2. apply Qltb_nlt in E1.
    exfalso. apply (Qlt_irrefl q0). eapply Qlt_le_trans; [done|]. by eapply Qle_trans.
Qed.

(** ** The sort *)

Section sorted.
Context {A : Type} (key : A → float).

(** [a] may stand before [b]: the key of [b] is not smaller. *)
Definition key_le (a b : A) : Prop := float_lt (key b) (key a) = false.

(** [c] ties with the key [k]. *)
Definition ties (k : float) (c : A) : bool :=
  negb (float_lt (key c) k) && negb (float_lt k (key c)).

Definition no_nan (l : list A) : Prop := Forall (λ c, is_nan (key c) = false) l.

(** *** A rearrangement, whatever the keys are *)

Lemma binary_insert_perm steps x l : Permutation (binary_insert key steps x l) (x :: l).
Proof.
  revert l. induction steps as [|steps IH]; intros l; cbn [binary_insert]; [done|].
  destruct (drop (Nat.div2 (length l)) l) as [|y after] eqn:E; [done|].
  destruct (key_lt key x y).
  - rewrite IH. cbn [app]. by rewrite <- E, take_drop.
  - rewrite IH.
    transitivity (take (Nat.div2 (length l)) l ++ x :: y :: after);
      [apply Permutation_app_head, perm_swap|].
    rewrite <- Permutation_middle. by rewrite <- E, take_drop.
Qed.

Lemma descending_tail_app prev l :
  (descending_tail key prev l).1 ++ (descending_tail key prev l).2 = l.
Proof.
  revert prev. induction l as [|x l IH]; intros prev; cbn [descending_tail]; [done|].
  destruct (key_lt key x prev); [|done].
  specialize (IH x). destruct (descending_tail key x l). cbn in *. by rewrite IH.
Qed.

Lemma ascending_tail_app prev l :
  (ascending_tail key prev l).1 ++ (ascending_tail key prev l).2 = l.
Proof.
  revert prev. induction l as [|x l IH]; intros prev; cbn [ascending_tail]; [done|].
  destruct (key_lt key x prev); [done|].
  specialize (IH x). destruct (ascending_tail key x l). cbn in *. by rewrite IH.
Qed.

Lemma count_run_perm l : Permutation ((count_run key l).1 ++ (count_run key l).2) l.
Proof.
  destruct l as [|x [|y l]]; [done|done|]. cbn [count_run].
  destruct (key_lt key y x).
  - pose proof (descending_tail_app y l) as H. destruct (descending_tail key y l) as [run rest].
    cbn [fst snd] in *. rewrite reverse_Permutation. cbn. by rewrite H.
  - pose proof (ascending_tail_app y l) as H. destruct (ascending_tail key y l) as [run rest].
    cbn [fst snd] in *. cbn. by rewrite H.
Qed.

Lemma insert_all_perm rest : ∀ run,
  Permutation (foldl (λ acc x, binary_insert key (length acc) x acc) run rest) (run ++ rest).
Proof.
  induction rest as [|x rest IH]; intros run; cbn [foldl]; [by rewrite app_nil_r|].
  rewrite IH, binary_insert_perm. by rewrite <- Permutation_middle.
Qed.

Lemma sorted_perm l : Permutation (sorted key l) l.
Proof.
  unfold sorted. pose proof (count_run_perm l) as H.
  destruct (count_run key l) as [run rest]. by rewrite insert_all_perm.
Qed.

Lemma sorted_length l : length (sorted key l) = length l.
Proof. apply Permutation_length, sorted_perm. Qed.

Lemma sorted_nil l : sorted key l = [] → l = [].
Proof. intros H. apply length_zero_iff_nil. by rewrite <- sorted_length, H. Qed.

(** *** The stable sort, when no key is NaN *)

(** [x < y ≤ z] *)
Lemma float_lt_le_trans x y z :
  is_nan z = false → float_lt x y = true → float_lt z y = false → float_lt x z = true.
Proof.
  intros Hz Hxy Hzy. destruct (float_lt x z) eqn:E; [done|].
  assert (Hx : is_nan x = false) by (by destruct x).
  destruct (float_lt z x) eqn:E'.
  - by rewrite (float_lt_trans _ _ _ E' Hxy) in Hzy.
  - by rewrite <- (float_lt_total x z Hx Hz E E' y), Hxy in Hzy.
Qed.

(** [x ≤ y < z] *)
Lemma float_le_lt_trans x y z :
  is_nan x = false → float_lt y x = false → float_lt y z = true → float_lt x z = true.
Proof.
  intros Hx Hyx Hyz. destruct (float_lt x z) eqn:E; [done|].
  assert (Hy : is_nan y = false) by (by destruct y).
  destruct (float_lt x y) eqn:E'.
  - by rewrite (float_lt_trans _ _ _ E' Hyz) in E.
  - by rewrite (float_lt_total x y Hx Hy E' Hyx z), Hyz in E.
Qed.

(** The place of [x] in a sorted list, behind the elements that tie with
    it. *)
Definition behind (x : A) (l : list A) : list A :=
  List.filter (λ y, negb (key_lt key x y)) l ++ x :: List.filter (key_lt key x) l.

Lemma filter_all (p : A → bool) l : Forall (λ y, p y = true) l → List.filter p l = l.
Proof.
  induction 1 as [|y l Hy _ IH]; [done|]. cbn [List.filter]. by rewrite Hy, IH.
Qed.

Lemma filter_none (p : A → bool) l : Forall (λ y, p y = false) l → List.filter p l = [].
Proof.
  induction 1 as [|y l Hy _ IH]; [done|]. cbn [List.filter]. by rewrite Hy, IH.
Qed.

Lemma StronglySorted_app_inv (R : A → A → Prop) l1 l2 :
  StronglySorted R (l1 ++ l2) →
  StronglySorted R l1 ∧ StronglySorted R l2 ∧ Forall (λ a, Forall (R a) l2) l1.
Proof.
  induction l1 as [|a l1 IH]; cbn [app]; intros H.
  - split; [constructor|]. split; [done|constructor].
  - apply StronglySorted_inv in H as [H Ha]. destruct (IH H) as (H1 & H2 & H12).
    apply Forall_app in Ha as [Ha1 Ha2].
    split; [by constructor|]. split; [done|]. by constructor.
Qed.

Lemma StronglySorted_app (R : A → A → Prop) l1 l2 :
  StronglySorted R l1 → StronglySorted R l2 → Forall (λ a, Forall (R a) l2) l1 →
  StronglySorted R (l1 ++ l2).
Proof.
  induction 1 as [|a l1 H1 IH Ha]; intros H2 H12; cbn [app]; [done|].
  apply Forall_cons in H12 as [Ha2 H12].
  constructor; [by apply IH|]. by apply Forall_app.
Qed.

Lemma binary_insert_behind steps x l :
  length l ≤ steps → is_nan (key x) = false → no_nan l → StronglySorted key_le l →
  binary_insert key steps x l = behind x l.
Proof.
  revert l. induction steps as [|steps IH]; intros l Hlen Hx Hnan Hs.
  { destruct l; [done|cbn in Hlen; lia]. }
  cbn [binary_insert]. set (p := Nat.div2 (length l)).
  destruct (drop p l) as [|y after] eqn:E.
  { assert (Hl : length l ≤ p) by (rewrite <- (Nat.sub_0_le); by rewrite <- length_drop, E).
    destruct l as [|a l]; [done|]. pose proof (Nat.lt_div2 (length (a :: l))) as Hp.
    cbn [length] in *. fold p in Hp. lia. }
  assert (El : l = take p l ++ y :: after) by (by rewrite <- E, take_drop).
  assert (Hp : p < length l).
  { apply (f_equal length) in E. rewrite length_drop in E. cbn in E. lia. }
  rewrite El in Hs, Hnan. apply StronglySorted_app_inv in Hs as (Hs1 & Hs2 & H12).
  apply Forall_app in Hnan as [Hn1 Hn2].
  apply StronglySorted_inv in Hs2 as [Hs2 Hy]. apply Forall_cons in Hn2 as [Hny Hn2].
  unfold behind. rewrite El at 3 4. rewrite !List.filter_app. cbn [List.filter].
  destruct (key_lt key x y) eqn:Exy; cbn [negb].
  - assert (Hafter : Forall (λ z, key_lt key x z = true) after).
    { rewrite Forall_forall in Hy, Hn2. apply Forall_forall. intros z Hz.
      unfold key_lt, key_le in *. apply (float_lt_le_trans _ (key y)); auto. }
    rewrite IH; [|rewrite length_take; lia|done|done|done].
    rewrite (filter_all _ after Hafter).
    rewrite (filter_none (λ z, negb (key_lt key x z)) after)
      by (eapply Forall_impl; [exact Hafter|]; by intros z ->).
    unfold behind. by rewrite app_nil_r, <- app_assoc.
  - assert (Hleft : Forall (λ z, key_lt key x z = false) (take p l)).
    { rewrite Forall_forall in H12. apply Forall_forall. intros z Hz.
      specialize (H12 z Hz). apply Forall_cons in H12 as [Hzy _].
      unfold key_lt, key_le in *. by apply (float_lt_negtrans _ (key y)). }
    rewrite IH; [|apply (f_equal length) in E; rewrite length_drop in E; cbn in E; lia
                 |done|done|done].
    rewrite (filter_none _ (take p l) Hleft).
    rewrite (filter_all (λ z, negb (key_lt key x z)) (take p l))
      by (eapply Forall_impl; [exact Hleft|]; by intros z ->).
    unfold behind. cbn [app]. by rewrite <- !app_assoc.
Qed.

(** A sorted list falls into the elements that are not above [x] and the
    elements above it. *)
Lemma sorted_split x l :
  is_nan (key x) = false → no_nan l → StronglySorted key_le l →
  List.filter (λ y, negb (key_lt key x y)) l ++ List.filter (key_lt key x) l = l.
Proof.
  intros Hx Hnan Hs. induction Hs as [|y l Hs IH Hy]; [done|].
  apply Forall_cons in Hnan as [Hny Hnan]. cbn [List.filter].
  destruct (key_lt key x y) eqn:Exy; cbn [negb].
  - assert (Hall : Forall (λ z, key_lt key x z = true) l).
    { rewrite Forall_forall in Hy, Hnan. apply Forall_forall. intros z Hz.
      unfold key_lt, key_le in *. apply (float_lt_le_trans _ (key y)); auto. }
    rewrite (filter_all _ l Hall).
    by rewrite (filter_none (λ z, negb (key_lt key x z)) l)
      by (eapply Forall_impl; [exact Hall|]; by intros z ->).
  - cbn [app]. by rewrite IH.
Qed.

Lemma behind_sorted x l :
  is_nan (key x) = false → no_nan l → StronglySorted key_le l →
  StronglySorted key_le (behind x l).
Proof.
  intros Hx Hnan Hs. pose proof (sorted_split x l Hx Hnan Hs) as Hl.
  unfold behind. set (lo := List.filter (λ y, negb (key_lt key x y)) l) in *.
  set (hi := List.filter (key_lt key x) l) in *.
  rewrite <- Hl in Hs. apply StronglySorted_app_inv in Hs as (Hlo & Hhi & Hlh).
  assert (Hxhi : Forall (key_le x) hi).
  { apply Forall_forall. intros z Hz. apply list_elem_of_In, List.filter_In in Hz as [_ Hz].
    by apply float_lt_asym. }
  assert (Hlox : Forall (λ a, key_le a x) lo).
  { apply Forall_forall. intros z Hz. apply list_elem_of_In, List.filter_In in Hz as [_ Hz].
    by apply negb_true_iff in Hz. }
  apply StronglySorted_app; [done|by constructor|].
  rewrite Forall_forall in Hlh, Hlox. apply Forall_forall. intros a Ha.
  constructor; [by apply Hlox|by apply Hlh].
Qed.

Lemma behind_ties k x l :
  is_nan k = false → is_nan (key x) = false → no_nan l → StronglySorted key_le l →
  List.filter (ties k) (behind x l) = List.filter (ties k) (l ++ [x]).
Proof.
  intros Hk Hx Hnan Hs. pose proof (sorted_split x l Hx Hnan Hs) as Hl.
  rewrite <- Hl at 2. unfold behind. rewrite !List.filter_app. cbn [List.filter].
  destruct (ties k x) eqn:Ex; [|by rewrite app_nil_r].
  rewrite (filter_none (ties k) (List.filter (key_lt key x) l)); [by rewrite app_nil_r|].
  apply Forall_forall. intros z Hz. apply list_elem_of_In, List.filter_In in Hz as [_ Hz].
  unfold ties, key_lt in *. apply andb_true_iff in Ex as [Ex _]. apply negb_true_iff in Ex.
  destruct (float_lt k (key z)) eqn:Ekz; [by rewrite andb_false_r|].
  exfalso. by rewrite (float_lt_le_trans _ _ _ Hk Hz Ekz) in Ex.
Qed.

(** Inserting the rest: the list stays sorted, and elements that tie stay
    in the order in which they came. *)
Lemma insert_all_sorted rest : ∀ run,
  no_nan run → no_nan rest → StronglySorted key_le run →
  StronglySorted key_le (foldl (λ acc x, binary_insert key (length acc) x acc) run rest)
  ∧ ∀ k, is_nan k = false →
      List.filter (ties k) (foldl (λ acc x, binary_insert key (length acc) x acc) run rest)
      = List.filter (ties k) (run ++ rest).
Proof.
  induction rest as [|x rest IH]; intros run Hrun Hrest Hs; cbn [foldl].
  { split; [done|]. intros k _. by rewrite app_nil_r. }
  apply Forall_cons in Hrest as [Hx Hrest].
  rewrite binary_insert_behind by done.
  destruct (IH (behind x run)) as [IH1 IH2].
  - unfold no_nan. rewrite <- binary_insert_behind with (steps := length run) by done.
    rewrite binary_insert_perm. by constructor.
  - done.
  - by apply behind_sorted.
  - split; [done|]. intros k Hk. rewrite IH2 by done.
    rewrite !List.filter_app, behind_ties by done. rewrite List.filter_app.
    rewrite <- app_assoc. cbn [List.filter app]. by destruct (ties k x).
Qed.

(** The run at the head: an ascending run is sorted as it stands. *)
Lemma ascending_tail_sorted prev l :
  is_nan (key prev) = false → no_nan l →
  StronglySorted key_le (prev :: (ascending_tail key prev l).1).
Proof.
  revert prev. induction l as [|x l IH]; intros prev Hp Hl; cbn [ascending_tail].
  { repeat constructor. }
  apply Forall_cons in Hl as [Hx Hl].
  destruct (key_lt key x prev) eqn:E; [repeat constructor|].
  specialize (IH x Hx Hl). destruct (ascending_tail key x l) as [run rest]. cbn [fst] in *.
  constructor; [done|]. constructor; [done|].
  apply StronglySorted_inv in IH as [_ IH].
  eapply Forall_impl; [exact IH|]. intros z Hz. unfold key_le, key_lt in *.
  by apply (float_lt_negtrans _ (key x)).
Qed.

(** A descending run: every element is smaller than the ones before it. *)
Lemma descending_tail_sorted prev l :
  StronglySorted (λ a b, key_lt key b a = true) (prev :: (descending_tail key prev l).1).
Proof.
  revert prev. induction l as [|x l IH]; intros prev; cbn [descending_tail].
  { repeat constructor. }
  destruct (key_lt key x prev) eqn:E; [|repeat constructor].
  specialize (IH x). destruct (descending_tail key x l) as [run rest]. cbn [fst] in *.
  constructor; [done|]. constructor; [done|].
  apply StronglySorted_inv in IH as [_ IH].
  eapply Forall_impl; [exact IH|]. intros z Hz. unfold key_lt in *.
  by apply (float_lt_trans _ (key x)).
Qed.

Lemma descending_reverse l :
  StronglySorted (λ a b, key_lt key b a = true) l → StronglySorted key_le (reverse l).
Proof.
  induction 1 as [|a l Hs IH Ha]; [apply SSorted_nil|]. rewrite reverse_cons.
  apply StronglySorted_app; [done|repeat constructor|].
  apply Forall_forall. intros z Hz. rewrite elem_of_reverse in Hz.
  rewrite Forall_forall in Ha. constructor; [|constructor].
  apply float_lt_asym. exact (Ha z Hz).
Qed.

(** In a descending run no two elements tie, so that turning it round moves
    no element past one that it ties with. *)
Lemma descending_ties k l :
  is_nan k = false → no_nan l →
  StronglySorted (λ a b, key_lt key b a = true) l →
  List.filter (ties k) (reverse l) = List.filter (ties k) l.
Proof.
  intros Hk Hnan Hs. induction Hs as [|a l Hs IH Ha]; [done|].
  apply Forall_cons in Hnan as [Hna Hnan].
  rewrite reverse_cons, List.filter_app, IH by done. cbn [List.filter].
  destruct (ties k a) eqn:Ea; [|by rewrite app_nil_r].
  rewrite (filter_none (ties k) l); [done|].
  rewrite Forall_forall in Ha, Hnan. apply Forall_forall. intros z Hz.
  specialize (Ha z Hz). unfold ties, key_lt in *.
  apply andb_true_iff in Ea as [_ Ea]. apply negb_true_iff in Ea.
  destruct (float_lt (key z) k) eqn:Ezk; [done|]. exfalso.
  by rewrite (float_le_lt_trans _ _ _ Hk Ezk Ha) in Ea.
Qed.

Lemma count_run_sorted l :
  no_nan l →
  StronglySorted key_le (count_run key l).1
  ∧ ∀ k, is_nan k = false →
      List.filter (ties k) ((count_run key l).1 ++ (count_run key l).2)
      = List.filter (ties k) l.
Proof.
  intros Hnan. destruct l as [|x [|y l]]; [by repeat constructor|by repeat constructor|].
  cbn [count_run]. apply Forall_cons in Hnan as [Hx Hnan].
  pose proof Hnan as Hyl. apply Forall_cons in Hnan as [Hy Hnan].
  destruct (key_lt key y x) eqn:E.
  - pose proof (descending_tail_sorted y l) as Hs.
    pose proof (descending_tail_app y l) as Happ.
    destruct (descending_tail key y l) as [run rest]. cbn [fst snd] in *.
    assert (Hd : StronglySorted (λ a b, key_lt key b a = true) (x :: y :: run)).
    { constructor; [done|]. constructor; [done|].
      apply StronglySorted_inv in Hs as [_ Hs].
      eapply Forall_impl; [exact Hs|]. intros z Hz. unfold key_lt in *.
      by apply (float_lt_trans _ (key y)). }
    split; [by apply descending_reverse|].
    intros k Hk. rewrite List.filter_app, descending_ties; [|done| |done].
    + rewrite <- List.filter_app. cbn [app]. by rewrite Happ.
    + constructor; [done|]. constructor; [done|].
      rewrite <- Happ in Hnan. by apply Forall_app in Hnan as [? _].
  - pose proof (ascending_tail_sorted y l Hy Hnan) as Hs.
    pose proof (ascending_tail_app y l) as Happ.
    destruct (ascending_tail key y l) as [run rest]. cbn [fst snd] in *.
    split; [|intros k _; cbn [app]; by rewrite Happ].
    constructor; [done|]. constructor; [done|].
    apply StronglySorted_inv in Hs as [_ Hs].
    eapply Forall_impl; [exact Hs|]. intros z Hz. unfold key_le, key_lt in *.
    by apply (float_lt_negtrans _ (key y)).
Qed.

Lemma sorted_stable_sort l :
  no_nan l →
  StronglySorted key_le (sorted key l)
  ∧ ∀ k, is_nan k = false → List.filter (ties k) (sorted key l) = List.filter (ties k) l.
Proof.
  intros Hnan. unfold sorted.
  pose proof (count_run_sorted l Hnan) as [Hs Ht].
  pose proof (count_run_perm l) as Hp.
  destruct (count_run key l) as [run rest]. cbn [fst snd] in *.
  assert (Hn : no_nan (run ++ rest)) by (unfold no_nan; by rewrite Hp).
  apply Forall_app in Hn as [Hn1 Hn2].
  destruct (insert_all_sorted rest run Hn1 Hn2 Hs) as [H1 H2].
  split; [done|]. intros k Hk. by rewrite H2, Ht.
Qed.

(** Without NaN the list is ascending. *)
Lemma sorted_sorted l : no_nan l → StronglySorted key_le (sorted key l).
Proof. intros Hnan. by apply sorted_stable_sort. Qed.

(** Stability: candidates that tie keep their order. *)
Lemma sorted_stable k l :
  no_nan l → is_nan k = false →
  List.filter (ties k) (sorted key l) = List.filter (ties k) l.
Proof. intros Hnan. by apply sorted_stable_sort. Qed.

Lemma filter_head (p : A → bool) l x r :
  List.filter p l = x :: r →
  ∃ pre post, l = pre ++ x :: post ∧ Forall (λ c, p c = false) pre.
Proof.
  induction l as [|y l IH]; [done|]. cbn [List.filter].
  destruct (p y) eqn:E.
  - intros [= -> _]. by exists [], l.
  - intros H. destruct (IH H) as (pre & post & -> & Hpre).
    exists (y :: pre), post. split; [done|]. by constructor.
Qed.

(** The head of the sorted list: no key is smaller than its key, and in the
    list as it was before the sort every earlier element has a larger key. *)
Lemma sorted_head l c0 rest :
  no_nan l → sorted key l = c0 :: rest →
  Forall (key_le c0) l
  ∧ ∃ pre post, l = pre ++ c0 :: post
                ∧ Forall (λ c, float_lt (key c0) (key c) = true) pre.
Proof.
  intros Hl Hs.
  assert (Hin : c0 ∈ l).
  { rewrite <- (sorted_perm l), Hs. left. }
  assert (Hc0 : is_nan (key c0) = false).
  { unfold no_nan in Hl. rewrite Forall_forall in Hl. auto. }
  assert (Hmin : Forall (key_le c0) l).
  { rewrite <- (sorted_perm l), Hs.
    pose proof (sorted_sorted l Hl) as Hss. rewrite Hs in Hss.
    apply StronglySorted_inv in Hss as [_ Hss].
    constructor; [apply float_lt_irrefl|done]. }
  split; [done|].
  pose proof (sorted_stable (key c0) l Hl Hc0) as Hst.
  rewrite Hs in Hst. cbn [List.filter] in Hst.
  assert (Ht : ties (key c0) c0 = true).
  { unfold ties. by rewrite float_lt_irrefl. }
  rewrite Ht in Hst. symmetry in Hst.
  destruct (filter_head _ _ _ _ Hst) as (pre & post & -> & Hpre).
  exists pre, post. split; [done|].
  apply Forall_app in Hmin as [Hmin _].
  apply Forall_forall. intros c Hc.
  rewrite Forall_forall in Hpre, Hmin.
  specialize (Hpre c Hc). specialize (Hmin c Hc). unfold key_le, ties in *.
  rewrite Hmin in Hpre. simpl in Hpre. by apply negb_false_iff in Hpre.
Qed.

End sorted.

Section steps.
Context {A : Type} (key : A → float).

(** The search is over before the steps are used up. *)
Lemma binary_insert_steps s s' x l :
  length l ≤ s → length l ≤ s' → binary_insert key s x l = binary_insert key s' x l.
Proof.
  revert s' l. induction s as [|s IH]; intros s' l Hs Hs'.
  { destruct l; [|cbn in Hs; lia]. by destruct s'. }
  destruct s' as [|s'].
  { destruct l; [done|cbn in Hs'; lia]. }
  cbn [binary_insert]. destruct (drop (Nat.div2 (length l)) l) as [|y after] eqn:E; [done|].
  assert (Hlen : length l - Nat.div2 (length l) = S (length after)).
  { by rewrite <- length_drop, E. }
  set (p := Nat.div2 (length l)) in *. clearbody p.
  destruct (key_lt key x y).
  - f_equal. apply IH; rewrite length_take; lia.
  - do 2 f_equal. apply IH; lia.
Qed.

End steps.

(** ** Running the monad *)

Section monad.
Context `{C : Collaborators}.

Lemma bind_run {A B} (m : M A) (f : A → M B) w :
  (m ≫= f) w = match m w with
               | (Ok a, w') => f a w'
               | (Raise e, w') => (Raise e, w')
               end.
Proof. done. Qed.

Lemma bind_ok {A B} (m : M A) (f : A → M B) w a w1 :
  m w = (Ok a, w1) → (m ≫= f) w = f a w1.
Proof. intros H. by rewrite bind_run, H. Qed.

Lemma bind_raise {A B} (m : M A) (f : A → M B) w e w1 :
  m w = (Raise e, w1) → (m ≫= f) w = (Raise e, w1).
Proof. intros H. by rewrite bind_run, H. Qed.

Lemma bind_inv {A B} (m : M A) (f : A → M B) w r w' :
  (m ≫= f) w = (r, w') →
  (∃ e, m w = (Raise e, w') ∧ r = Raise e)
  ∨ (∃ a w1, m w = (Ok a, w1) ∧ f a w1 = (r, w')).
Proof.
  rewrite bind_run. destruct (m w) as [[a|e] w1]; intros H.
  - right. by exists a, w1.
  - left. exists e. by simplify_eq.
Qed.

Lemma when_true (m : M unit) : when true m = m.
Proof. done. Qed.

Lemma when_false (m : M unit) w : when false m w = (Ok tt, w).
Proof. done. Qed.

(** *** Computations that keep a relation between the worlds

    [R] relates the world before a call with the world after it, whatever
    the outcome; [P] is a fact about the instance that [R] carries along. *)

Section respects.
Variable R : world → world → Prop.
Variable P : AutoTS → Prop.
Hypothesis R_refl : ∀ w, R w w.
Hypothesis R_trans : ∀ w1 w2 w3, R w1 w2 → R w2 w3 → R w1 w3.
Hypothesis R_P : ∀ w w', P (self w) → R w w' → P (self w').

Definition respects {A} (m : M A) : Prop :=
  ∀ w r w', P (self w) → m w = (r, w') → R w w'.

Lemma respects_ret {A} (a : A) : respects (mret a).
Proof using R_refl. intros w r w' _ [= _ <-]. apply R_refl. Qed.

Lemma respects_raise {A} c msg : respects (raise (A := A) c msg).
Proof using R_refl. intros w r w' _ [= _ <-]. apply R_refl. Qed.

Lemma respects_lift {A} (x : result A) : respects (lift x).
Proof using R_refl. intros w r w' _ [= _ <-]. apply R_refl. Qed.

Lemma respects_read_dict l : respects (read_dict l).
Proof using R_refl. intros w r w' _ [= _ <-]. apply R_refl. Qed.

Lemma respects_bind {A B} (m : M A) (f : A → M B) :
  respects m → (∀ a, respects (f a)) → respects (m ≫= f).
Proof using R_trans R_P.
  intros Hm Hf w r w' HP H.
  apply bind_inv in H as [(e & H & _)|(a & w1 & H1 & H2)].
  - by eapply Hm.
  - pose proof (Hm _ _ _ HP H1) as HR. eapply R_trans; [exact HR|].
    eapply Hf; [|exact H2]. by eapply R_P.
Qed.

(** After [s ← get_self] the fact [P] is known of [s]. *)
Lemma respects_get_self {A} (f : AutoTS → M A) :
  (∀ s, P s → respects (f s)) → respects (get_self ≫= f).
Proof. intros Hf w r w' HP H. rewrite bind_run in H. simpl in H. by eapply Hf. Qed.

Lemma respects_when b m : respects m → respects (when b m).
Proof using R_refl. destruct b; [done|]. intros _. apply (respects_ret tt). Qed.

Lemma respects_required {A} (o : option A) what : respects (required o what).
Proof using R_refl. destruct o; [apply respects_ret|apply respects_raise]. Qed.

Lemma respects_attr_of {A} (o : option A) what : respects (attr_of o what).
Proof using R_refl. destruct o; [apply respects_ret|apply respects_raise]. Qed.

Lemma respects_on_handle {A} (f : handle → result A) h : respects (on_handle f h).
Proof using R_refl. destruct h; [apply respects_lift|apply respects_raise]. Qed.

Lemma respects_try {A} (body handler : M A) :
  respects body → respects handler → respects (try_except_ValueError body handler).
Proof using R_trans R_P.
  intros Hb Hh w r w' HP. unfold try_except_ValueError.
  destruct (body w) as [[a|[c msg]] w1] eqn:E.
  - intros [= <- <-]. by eapply Hb.
  - pose proof (Hb _ _ _ HP E) as HR.
    destruct c; try (intros [= <- <-]; by eapply Hb).
    intros H. eapply R_trans; [exact HR|]. eapply Hh; [|exact H]. by eapply R_P.
Qed.

Lemma respects_modify_self f :
  (∀ w, P (self w) → R w {| self := f (self w); store := store w; calls := calls w |}) →
  respects (modify_self f).
Proof. intros Hf w r w' HP [= _ <-]. by apply Hf. Qed.

Lemma respects_log c :
  (∀ w, R w {| self := self w; store := store w; calls := calls w ++ [c] |}) →
  respects (log c).
Proof. intros Hf w r w' HP [= _ <-]. by apply Hf. Qed.

End respects.
End monad.

(** ** What the methods leave alone *)

Section frames.
Context `{C : Collaborators}.

(** The nine attributes of the configuration agree. *)
Record config_kept (s s' : AutoTS) : Prop := {
  kept_model_names : model_names s' = model_names s;
  kept_error_metric : error_metric s' = error_metric s;
  kept_is_seasonal : is_seasonal s' = is_seasonal s;
  kept_seasonal_period : seasonal_period s' = seasonal_period s;
  kept_holdout_period : holdout_period s' = holdout_period s;
  kept_verbose : verbose s' = verbose s;
  kept_auto_arima_args : auto_arima_args s' = auto_arima_args s;
  kept_exponential_smoothing_args : exponential_smoothing_args s' = exponential_smoothing_args s;
  kept_tbats_args : tbats_args s' = tbats_args s;
}.

Lemma config_kept_refl s : config_kept s s.
Proof. by split. Qed.

Lemma config_kept_trans s1 s2 s3 :
  config_kept s1 s2 → config_kept s2 s3 → config_kept s1 s3.
Proof. intros [] []. split; congruence. Qed.

(** The dictionary found at an address. *)
Definition dict_at (st : gmap loc pydict) (l : loc) : pydict := default ∅ (st !! l).

(** *** Predicting: configuration, dictionaries and fitted flag stay *)

Definition predict_frame (w w' : world) : Prop :=
  config_kept (self w) (self w')
  ∧ is_fitted (self w') = is_fitted (self w)
  ∧ store w' = store w
  ∧ data (self w') = data (self w)
  ∧ candidate_models (self w') = candidate_models (self w).

Lemma predict_frame_refl w : predict_frame w w.
Proof. repeat split. Qed.

Lemma predict_frame_trans w1 w2 w3 :
  predict_frame w1 w2 → predict_frame w2 w3 → predict_frame w1 w3.
Proof.
  intros (? & ? & ? & ? & ?) (? & ? & ? & ? & ?).
  split; [by eapply config_kept_trans|]. repeat split; congruence.
Qed.

Definition anything (s : AutoTS) : Prop := True.

Lemma predict_frame_anything w w' : anything (self w) → predict_frame w w' → anything (self w').
Proof. done. Qed.

End frames.

Create HintDb frames.

(** Breaks a goal [respects R P m] along the structure of [m]; what is left
    are the assignments and the calls of other methods. *)
Tactic Notation "respects_go" constr(Hrefl) constr(Htrans) constr(HP) :=
  repeat first
    [ solve [auto 1 with frames]
    | simple apply (respects_get_self _ _); intros ? ?
    | simple apply (respects_ret _ _ Hrefl)
    | simple apply (respects_raise _ _ Hrefl)
    | simple apply (respects_lift _ _ Hrefl)
    | simple apply (respects_read_dict _ _ Hrefl)
    | simple apply (respects_required _ _ Hrefl)
    | simple apply (respects_attr_of _ _ Hrefl)
    | simple apply (respects_on_handle _ _ Hrefl)
    | simple apply (respects_when _ _ Hrefl)
    | simple apply (respects_try _ _ Htrans HP)
    | simple apply (respects_bind _ _ Htrans HP); [|intros ?]
    | match goal with
      | |- respects _ _ (match ?x with _ => _ end) => destruct x
      | |- respects _ _ (let _ := _ in _) => cbv zeta
      end ].

Section predict_frames.
Context `{C : Collaborators}.

Ltac go := respects_go predict_frame_refl predict_frame_trans predict_frame_anything.

Lemma predict_frame_log c : respects predict_frame anything (log c).
Proof. apply respects_log. intros w. repeat split. Qed.

Lemma predict_frame_set_fit_model h : respects predict_frame anything (modify_self (set_fit_model h)).
Proof. apply respects_modify_self. intros w _. repeat split. Qed.

Lemma predict_frame_set_fit_model_type t :
  respects predict_frame anything (modify_self (set_fit_model_type t)).
Proof. apply respects_modify_self. intros w _. repeat split. Qed.

Lemma predict_frame_data_index i : respects predict_frame anything (data_index i).
Proof. unfold data_index. go. Qed.

Lemma predict_frame_data_get_loc t : respects predict_frame anything (data_get_loc t).
Proof. unfold data_get_loc. go. Qed.

Local Hint Resolve predict_frame_log predict_frame_set_fit_model
  predict_frame_set_fit_model_type predict_frame_data_index
  predict_frame_data_get_loc : frames.

Lemma predict_frame_auto_arima a b l ex :
  respects predict_frame anything (_predict_auto_arima a b l ex).
Proof. unfold _predict_auto_arima. go; auto with frames. Qed.

Lemma predict_frame_exponential_smoothing a b :
  respects predict_frame anything (_predict_exponential_smoothing a b).
Proof. unfold _predict_exponential_smoothing. go; auto with frames. Qed.

Lemma predict_frame_tbats a b l :
  respects predict_frame anything (_predict_tbats a b l).
Proof. unfold _predict_tbats. go; auto with frames. Qed.

Lemma predict_frame_activate t : respects predict_frame anything (activate t).
Proof.
  apply respects_modify_self. intros w _.
  assert (H : ∀ cs s, config_kept s
     (foldl (λ s c, if String.eqb (CandidateModel.model_type c) t
                    then set_fit_model (CandidateModel.fit_model c) s else s) s cs)
     ∧ is_fitted (foldl (λ s c, if String.eqb (CandidateModel.model_type c) t
                    then set_fit_model (CandidateModel.fit_model c) s else s) s cs)
       = is_fitted s
     ∧ data (foldl (λ s c, if String.eqb (CandidateModel.model_type c) t
                    then set_fit_model (CandidateModel.fit_model c) s else s) s cs)
       = data s
     ∧ candidate_models
         (foldl (λ s c, if String.eqb (CandidateModel.model_type c) t
                    then set_fit_model (CandidateModel.fit_model c) s else s) s cs)
       = candidate_models s).
  { induction cs as [|c cs IH]; intros s; simpl; [repeat split|].
    destruct (IH (if String.eqb (CandidateModel.model_type c) t
                  then set_fit_model (CandidateModel.fit_model c) s else s))
      as (H1 & H2 & H3 & H4).
    destruct (String.eqb _ _); [|done].
    split; [|split; [|split]].
    - eapply config_kept_trans; [|exact H1]. by split.
    - by rewrite H2.
    - by rewrite H3.
    - by rewrite H4. }
  destruct (H (candidate_models (self w)) (self w)) as (? & ? & ? & ?).
  split; [done|]. split; [done|]. split; [done|]. split; done.
Qed.

Local Hint Resolve predict_frame_auto_arima predict_frame_exponential_smoothing
  predict_frame_tbats predict_frame_activate : frames.

Lemma predict_frame_ensemble a b l ex :
  respects predict_frame anything (_predict_ensemble a b l ex).
Proof. unfold _predict_ensemble. go; auto with frames. Qed.

Lemma predict_frame_checks a b ex : respects predict_frame anything (predict_checks a b ex).
Proof. unfold predict_checks, as_datetime. go; auto with frames. Qed.

Lemma predict_frame_dispatch a b l ex :
  respects predict_frame anything (predict_dispatch a b l ex).
Proof.
  unfold predict_dispatch, returning. go; auto using predict_frame_ensemble with frames.
Qed.

Lemma predict_frame_predict a b ex : respects predict_frame anything (predict a b ex).
Proof.
  unfold predict.
  apply (respects_bind _ _ predict_frame_trans predict_frame_anything).
  - apply predict_frame_checks.
  - intros [[? ?] ?]. apply predict_frame_dispatch.
Qed.

End predict_frames.

(** *** Fitting: the configuration stays, the dictionaries get defaults *)

Section fit_frames.
Context `{C : Collaborators}.
Variables aa es tb : loc.

(** From the store [st] to the store [st'] a key of a dictionary keeps its
    value, or it was missing and got the default that a fitter writes, or it
    is the seasonal test that the retry of auto_arima forces. *)
Definition defaults_written (st st' : gmap loc pydict) : Prop :=
  ∀ l k,
    dict_at st' l !! k = dict_at st l !! k
    ∨ (l = es ∧ dict_at st l !! k = None
       ∧ (k = "trend" ∧ dict_at st' l !! k = Some (PStr "add")
          ∨ k = "seasonal" ∧ (dict_at st' l !! k = Some (PStr "add")
                              ∨ dict_at st' l !! k = Some PNone)))
    ∨ (l = tb ∧ dict_at st l !! k = None
       ∧ (k = "n_jobs" ∧ dict_at st' l !! k = Some (PInt 1)
          ∨ k = "use_arma_errors" ∧ dict_at st' l !! k = Some (PBool false)))
    ∨ (l = aa ∧ k = "seasonal_test" ∧ dict_at st' l !! k = Some (PStr "ch")).

Lemma defaults_written_refl st : defaults_written st st.
Proof. intros l k. by left. Qed.

Lemma defaults_written_trans st1 st2 st3 :
  defaults_written st1 st2 → defaults_written st2 st3 → defaults_written st1 st3.
Proof.
  intros H12 H23 l k.
  destruct (H23 l k) as [E|[(-> & E & H)|[(-> & E & H)|(-> & -> & H)]]].
  - rewrite E. apply H12.
  - destruct (H12 es k) as [E'|[(_ & E' & H')|[(_ & E' & H')|(_ & _ & H')]]].
    + right; left. rewrite <- E'. auto.
    + rewrite E in H'. by destruct H' as [[_ ?]|[_ [?|?]]].
    + rewrite E in H'. by destruct H' as [[_ ?]|[_ ?]].
    + by rewrite E in H'.
  - destruct (H12 tb k) as [E'|[(_ & E' & H')|[(_ & E' & H')|(_ & _ & H')]]].
    + right; right; left. rewrite <- E'. auto.
    + rewrite E in H'. by destruct H' as [[_ ?]|[_ [?|?]]].
    + rewrite E in H'. by destruct H' as [[_ ?]|[_ ?]].
    + by rewrite E in H'.
  - right; right; right. auto.
Qed.

Lemma dict_at_insert st l d l' :
  dict_at (<[l := d]> st) l' = if decide (l = l') then d else dict_at st l'.
Proof.
  unfold dict_at. destruct (decide (l = l')) as [->|Hne].
  - by rewrite lookup_insert_eq.
  - by rewrite lookup_insert_ne.
Qed.

(** One key of one dictionary is written. *)
Lemma dict_set_lookup st l k v l' k' :
  dict_at (<[l := <[k := v]> (dict_at st l)]> st) l' !! k'
  = if decide (l = l' ∧ k = k') then Some v else dict_at st l' !! k'.
Proof.
  rewrite dict_at_insert. destruct (decide (l = l')) as [->|Hne].
  - destruct (decide (k = k')) as [->|Hk].
    + rewrite lookup_insert_eq. by rewrite decide_True.
    + rewrite lookup_insert_ne by done. rewrite decide_False; [done|]. by intros [_ ?].
  - rewrite decide_False; [done|]. by intros [? _].
Qed.

Definition fit_frame (w w' : world) : Prop :=
  config_kept (self w) (self w')
  ∧ is_fitted (self w') = is_fitted (self w)
  ∧ defaults_written (store w) (store w').

Definition at_locs (s : AutoTS) : Prop :=
  auto_arima_args s = aa ∧ exponential_smoothing_args s = es ∧ tbats_args s = tb.

Lemma fit_frame_refl w : fit_frame w w.
Proof. split; [apply config_kept_refl|]. split; [done|apply defaults_written_refl]. Qed.

Lemma fit_frame_trans w1 w2 w3 : fit_frame w1 w2 → fit_frame w2 w3 → fit_frame w1 w3.
Proof.
  intros (? & ? & ?) (? & ? & ?). split; [by eapply config_kept_trans|].
  split; [congruence|by eapply defaults_written_trans].
Qed.

Lemma fit_frame_at_locs w w' : at_locs (self w) → fit_frame w w' → at_locs (self w').
Proof. intros (? & ? & ?) ([] & _). unfold at_locs. repeat split; congruence. Qed.

Ltac go := respects_go fit_frame_refl fit_frame_trans fit_frame_at_locs.

Lemma fit_frame_log c : respects fit_frame at_locs (log c).
Proof.
  apply respects_log. intros w. split; [apply config_kept_refl|].
  split; [done|apply defaults_written_refl].
Qed.

Lemma fit_frame_self f :
  (∀ s, config_kept s (f s) ∧ is_fitted (f s) = is_fitted s) →
  respects fit_frame at_locs (modify_self f).
Proof.
  intros Hf. apply respects_modify_self. intros w _.
  destruct (Hf (self w)) as [? ?]. split; [done|]. split; [done|].
  apply defaults_written_refl.
Qed.

Lemma fit_frame_append c : respects fit_frame at_locs (append_candidate c).
Proof. apply fit_frame_self. intros s. by repeat split. Qed.

Lemma fit_frame_dict_set_store w l k v :
  defaults_written (store w) (<[l := <[k := v]> (dict_at (store w) l)]> (store w)) →
  fit_frame w {| self := self w;
                 store := <[l := <[k := v]> (default ∅ (store w !! l))]> (store w);
                 calls := calls w |}.
Proof. intros H. split; [apply config_kept_refl|]. by split. Qed.

Lemma fit_frame_setdefault l k v :
  (l = es ∧ (k = "trend" ∧ v = PStr "add" ∨ k = "seasonal" ∧ (v = PStr "add" ∨ v = PNone)))
  ∨ (l = tb ∧ (k = "n_jobs" ∧ v = PInt 1 ∨ k = "use_arma_errors" ∧ v = PBool false)) →
  respects fit_frame at_locs (setdefault l k v).
Proof.
  intros Hcase w r w' _. unfold setdefault. rewrite bind_run. cbn [read_dict].
  case_bool_decide as Hk; [|intros [= _ <-]; apply fit_frame_refl].
  intros [= _ <-]. apply fit_frame_dict_set_store. intros l' k'.
  rewrite dict_set_lookup. case_decide as Hd; [|by left].
  destruct Hd as [<- <-]. right. fold (dict_at (store w) l) in Hk.
  destruct Hcase as [(-> & H)|(-> & H)]; [left|right; left].
  - split; [done|]. split; [done|].
    destruct H as [[-> ->] | [-> [-> | ->]]]; auto.
  - split; [done|]. split; [done|].
    destruct H as [[-> ->] | [-> ->]]; auto.
Qed.

Lemma fit_frame_trend : respects fit_frame at_locs (setdefault es "trend" (PStr "add")).
Proof. apply fit_frame_setdefault. left. auto. Qed.

Lemma fit_frame_seasonal (o : option (list Z)) :
  respects fit_frame at_locs
    (setdefault es "seasonal" (match o with Some _ => PStr "add" | None => PNone end)).
Proof. apply fit_frame_setdefault. left. destruct o; auto. Qed.

Lemma fit_frame_n_jobs : respects fit_frame at_locs (setdefault tb "n_jobs" (PInt 1)).
Proof. apply fit_frame_setdefault. right. auto. Qed.

Lemma fit_frame_use_arma_errors :
  respects fit_frame at_locs (setdefault tb "use_arma_errors" (PBool false)).
Proof. apply fit_frame_setdefault. right. auto. Qed.

Lemma fit_frame_force_ch : respects fit_frame at_locs (dict_set aa "seasonal_test" (PStr "ch")).
Proof.
  intros w r w' _ [= _ <-]. apply fit_frame_dict_set_store. intros l' k'.
  rewrite dict_set_lookup. case_decide as Hd; [|by left].
  destruct Hd as [<- <-]. right; right; right. done.
Qed.

Lemma fit_frame_set_input_data d c : respects fit_frame at_locs (_set_input_data d c).
Proof. unfold _set_input_data. go. apply fit_frame_self. intros ?. by repeat split. Qed.

Lemma fit_frame_error_metric d p a : respects fit_frame at_locs (_error_metric d p a).
Proof. unfold _error_metric. go. Qed.

Lemma fit_frame_kwargs named args : respects fit_frame at_locs (kwargs named args).
Proof. unfold kwargs. go. Qed.

Lemma fit_frame_column_of d c : respects fit_frame at_locs (column_of d c).
Proof. unfold column_of. go. Qed.

Lemma fit_frame_df_cols d cs : respects fit_frame at_locs (df_cols d cs).
Proof. unfold df_cols. go. Qed.

Local Hint Resolve fit_frame_log fit_frame_append fit_frame_error_metric fit_frame_kwargs
  fit_frame_column_of fit_frame_df_cols fit_frame_set_input_data fit_frame_force_ch
  fit_frame_trend fit_frame_seasonal fit_frame_n_jobs fit_frame_use_arma_errors : frames.

Lemma fit_frame_call_auto_arima md m ex : respects fit_frame at_locs (call_auto_arima md m ex).
Proof. unfold call_auto_arima. go. Qed.

Local Hint Resolve fit_frame_call_auto_arima : frames.

Lemma fit_frame_arima_inputs b : respects fit_frame at_locs (arima_inputs b).
Proof. unfold arima_inputs. go. Qed.

Lemma fit_frame_retry_with_ch md m ex : respects fit_frame at_locs (retry_with_ch md m ex).
Proof.
  unfold retry_with_ch. apply respects_get_self. intros s (Haa & _ & _). rewrite Haa.
  go.
Qed.

Local Hint Resolve fit_frame_arima_inputs fit_frame_retry_with_ch : frames.

Lemma fit_frame_auto_arima b : respects fit_frame at_locs (_fit_auto_arima b).
Proof. unfold _fit_auto_arima, auto_arima_or_retry. go. Qed.

Lemma fit_frame_exponential_smoothing b :
  respects fit_frame at_locs (_fit_exponential_smoothing b).
Proof.
  unfold _fit_exponential_smoothing. apply respects_get_self. intros s (_ & Hes & _).
  rewrite Hes. go.
Qed.

Lemma fit_frame_tbats b : respects fit_frame at_locs (_fit_tbats b).
Proof.
  unfold _fit_tbats. apply respects_get_self. intros s (_ & _ & Htb).
  rewrite Htb. go.
Qed.

Lemma fit_frame_ensemble : respects fit_frame at_locs _fit_ensemble.
Proof. unfold _fit_ensemble. go; apply fit_frame_self; intros ?; by repeat split. Qed.

Local Hint Resolve fit_frame_auto_arima fit_frame_exponential_smoothing fit_frame_tbats
  fit_frame_ensemble : frames.

Lemma fit_frame_prepare d c ex : respects fit_frame at_locs (prepare_fit d c ex).
Proof.
  unfold prepare_fit. go; try (apply fit_frame_self; intros ?; by repeat split).
Qed.

Local Hint Resolve fit_frame_prepare : frames.

Lemma fit_frame_candidates d c ex : respects fit_frame at_locs (fit_candidates d c ex).
Proof. unfold fit_candidates. go. Qed.

End fit_frames.

(** ** The fitted flag *)

Section fitted_flag.
Context `{C : Collaborators}.

Definition must_be_fitted : exn :=
  Exn AttributeError
      "Model must be fitted to be able to make predictions. Use the `fit` method to fit before predicting".

(** Before anything else [predict] looks at the flag. *)
Lemma predict_unfitted a b ex w :
  is_fitted (self w) = false → predict a b ex w = (Raise must_be_fitted, w).
Proof.
  intros H. unfold predict, predict_checks.
  rewrite !bind_run. cbn [get_self]. rewrite bind_run, H. done.
Qed.

Lemma py_index_0 {A} (l : list A) :
  py_index l 0 = match l with
                 | [] => Raise (Exn IndexError "index out of bounds")
                 | a :: _ => Ok a
                 end.
Proof. by destruct l. Qed.

Definition ranked (w : world) : list (CandidateModel handle) :=
  sorted CandidateModel.error (candidate_models (self w)).

(** The world that [retain_winner] leaves when [best] heads the ranking. *)
Definition retained (best : CandidateModel handle) (w : world) : world :=
  {| self := set_is_fitted true
               (set_fit_model_type (Some (CandidateModel.model_type best))
                  (set_fit_model (CandidateModel.fit_model best)
                     (set_best_model_error (Some (CandidateModel.error best))
                        (set_candidate_models (ranked w) (self w)))));
     store := store w; calls := calls w |}.

Lemma retain_winner_run w :
  retain_winner w
  = match ranked w with
    | [] => (Raise (Exn IndexError "index out of bounds"),
             {| self := set_candidate_models [] (self w);
                store := store w; calls := calls w |})
    | best :: _ => (Ok tt, retained best w)
    end.
Proof.
  unfold retain_winner, retained, ranked. rewrite bind_run. cbn [get_self].
  rewrite bind_run. cbn [modify_self self store calls].
  rewrite bind_run. cbn [lift]. rewrite py_index_0.
  by destruct (sorted _ _).
Qed.

Lemma fit_candidates_frame d c ex w r w' :
  fit_candidates d c ex w = (r, w') →
  fit_frame (auto_arima_args (self w)) (exponential_smoothing_args (self w))
            (tbats_args (self w)) w w'.
Proof. intros H. eapply fit_frame_candidates; [|exact H]. by repeat split. Qed.

(** [fit] sets the flag as its last step and nowhere else. *)
Lemma fit_flag d c ex w r w' :
  fit d c ex w = (r, w') →
  match r with
  | Ok _ => is_fitted (self w') = true
  | Raise _ => is_fitted (self w') = is_fitted (self w)
  end.
Proof.
  unfold fit. intros H.
  apply bind_inv in H as [(e & H & ->)|([] & w1 & H1 & H2)].
  - by destruct (fit_candidates_frame _ _ _ _ _ _ H) as (_ & ? & _).
  - destruct (fit_candidates_frame _ _ _ _ _ _ H1) as (_ & Hf & _).
    rewrite retain_winner_run in H2. destruct (ranked w1); simplify_eq; done.
Qed.

Lemma never_fitted_flag w : never_fitted w → is_fitted (self w) = false.
Proof.
  induction 1 as [names metric season holdout verb aa es tb st w Hinit
                 |w d c ex e w' _ IH Hfit|w a b ex r w' _ IH Hp].
  - unfold __init__ in Hinit.
    destruct (arg_dict aa st) as [? st1], (arg_dict es st1) as [? st2],
             (arg_dict tb st2) as [? st3].
    destruct (check_models names); [done|].
    case_bool_decide; [|done]. by simplify_eq.
  - apply fit_flag in Hfit. by rewrite Hfit.
  - rewrite predict_unfitted in Hp by done. by simplify_eq.
Qed.

End fitted_flag.

(** ** The claims about the fitted flag *)

(** C2: on an instance on which no call of [fit] has returned, every call of
    [predict] fails with the state error "Model must be fitted ...", an
    [AttributeError], and with no other error, whatever its arguments are:
    the flag is looked at before the arguments, also before an argument
    that is no date at all, and the instance is left as it was. *)
Theorem predict_before_fit_is_state_error `{C : Collaborators} w a b ex :
  never_fitted w →
  predict a b ex w = (Raise must_be_fitted, w)
  ∧ exn_cls must_be_fitted = AttributeError.
Proof.
  intros H. split; [|done]. apply predict_unfitted. by apply never_fitted_flag.
Qed.

Lemma predict_before_fit_is_state_error_witness :
  never_fitted (Demo.unfitted ["exponential_smoothing"])
  ∧ predict DateOther (DateStr "tomorrow") NoExog (Demo.unfitted ["exponential_smoothing"])
    = (Raise must_be_fitted, Demo.unfitted ["exponential_smoothing"]).
Proof.
  assert (H : never_fitted (Demo.unfitted ["exponential_smoothing"])).
  { eapply (never_fitted_init ["exponential_smoothing"] "mse" NoSeason 4 false None None None
                              Demo.empty_store).
    unfold Demo.unfitted. apply world_of_ok. by_vm. }
  split; [exact H|].
  exact (proj1 (predict_before_fit_is_state_error _ DateOther (DateStr "tomorrow") NoExog H)).
Defined.

(** C10: [fit] sets [is_fitted] as its last step and only when it returns:
    a call that raises leaves the flag as it was.  So after a history in
    which every [fit] has raised, [predict] still fails with the state
    error, and this although a failed [fit] may already have stored the
    data and its split and appended the candidates fitted so far. *)
Theorem fit_sets_flag_last :
  (∀ (C : Collaborators) d c ex w r w',
     fit d c ex w = (r, w') →
     match r with
     | Ok _ => is_fitted (self w') = true
     | Raise _ =>
         is_fitted (self w') = is_fitted (self w)
         ∧ (never_fitted w → ∀ a b ex', predict a b ex' w' = (Raise must_be_fitted, w'))
     end)
  ∧ (∃ (C : Collaborators) d c ex w e w',
       never_fitted w ∧ fit d c ex w = (Raise e, w')
       ∧ data (self w) = None ∧ data (self w') = Some d
       ∧ training_data (self w') = Some (iloc_to d (- holdout_period (self w)))
       ∧ testing_data (self w') = Some (iloc_from d (- holdout_period (self w)))
       ∧ candidate_models (self w) = [] ∧ length (candidate_models (self w')) = 1%nat
       ∧ is_fitted (self w') = false).
Proof.
  split.
  - intros C d c ex w r w' H. pose proof (fit_flag _ _ _ _ _ _ H) as Hflag.
    destruct r as [[]|e]; [done|]. split; [done|].
    intros Hw a b ex'. apply predict_unfitted.
    apply never_fitted_flag. by eapply never_fitted_fit.
  - exists Demo.collaborators, Demo.sales, "sales", NoNames, Demo.half_fitted.
    exists (Exn TypeError "got multiple values for keyword argument"),
           (fit Demo.sales "sales" NoNames Demo.half_fitted).2.
    split; [|split; [apply run_eq; by_vm|]].
    + eapply (never_fitted_init ["exponential_smoothing"; "tbats"] "mse" NoSeason 4 false
                                None None (Some 1%positive) Demo.clashing_store).
      unfold Demo.half_fitted. apply world_of_ok. by_vm.
    + repeat split; by_vm.
Qed.

Lemma fit_sets_flag_last_witness :
  (fit Demo.sales "sales" NoNames Demo.half_fitted).1
  = Raise (Exn TypeError "got multiple values for keyword argument")
  ∧ is_fitted (self (fit Demo.sales "sales" NoNames Demo.half_fitted).2) = false.
Proof.
  split; [by_vm|].
  pose proof (proj1 fit_sets_flag_last Demo.collaborators Demo.sales "sales" NoNames
                    Demo.half_fitted
                    (Raise (Exn TypeError "got multiple values for keyword argument"))
                    (fit Demo.sales "sales" NoNames Demo.half_fitted).2) as H.
  cbv beta iota in H. refine (proj1 (H _)). apply run_eq. by_vm.
Defined.

(** ** The retained winner *)

Section winner.
Context `{C : Collaborators}.

Lemma fit_ok_inv d c ex w w' :
  fit d c ex w = (Ok tt, w') →
  ∃ w1 best rest,
    fit_candidates d c ex w = (Ok tt, w1)
    ∧ ranked w1 = best :: rest
    ∧ w' = retained best w1.
Proof.
  unfold fit. intros H.
  apply bind_inv in H as [(e & _ & ?)|([] & w1 & H1 & H2)]; [done|].
  rewrite retain_winner_run in H2. destruct (ranked w1) as [|best rest] eqn:E; [done|].
  exists w1, best, rest. by simplify_eq.
Qed.

End winner.

(** C1 (as amended): after [fit] has returned, the candidates are the
    candidates as the fitters produced them, in another order, and the
    first of them is retained with its error, its fitted model and its model
    type.  When no error is NaN the list is ascending, candidates with the
    same error stand in the order in which they were produced, the retained
    error is the minimum of all errors, and among the candidates with that
    error the one produced first is retained. *)
Theorem fit_retains_first_minimum `{C : Collaborators} d c ex w w' :
  fit d c ex w = (Ok tt, w') →
  ∃ w1 best rest,
    fit_candidates d c ex w = (Ok tt, w1)
    ∧ candidate_models (self w') = best :: rest
    ∧ Permutation (best :: rest) (candidate_models (self w1))
    ∧ best_model_error (self w') = Some (CandidateModel.error best)
    ∧ fit_model (self w') = CandidateModel.fit_model best
    ∧ fit_model_type (self w') = Some (CandidateModel.model_type best)
    ∧ (no_nan CandidateModel.error (candidate_models (self w1)) →
       StronglySorted (key_le CandidateModel.error) (best :: rest)
       ∧ Forall (λ c, float_lt (CandidateModel.error c) (CandidateModel.error best) = false)
                (candidate_models (self w1))
       ∧ (∃ pre post,
            candidate_models (self w1) = pre ++ best :: post
            ∧ Forall (λ c, float_lt (CandidateModel.error best) (CandidateModel.error c) = true)
                     pre)
       ∧ ∀ k, is_nan k = false →
              List.filter (ties CandidateModel.error k) (best :: rest)
              = List.filter (ties CandidateModel.error k) (candidate_models (self w1))).
Proof.
  intros H. destruct (fit_ok_inv _ _ _ _ _ H) as (w1 & best & rest & H1 & Hr & ->).
  exists w1, best, rest. unfold ranked in Hr.
  split; [done|]. split; [by rewrite <- Hr|].
  split; [rewrite <- Hr; apply sorted_perm|].
  split; [done|]. split; [done|]. split; [done|].
  intros Hnan. split; [rewrite <- Hr; by apply sorted_sorted|].
  destruct (sorted_head _ _ _ _ Hnan Hr) as [Hmin Hfirst].
  split; [exact Hmin|]. split; [exact Hfirst|].
  intros k Hk. rewrite <- Hr. by apply sorted_stable.
Qed.

Lemma fit_retains_first_minimum_witness :
  fit Demo.sales "sales" NoNames
      (Demo.unfitted ["auto_arima"; "exponential_smoothing"; "tbats"; "ensemble"])
  = (Ok tt, Demo.fitted ["auto_arima"; "exponential_smoothing"; "tbats"; "ensemble"])
  ∧ best_model_error
      (self (Demo.fitted ["auto_arima"; "exponential_smoothing"; "tbats"; "ensemble"]))
    = Some (Fin 0)
  ∧ ∃ (w1 : world) best rest,
      Permutation (best :: rest) (candidate_models (self w1))
      ∧ candidate_models
          (self (Demo.fitted ["auto_arima"; "exponential_smoothing"; "tbats"; "ensemble"]))
        = best :: rest
      ∧ best_model_error
          (self (Demo.fitted ["auto_arima"; "exponential_smoothing"; "tbats"; "ensemble"]))
        = Some (CandidateModel.error best).
Proof.
  assert (H : fit Demo.sales "sales" NoNames
      (Demo.unfitted ["auto_arima"; "exponential_smoothing"; "tbats"; "ensemble"])
  = (Ok tt, Demo.fitted ["auto_arima"; "exponential_smoothing"; "tbats"; "ensemble"]))
    by (unfold Demo.fitted; apply run_eq; by_vm).
  split; [exact H|]. split; [by_vm|].
  destruct (fit_retains_first_minimum _ _ _ _ _ H)
    as (w1 & best & rest & _ & H3 & H2 & H4 & _).
  exists w1, best, rest. split; [exact H2|]. split; [exact H3|exact H4].
Defined.

(** With a NaN among the errors the ranking is not by error: here
    auto_arima is retained with the error 7/2 although BATS, produced after
    the diverged exponential smoothing, has the error 0. *)
Lemma nan_error_hides_the_minimum :
  ¬ (∀ (C : Collaborators) d c ex (w w' : world),
       fit d c ex w = (Ok tt, w') →
       ∀ best, best_model_error (self w') = Some best →
         Forall (λ c, float_lt (CandidateModel.error c) best = false)
                (candidate_models (self w'))).
Proof.
  intros H.
  pose (w' := (fit (C := Demo.diverging) Demo.sales "sales" NoNames
                 (Demo.unfitted_diverging ["auto_arima"; "exponential_smoothing"; "tbats"])).2).
  assert (Hfit : fit (C := Demo.diverging) Demo.sales "sales" NoNames
                   (Demo.unfitted_diverging ["auto_arima"; "exponential_smoothing"; "tbats"])
                 = (Ok tt, w')) by (unfold w'; apply run_eq; by_vm).
  assert (Hbest : best_model_error (self w') = Some (Fin (7 # 2))) by by_vm.
  assert (E : CandidateModel.error <$> candidate_models (self w')
              = [Fin (7 # 2); NaN; Fin 0]) by by_vm.
  specialize (H Demo.diverging _ _ _ _ _ Hfit _ Hbest).
  clearbody w'. clear Hfit Hbest.
  destruct (candidate_models (self w')) as [|c1 [|c2 [|c3 [|]]]]; try discriminate E.
  cbn in E. injection E as _ _ E3.
  apply Forall_cons in H as [_ H]. apply Forall_cons in H as [_ H].
  apply Forall_cons in H as [H _].
  change (float_lt (CandidateModel.error (H := Demo.demo_handle) c3) (Fin (7 # 2)) = false) in H.
  rewrite E3 in H. discriminate H.
Qed.

(** ** The configuration *)

Section configuration.
Context `{C : Collaborators}.

Lemma retain_winner_kept w r w' :
  retain_winner w = (r, w') → config_kept (self w) (self w') ∧ store w' = store w.
Proof.
  rewrite retain_winner_run. destruct (ranked w); intros [= <- <-]; by repeat split.
Qed.

Lemma fit_kept d c ex w r w' :
  fit d c ex w = (r, w') →
  config_kept (self w) (self w')
  ∧ defaults_written (auto_arima_args (self w)) (exponential_smoothing_args (self w))
                     (tbats_args (self w)) (store w) (store w').
Proof.
  unfold fit. intros H.
  apply bind_inv in H as [(e & H & ->)|([] & w1 & H1 & H2)].
  - by destruct (fit_candidates_frame _ _ _ _ _ _ H) as (? & _ & ?).
  - destruct (fit_candidates_frame _ _ _ _ _ _ H1) as (Hc & _ & Hs).
    destruct (retain_winner_kept _ _ _ H2) as [Hc' Hs'].
    split; [by eapply config_kept_trans|]. by rewrite Hs'.
Qed.

Lemma predict_kept a b ex w r w' :
  predict a b ex w = (r, w') → config_kept (self w) (self w') ∧ store w' = store w.
Proof.
  intros H. destruct (predict_frame_predict a b ex w r w' I H) as (? & _ & ? & _). done.
Qed.

End configuration.

(** ** The retry of auto_arima *)

Section retry.
Context `{C : Collaborators}.

Definition arima_named : list string := ["y"; "supress_warning"; "seasonal"; "m"; "exogenous"].

Lemma column_of_pure d c w r w' : column_of d c w = (r, w') → w' = w.
Proof.
  unfold column_of. destruct d as [d|]; [|by intros [= _ <-]].
  rewrite bind_run. cbn. destruct c; by intros [= _ <-].
Qed.

Lemma call_auto_arima_run md m ex w :
  call_auto_arima md m ex w
  = match column_of md (series_column_name (self w)) w with
    | (Raise e, _) => (Raise e, w)
    | (Ok y, _) =>
        let args := dict_at (store w) (auto_arima_args (self w)) in
        if bool_decide (Exists (λ k, is_Some (args !! k)) arima_named)
        then (Raise (Exn TypeError "got multiple values for keyword argument"), w)
        else (auto_arima y (is_seasonal (self w)) m ex args,
              {| self := self w; store := store w; calls := calls w ++ [CallAutoArima args] |})
    end.
Proof.
  unfold call_auto_arima. rewrite bind_run. cbn [get_self]. rewrite bind_run.
  destruct (column_of md (series_column_name (self w)) w) as [[y|e] w'] eqn:E;
    pose proof (column_of_pure _ _ _ _ _ E) as ->; [|done].
  rewrite bind_run. cbn [read_dict]. rewrite bind_run. unfold kwargs.
  fold (dict_at (store w) (auto_arima_args (self w))). fold arima_named.
  case_bool_decide; [done|]. cbn. done.
Qed.

Definition ocsb_warning : list call :=
  [Warn "Forcing seasonal_test='ch' as 'ocsb' occasionally causes numpy errors"].

(** The world after the retry: the seasonal test is forced and both calls
    of the library are on the log. *)
Definition retried (w : world) : world :=
  let args := dict_at (store w) (auto_arima_args (self w)) in
  let args' := <["seasonal_test" := PStr "ch"]> args in
  {| self := self w;
     store := <[auto_arima_args (self w) := args']> (store w);
     calls := calls w ++ [CallAutoArima args]
              ++ (if bool_decide (args !! "seasonal_test" = Some (PStr "ocsb"))
                  then ocsb_warning else [])
              ++ [CallAutoArima args'] |}.

Lemma named_after_ch (args : pydict) :
  Exists (λ k, is_Some (<["seasonal_test" := PStr "ch"]> args !! k)) arima_named
  ↔ Exists (λ k, is_Some (args !! k)) arima_named.
Proof.
  unfold arima_named. rewrite !Exists_cons, !Exists_nil.
  rewrite !lookup_insert_ne by done. done.
Qed.

Lemma auto_arima_or_retry_value_error md m ex w msg w1 :
  call_auto_arima md m ex w = (Raise (Exn ValueError msg), w1) →
  ∃ y,
    column_of md (series_column_name (self w)) w = (Ok y, w)
    ∧ auto_arima y (is_seasonal (self w)) m ex (dict_at (store w) (auto_arima_args (self w)))
      = Raise (Exn ValueError msg)
    ∧ auto_arima_or_retry md m ex w
      = (auto_arima y (is_seasonal (self w)) m ex
           (<["seasonal_test" := PStr "ch"]> (dict_at (store w) (auto_arima_args (self w)))),
         retried w).
Proof.
  intros H. pose proof H as H0. rewrite call_auto_arima_run in H.
  destruct (column_of md (series_column_name (self w)) w) as [[y|e] w0] eqn:E;
    pose proof (column_of_pure _ _ _ _ _ E) as ->.
  2:{ injection H as H _. revert E H. unfold column_of.
      destruct md; [|by intros [= <-]]. rewrite bind_run. cbn.
      destruct (series_column_name (self w)); [|by intros [= <-]].
      unfold df_col. cbn. destruct (col_pos _ _); [done|]. by intros [= <-]. }
  cbv zeta in H. case_bool_decide as Hnamed; [done|].
  injection H as H <-. exists y. split; [done|]. split; [done|].
  unfold auto_arima_or_retry, try_except_ValueError. rewrite H0.
  unfold retry_with_ch. rewrite bind_run. cbn [get_self self].
  rewrite bind_run. cbn [read_dict self store].
  fold (dict_at (store w) (auto_arima_args (self w))).
  set (args := dict_at (store w) (auto_arima_args (self w))) in *.
  rewrite bind_run.
  assert (Hcall : ∀ w3, self w3 = self w →
            store w3 = <[auto_arima_args (self w) := <["seasonal_test" := PStr "ch"]> args]> (store w) →
            call_auto_arima md m ex w3
            = (auto_arima y (is_seasonal (self w)) m ex (<["seasonal_test" := PStr "ch"]> args),
               {| self := self w; store := store w3;
                  calls := calls w3 ++ [CallAutoArima (<["seasonal_test" := PStr "ch"]> args)] |})).
  { intros w3 Hs Hst. rewrite call_auto_arima_run, Hs.
    assert (E3 : column_of md (series_column_name (self w)) w3 = (Ok y, w3)).
    { revert E. unfold column_of. destruct md; [|done]. rewrite !bind_run. cbn.
      destruct (series_column_name (self w)); [|done]. cbn. by intros [= ->]. }
    rewrite E3. cbv zeta. rewrite Hst, dict_at_insert, decide_True by done.
    rewrite bool_decide_eq_false_2; [by rewrite <- Hs|].
    by rewrite named_after_ch. }
  unfold retried. fold args.
  case_bool_decide as Hocsb.
  - rewrite when_true. cbn [log]. rewrite bind_run. cbn [dict_set self store calls].
    fold (dict_at (store w) (auto_arima_args (self w))). fold args.
    rewrite Hcall by done. cbn [store calls]. unfold ocsb_warning.
    by rewrite <- !app_assoc.
  - rewrite when_false. rewrite bind_run. cbn [dict_set self store calls].
    fold (dict_at (store w) (auto_arima_args (self w))). fold args.
    rewrite Hcall by done. cbn [store calls].
    by rewrite <- !app_assoc.
Qed.

Lemma _fit_auto_arima_raise b w md ex te m e w2 :
  arima_inputs b w = (Ok (md, ex, te, m), w) →
  auto_arima_or_retry md m ex w = (Raise e, w2) →
  _fit_auto_arima b w = (Raise e, w2).
Proof.
  intros H1 H2. unfold _fit_auto_arima. rewrite (bind_ok _ _ _ _ _ H1).
  by rewrite (bind_raise _ _ _ _ _ H2).
Qed.

Lemma fit_auto_arima_raise d c ex w0 w e w2 :
  prepare_fit d c ex w0 = (Ok tt, w) →
  configured "auto_arima" (self w) = true →
  _fit_auto_arima true w = (Raise e, w2) →
  fit d c ex w0 = (Raise e, w2).
Proof.
  intros H1 Hc H2. unfold fit, fit_candidates.
  apply bind_raise. rewrite (bind_ok _ _ _ _ _ H1). rewrite bind_run. cbn [get_self].
  rewrite Hc, when_true. apply bind_raise. by apply bind_raise.
Qed.
End retry.

(** C8: when the first call of [auto_arima] raises a [ValueError], the
    fitter sets ["seasonal_test"] to ["ch"] and calls [auto_arima] once
    more, with the same series and the options so changed; the log holds
    these two calls and no third.  The outcome of the second call is the
    outcome of the [try] statement: an exception of the second call is
    raised as it is by [_fit_auto_arima] and by [fit], which stays
    unfitted. *)
Theorem auto_arima_retried_once_with_ch `{C : Collaborators} md m ex w msg w1 :
  call_auto_arima md m ex w = (Raise (Exn ValueError msg), w1) →
  ∃ y,
    let args := dict_at (store w) (auto_arima_args (self w)) in
    let args' := <["seasonal_test" := PStr "ch"]> args in
    let second := auto_arima y (is_seasonal (self w)) m ex args' in
    column_of md (series_column_name (self w)) w = (Ok y, w)
    ∧ auto_arima y (is_seasonal (self w)) m ex args = Raise (Exn ValueError msg)
    ∧ auto_arima_or_retry md m ex w = (second, retried w)
    ∧ dict_at (store (retried w)) (auto_arima_args (self w)) = args'
    ∧ calls (retried w)
      = calls w ++ [CallAutoArima args]
        ++ (if bool_decide (args !! "seasonal_test" = Some (PStr "ocsb"))
            then ocsb_warning else [])
        ++ [CallAutoArima args']
    ∧ ∀ e, second = Raise e →
        (∀ b te, arima_inputs b w = (Ok (md, ex, te, m), w) →
                 _fit_auto_arima b w = (Raise e, retried w))
        ∧ (∀ d c names w0 te,
             prepare_fit d c names w0 = (Ok tt, w) →
             configured "auto_arima" (self w) = true →
             arima_inputs true w = (Ok (md, ex, te, m), w) →
             fit d c names w0 = (Raise e, retried w)
             ∧ is_fitted (self (retried w)) = is_fitted (self w0)).
Proof.
  intros H. destruct (auto_arima_or_retry_value_error _ _ _ _ _ _ H) as (y & Hy & H1 & H2).
  exists y. cbv zeta. split; [done|]. split; [done|]. split; [done|].
  split; [unfold retried; cbn [store]; by rewrite dict_at_insert, decide_True|].
  split; [done|].
  intros e He. rewrite He in H2. split.
  - intros b te Hin. by eapply _fit_auto_arima_raise.
  - intros d c names w0 te Hp Hc Hin.
    assert (Hfit : fit d c names w0 = (Raise e, retried w)).
    { eapply fit_auto_arima_raise; [done|done|]. by eapply _fit_auto_arima_raise. }
    split; [done|]. by apply fit_flag in Hfit.
Qed.

Lemma auto_arima_retried_once_with_ch_witness :
  call_auto_arima (Some Demo.sales) 1 None Demo.ocsb_prepared
  = (Raise (Exn ValueError "shapes not aligned"),
     (call_auto_arima (Some Demo.sales) 1 None Demo.ocsb_prepared).2)
  ∧ ∃ y, auto_arima_or_retry (Some Demo.sales) 1 None Demo.ocsb_prepared
         = (auto_arima y false 1 None
              (<["seasonal_test" := PStr "ch"]>
                 (dict_at (store Demo.ocsb_prepared) (auto_arima_args (self Demo.ocsb_prepared)))),
            retried Demo.ocsb_prepared).
Proof.
  assert (H : call_auto_arima (Some Demo.sales) 1 None Demo.ocsb_prepared
              = (Raise (Exn ValueError "shapes not aligned"),
                 (call_auto_arima (Some Demo.sales) 1 None Demo.ocsb_prepared).2))
    by (apply run_eq; by_vm).
  split; [exact H|].
  destruct (auto_arima_retried_once_with_ch _ _ _ _ _ _ H) as (y & _ & _ & H2 & _).
  exists y. exact H2.
Defined.

(** ** The ensemble without candidates *)

Section ensemble_alone.
Context `{C : Collaborators}.

Lemma _fit_ensemble_empty w :
  candidate_models (self w) = [] →
  _fit_ensemble w
  = (Raise (Exn TypeError "reduce() of empty iterable with no initial value"), w).
Proof.
  intros H. unfold _fit_ensemble. rewrite bind_run. cbn [get_self]. by rewrite H.
Qed.

(** The instance after [prepare_fit]. *)
Definition prepared (d : DataFrame) (c : string) (ex : names_arg) (s : AutoTS) : AutoTS :=
  let s1 := set_input d (iloc_to d (- holdout_period s)) (iloc_from d (- holdout_period s)) c s in
  match ex with
  | NoNames => s1
  | OneName x => set_exogenous [x] s1
  | Names xs => set_exogenous xs s1
  end.

Lemma prepare_fit_run d c ex w :
  prepare_fit d c ex w
  = match check_datetime_index d with
    | Some e => (Raise e, w)
    | None => (Ok tt, {| self := prepared d c ex (self w); store := store w; calls := calls w |})
    end.
Proof.
  unfold prepare_fit, prepared. rewrite bind_run. cbn [lift].
  destruct (check_datetime_index d); [done|].
  rewrite bind_run. unfold _set_input_data. rewrite bind_run. cbn [get_self modify_self].
  destruct ex; cbn; by destruct w.
Qed.

Lemma prepared_candidates d c ex s : candidate_models (prepared d c ex s) = candidate_models s.
Proof. by destruct ex. Qed.

Lemma prepared_model_names d c ex s : model_names (prepared d c ex s) = model_names s.
Proof. by destruct ex. Qed.

Lemma configured_prepared name d c ex s :
  configured name (prepared d c ex s) = configured name s.
Proof. unfold configured. by rewrite prepared_model_names. Qed.

Lemma fit_ensemble_alone d c ex w :
  candidate_models (self w) = [] →
  configured "ensemble" (self w) = true →
  configured "auto_arima" (self w) = false →
  configured "exponential_smoothing" (self w) = false →
  configured "tbats" (self w) = false →
  ∃ e w', fit d c ex w = (Raise e, w').
Proof.
  intros Hcs Hen Haa Hes Htb.
  pose proof (prepare_fit_run d c ex w) as Hp.
  destruct (check_datetime_index d) as [e|].
  { exists e, w. unfold fit, fit_candidates. by do 2 apply bind_raise. }
  eexists _, _. unfold fit, fit_candidates. apply bind_raise.
  rewrite (bind_ok _ _ _ _ _ Hp). rewrite bind_run. cbn [get_self self].
  rewrite !configured_prepared, Haa, Hes, Htb, Hen.
  rewrite !when_true. rewrite bind_run, when_false. rewrite bind_run, when_false.
  rewrite bind_run, when_false.
  rewrite bind_run. cbn [get_self self]. unfold is_None. rewrite bind_run, when_false.
  apply bind_raise. apply _fit_ensemble_empty. cbn [self]. by rewrite prepared_candidates.
Qed.

End ensemble_alone.

(** C5 (as amended): when the ensemble is configured and no candidate has
    been produced before its step, [fit] fails: it raises and the instance
    is not marked fitted.  Fitting the ensemble fails whenever there is no
    prior candidate. *)
Theorem ensemble_without_candidates_fails `{C : Collaborators} (w : world) :
  candidate_models (self w) = [] →
  (∃ e, _fit_ensemble w = (Raise e, w))
  ∧ ∀ d c ex,
      configured "ensemble" (self w) = true →
      configured "auto_arima" (self w) = false →
      configured "exponential_smoothing" (self w) = false →
      configured "tbats" (self w) = false →
      ∃ e w', fit d c ex w = (Raise e, w') ∧ is_fitted (self w') = is_fitted (self w).
Proof.
  intros Hcs. split; [eexists; by apply _fit_ensemble_empty|].
  intros d c ex Hen Haa Hes Htb.
  destruct (fit_ensemble_alone d c ex w Hcs Hen Haa Hes Htb) as (e & w' & H).
  exists e, w'. split; [done|]. by apply fit_flag in H.
Qed.

Lemma ensemble_without_candidates_fails_witness :
  candidate_models (self (Demo.unfitted ["ensemble"])) = []
  ∧ ∃ e, _fit_ensemble (Demo.unfitted ["ensemble"]) = (Raise e, Demo.unfitted ["ensemble"]).
Proof.
  assert (H : candidate_models (self (Demo.unfitted ["ensemble"])) = []) by by_vm.
  split; [exact H|].
  exact (proj1 (ensemble_without_candidates_fails (Demo.unfitted ["ensemble"]) H)).
Defined.

(** One prior candidate is enough for the ensemble: after exponential
    smoothing alone has been fitted, [_fit_ensemble] returns a candidate. *)
Lemma ensemble_fits_on_one_candidate :
  ¬ (∀ (C : Collaborators) (w : world) r w',
       (length (candidate_models (self w)) < 2)%nat →
       _fit_ensemble w = (r, w') → is_ok r = false).
Proof.
  intros H.
  pose (w := Demo.fitted ["exponential_smoothing"]).
  assert (Hlen : length (candidate_models (self w)) = 1%nat) by by_vm.
  assert (Hok : is_ok (_fit_ensemble w).1 = true) by by_vm.
  specialize (H Demo.collaborators w (_fit_ensemble w).1 (_fit_ensemble w).2).
  rewrite Hlen in H. specialize (H ltac:(lia) ltac:(by destruct (_fit_ensemble w))).
  rewrite H in Hok. discriminate Hok.
Qed.

(** ** What is written into the option dictionaries *)

Section option_dictionaries.
Context `{C : Collaborators}.

(** Between the two worlds the configuration is the same, and no key
    outside [ks] has changed in any dictionary. *)
Definition writes (ks : list string) (w w' : world) : Prop :=
  config_kept (self w) (self w')
  ∧ ∀ l k, k ∉ ks → dict_at (store w') l !! k = dict_at (store w) l !! k.

Lemma writes_refl ks w : writes ks w w.
Proof. split; [apply config_kept_refl|done]. Qed.

Lemma writes_trans ks w1 w2 w3 : writes ks w1 w2 → writes ks w2 w3 → writes ks w1 w3.
Proof.
  intros [H1 H1'] [H2 H2']. split; [by eapply config_kept_trans|].
  intros l k Hk. by rewrite H2', H1'.
Qed.

Lemma writes_anything ks w w' : anything (self w) → writes ks w w' → anything (self w').
Proof. done. Qed.

(** Whether a key is one of a list that is written out. *)
Ltac key_solver :=
  first [ assumption
        | by (rewrite ?not_elem_of_cons; repeat split; try done; apply not_elem_of_nil)
        | by (rewrite !elem_of_cons; repeat first [by left | right]) ].

(** [setdefault] as a function of the world. *)
Lemma setdefault_run l k v w :
  setdefault l k v w
  = (Ok tt,
     {| self := self w;
        store := if bool_decide (dict_at (store w) l !! k = None)
                 then <[l := <[k := v]> (dict_at (store w) l)]> (store w)
                 else store w;
        calls := calls w |}).
Proof.
  unfold setdefault. rewrite bind_run. cbn [read_dict]. fold (dict_at (store w) l).
  case_bool_decide; [done|]. rewrite when_false. by destruct w.
Qed.

(** After it the key is there: with the value it had, or with the
    default. *)
Lemma setdefault_lookup l k v w l' k' :
  dict_at (store (setdefault l k v w).2) l' !! k'
  = if decide (l = l' ∧ k = k')
    then Some (default v (dict_at (store w) l !! k))
    else dict_at (store w) l' !! k'.
Proof.
  rewrite setdefault_run. cbn [snd store]. case_bool_decide as Hk.
  - rewrite dict_set_lookup. case_decide; [by rewrite Hk|done].
  - case_decide as Hd; [|done]. destruct Hd as [<- <-].
    by destruct (dict_at (store w) l !! k).
Qed.

Section keys.
Variable ks : list string.

Ltac go := respects_go (writes_refl ks) (writes_trans ks) (writes_anything ks).

Lemma writes_log c : respects (writes ks) anything (log c).
Proof. apply respects_log. intros w. apply (writes_refl ks w). Qed.

Lemma writes_self f :
  (∀ s, config_kept s (f s)) → respects (writes ks) anything (modify_self f).
Proof. intros Hf. apply respects_modify_self. intros w _. by split. Qed.

Lemma writes_append c : respects (writes ks) anything (append_candidate c).
Proof. apply writes_self. intros s. by split. Qed.

Lemma writes_dict_set l k v : k ∈ ks → respects (writes ks) anything (dict_set l k v).
Proof.
  intros Hk w r w' _ [= _ <-]. split; [apply config_kept_refl|].
  intros l' k' Hk'. cbn [store]. fold (dict_at (store w) l). rewrite dict_set_lookup.
  rewrite decide_False; [done|]. intros [_ <-]. done.
Qed.

Lemma writes_setdefault l k v : k ∈ ks → respects (writes ks) anything (setdefault l k v).
Proof.
  intros Hk w r w' _ H. pose proof (setdefault_lookup l k v w) as Hl. rewrite H in Hl.
  rewrite setdefault_run in H. injection H as _ <-.
  split; [apply config_kept_refl|]. intros l' k' Hk'. cbn [snd] in Hl. rewrite Hl.
  rewrite decide_False; [done|]. intros [_ <-]. done.
Qed.

Lemma writes_error_metric d p a : respects (writes ks) anything (_error_metric d p a).
Proof. unfold _error_metric. go. Qed.

Lemma writes_column_of d c : respects (writes ks) anything (column_of d c).
Proof. unfold column_of. go. Qed.

Lemma writes_kwargs named args : respects (writes ks) anything (kwargs named args).
Proof. unfold kwargs. go. Qed.

Lemma writes_arima_inputs b : respects (writes ks) anything (arima_inputs b).
Proof. unfold arima_inputs, df_cols. go. Qed.

Lemma writes_set_input_data d c : respects (writes ks) anything (_set_input_data d c).
Proof. unfold _set_input_data. go. apply writes_self. intros ?. by split. Qed.

Lemma writes_prepare d c ex : respects (writes ks) anything (prepare_fit d c ex).
Proof.
  unfold prepare_fit. go; try apply writes_set_input_data;
    apply writes_self; intros ?; by split.
Qed.

Lemma writes_ensemble : respects (writes ks) anything _fit_ensemble.
Proof.
  unfold _fit_ensemble. go; try apply writes_error_metric;
    apply writes_self; intros ?; by split.
Qed.

End keys.

Local Hint Resolve writes_log writes_append writes_error_metric writes_column_of
  writes_kwargs writes_arima_inputs writes_ensemble : frames.
Local Hint Extern 1 (respects _ _ (setdefault _ _ _)) =>
  apply writes_setdefault; key_solver : frames.
Local Hint Extern 1 (respects _ _ (dict_set _ _ _)) =>
  apply writes_dict_set; key_solver : frames.

Ltac writes_go ks := respects_go (writes_refl ks) (writes_trans ks) (writes_anything ks).

(** What a computation has written, read off the equation of its run. *)
Tactic Notation "written" constr(ks) hyp(H) "as" ident(Hw) :=
  match type of H with
  | ?m ?w0 = (?r, ?w1) =>
      let Hm := fresh "Hm" in
      assert (Hm : respects (writes ks) anything m) by (writes_go ks);
      pose proof (Hm w0 r w1 I H) as Hw;
      clear Hm
  end.

Lemma writes_auto_arima ks b :
  "seasonal_test" ∈ ks → respects (writes ks) anything (_fit_auto_arima b).
Proof.
  intros Hk. unfold _fit_auto_arima, auto_arima_or_retry, retry_with_ch, call_auto_arima.
  writes_go ks.
Qed.

Lemma writes_exponential_smoothing ks b :
  "trend" ∈ ks → "seasonal" ∈ ks →
  respects (writes ks) anything (_fit_exponential_smoothing b).
Proof. intros H1 H2. unfold _fit_exponential_smoothing. writes_go ks. Qed.

Lemma writes_tbats ks b :
  "n_jobs" ∈ ks → "use_arma_errors" ∈ ks → respects (writes ks) anything (_fit_tbats b).
Proof. intros H1 H2. unfold _fit_tbats. writes_go ks. Qed.

(** *** The defaults of exponential smoothing and of BATS *)

Lemma fit_exponential_smoothing_defaults b w c w' :
  _fit_exponential_smoothing b w = (Ok c, w') →
  dict_at (store w') (exponential_smoothing_args (self w)) !! "trend"
  = Some (default (PStr "add")
                  (dict_at (store w) (exponential_smoothing_args (self w)) !! "trend"))
  ∧ dict_at (store w') (exponential_smoothing_args (self w)) !! "seasonal"
    = Some (default (match seasonal_period (self w) with
                     | Some _ => PStr "add"
                     | None => PNone
                     end)
                    (dict_at (store w) (exponential_smoothing_args (self w)) !! "seasonal")).
Proof.
  unfold _fit_exponential_smoothing. rewrite bind_run. cbn [get_self]. cbv zeta.
  set (es := exponential_smoothing_args (self w)).
  set (v := match seasonal_period (self w) with Some _ => PStr "add" | None => PNone end).
  intros H.
  apply bind_inv in H as [(e & _ & ?)|([] & w1 & H1 & H)]; [done|].
  apply bind_inv in H as [(e & _ & ?)|([] & w2 & H2 & H)]; [done|].
  written (@nil string) H as Hw. destruct Hw as [_ Hrest].
  pose proof (setdefault_lookup es "trend" (PStr "add") w) as L1. rewrite H1 in L1.
  pose proof (setdefault_lookup es "seasonal" v w1) as L2. rewrite H2 in L2.
  cbn [snd] in L1, L2.
  rewrite !Hrest by key_solver. rewrite !L2, !L1.
  split; repeat case_decide;
    repeat match goal with
           | H : _ ∧ _ |- _ => destruct H as [_ H]; try discriminate H
           | H : ¬ (_ ∧ _) |- _ => destruct H; by split
           end; done.
Qed.

Lemma fit_tbats_defaults b w c w' :
  _fit_tbats b w = (Ok c, w') →
  dict_at (store w') (tbats_args (self w)) !! "n_jobs"
  = Some (default (PInt 1) (dict_at (store w) (tbats_args (self w)) !! "n_jobs"))
  ∧ dict_at (store w') (tbats_args (self w)) !! "use_arma_errors"
    = Some (default (PBool false)
                    (dict_at (store w) (tbats_args (self w)) !! "use_arma_errors")).
Proof.
  unfold _fit_tbats. rewrite bind_run. cbn [get_self]. cbv zeta.
  set (tb := tbats_args (self w)).
  intros H.
  apply bind_inv in H as [(e & _ & ?)|([] & w1 & H1 & H)]; [done|].
  apply bind_inv in H as [(e & _ & ?)|([] & w2 & H2 & H)]; [done|].
  written (@nil string) H as Hw. destruct Hw as [_ Hrest].
  pose proof (setdefault_lookup tb "n_jobs" (PInt 1) w) as L1. rewrite H1 in L1.
  pose proof (setdefault_lookup tb "use_arma_errors" (PBool false) w1) as L2.
  rewrite H2 in L2. cbn [snd] in L1, L2.
  rewrite !Hrest by key_solver. rewrite !L2, !L1.
  split; repeat case_decide;
    repeat match goal with
           | H : _ ∧ _ |- _ => destruct H as [_ H]; try discriminate H
           | H : ¬ (_ ∧ _) |- _ => destruct H; by split
           end; done.
Qed.

(** *** The seasonal test *)

(** The world is as it was. *)
Definition unchanged (w w' : world) : Prop := w' = w.

Lemma unchanged_refl w : unchanged w w.
Proof. done. Qed.

Lemma unchanged_trans w1 w2 w3 : unchanged w1 w2 → unchanged w2 w3 → unchanged w1 w3.
Proof. unfold unchanged. congruence. Qed.

Lemma unchanged_anything w w' : anything (self w) → unchanged w w' → anything (self w').
Proof. done. Qed.

Lemma arima_inputs_pure b w r w' : arima_inputs b w = (r, w') → w' = w.
Proof.
  assert (H : respects unchanged anything (arima_inputs b)).
  { unfold arima_inputs, df_cols.
    respects_go unchanged_refl unchanged_trans unchanged_anything. }
  intros Hrun. by eapply H.
Qed.

(** The [try] statement leaves the dictionaries alone unless the first
    attempt has raised a [ValueError]. *)
Lemma auto_arima_or_retry_store md m ex w r w' :
  auto_arima_or_retry md m ex w = (r, w') →
  (self w' = self w ∧ store w' = store w)
  ∨ ∃ y msg,
      column_of md (series_column_name (self w)) w = (Ok y, w)
      ∧ auto_arima y (is_seasonal (self w)) m ex (dict_at (store w) (auto_arima_args (self w)))
        = Raise (Exn ValueError msg)
      ∧ w' = retried w.
Proof.
  unfold auto_arima_or_retry, try_except_ValueError.
  destruct (call_auto_arima md m ex w) as [[h|[cls msg]] w1] eqn:E.
  - intros [= _ <-]. left. rewrite call_auto_arima_run in E.
    destruct (column_of md _ w) as [[y|e] w0]; [|by simplify_eq].
    cbv zeta in E. case_bool_decide; by simplify_eq.
  - assert (Hother : cls ≠ ValueError → self w1 = self w ∧ store w1 = store w).
    { intros Hcls. rewrite call_auto_arima_run in E.
      destruct (column_of md _ w) as [[y|e] w0]; [|by simplify_eq].
      cbv zeta in E. case_bool_decide; by simplify_eq. }
    destruct cls; try (intros [= _ <-]; left; by apply Hother).
    intros H. right.
    destruct (auto_arima_or_retry_value_error _ _ _ _ _ _ E) as (y & Hy & H1 & H2).
    exists y, msg. split; [done|]. split; [done|].
    unfold auto_arima_or_retry, try_except_ValueError in H2. rewrite E in H2.
    rewrite H2 in H. by injection H.
Qed.

(** The data that [arima_inputs] hands on. *)
Lemma arima_inputs_data b w md ex te m w' :
  arima_inputs b w = (Ok (md, ex, te, m), w') →
  md = if b then data (self w) else training_data (self w).
Proof.
  unfold arima_inputs. rewrite bind_run. cbn [get_self]. intros H.
  apply bind_inv in H as [(e & _ & ?)|([tr te'] & w1 & _ & H)]; [done|].
  apply bind_inv in H as [(e & _ & ?)|(m' & w2 & _ & H)]; [done|].
  by injection H as <-.
Qed.

(** A fit of auto_arima changes the seasonal test of a dictionary only by
    the retry: the dictionary is that of the auto_arima options, the first
    attempt, on the series to be fitted, has raised a [ValueError], and the
    test is now ["ch"]. *)
Lemma fit_auto_arima_seasonal_test b w r w' l :
  _fit_auto_arima b w = (r, w') →
  dict_at (store w') l !! "seasonal_test" ≠ dict_at (store w) l !! "seasonal_test" →
  l = auto_arima_args (self w)
  ∧ dict_at (store w') l !! "seasonal_test" = Some (PStr "ch")
  ∧ ∃ y m exog msg,
      column_of (if b then data (self w) else training_data (self w))
                (series_column_name (self w)) w = (Ok y, w)
      ∧ auto_arima y (is_seasonal (self w)) m exog
                   (dict_at (store w) (auto_arima_args (self w)))
        = Raise (Exn ValueError msg).
Proof.
  unfold _fit_auto_arima. intros H Hne.
  apply bind_inv in H as [(e & H & ->)|([[[md ex] te] m] & w1 & H1 & H)].
  { written (@nil string) H as Hw. destruct Hw as [_ Hsame].
    destruct Hne. apply Hsame. key_solver. }
  apply arima_inputs_pure in H1 as Hw1. subst w1.
  apply arima_inputs_data in H1 as ->.
  set (md := if b then data (self w) else training_data (self w)) in *.
  assert (Hrest : ∀ w2, (∃ r2, auto_arima_or_retry md m ex w = (r2, w2)) →
            (∀ l k, dict_at (store w') l !! k = dict_at (store w2) l !! k)).
  { intros w2 [r2 H2]. rewrite bind_run, H2 in H. destruct r2 as [h|e].
    - written (@nil string) H as Hw. destruct Hw as [_ Hsame].
      intros l' k'. apply Hsame. key_solver.
    - by injection H as _ <-. }
  destruct (auto_arima_or_retry md m ex w) as [r2 w2] eqn:E2.
  specialize (Hrest w2 (ex_intro _ r2 eq_refl)).
  destruct (auto_arima_or_retry_store _ _ _ _ _ _ E2) as [[_ Hst]|(y & msg & Hy & Hfirst & ->)].
  { destruct Hne. rewrite Hrest. unfold dict_at. by rewrite Hst. }
  rewrite Hrest in Hne |- *. unfold retried in Hne |- *. cbn [store] in Hne |- *.
  rewrite dict_set_lookup in Hne |- *.
  case_decide as Hd; [|done]. destruct Hd as [<- _].
  split; [done|]. split; [done|]. by exists y, m, ex, msg.
Qed.

(** *** The steps of [fit_candidates] *)

(** The step of one of the three fitted models. *)
Definition fit_step (name : string) (fitter : M (CandidateModel handle)) (s : AutoTS) : M unit :=
  when (configured name s)
       (c ← fitter;
        append_candidate c;;
        when (verbose s) (log (Echo name (CandidateModel.error c)))).

Definition ensemble_step (s : AutoTS) : M unit :=
  when (configured "ensemble" s)
       (s' ← get_self;
        when (is_None (candidate_models s')) (raise ValueError "No candidate models to ensemble");;
        c ← _fit_ensemble;
        append_candidate c;;
        when (verbose s)
             (e ← lift (candidate_getitem c 0);
              log (Echo "ensemble" e))).

Lemma fit_candidates_steps d c ex w :
  check_datetime_index d = None →
  fit_candidates d c ex w
  = (fit_step "auto_arima" (_fit_auto_arima true) (prepared d c ex (self w));;
     fit_step "exponential_smoothing" (_fit_exponential_smoothing true)
              (prepared d c ex (self w));;
     fit_step "tbats" (_fit_tbats true) (prepared d c ex (self w));;
     ensemble_step (prepared d c ex (self w)))
      {| self := prepared d c ex (self w); store := store w; calls := calls w |}.
Proof.
  intros Hcheck. unfold fit_candidates. rewrite bind_run, prepare_fit_run, Hcheck.
  rewrite bind_run. done.
Qed.

Lemma writes_fit_step ks name fitter s :
  respects (writes ks) anything fitter → respects (writes ks) anything (fit_step name fitter s).
Proof. intros Hf. unfold fit_step. writes_go ks. Qed.

Lemma writes_ensemble_step ks s : respects (writes ks) anything (ensemble_step s).
Proof. unfold ensemble_step. writes_go ks. Qed.

(** A step that has returned has run its fitter, if the model is
    configured. *)
Lemma fit_step_ok name fitter s w w' :
  fit_step name fitter s w = (Ok tt, w') →
  configured name s = true →
  ∃ c w1, fitter w = (Ok c, w1) ∧ store w' = store w1.
Proof.
  unfold fit_step. intros H Hc. rewrite Hc, when_true in H.
  apply bind_inv in H as [(e & _ & ?)|(c & w1 & H1 & H)]; [done|].
  exists c, w1. split; [done|].
  rewrite bind_run in H. cbn [append_candidate modify_self] in H.
  destruct (verbose s); [|by injection H as <-]. by injection H as <-.
Qed.

(** A step changes the seasonal test only through its fitter. *)
Lemma fit_step_seasonal_test name fitter s w r w' l :
  fit_step name fitter s w = (r, w') →
  dict_at (store w') l !! "seasonal_test" ≠ dict_at (store w) l !! "seasonal_test" →
  configured name s = true
  ∧ ∃ r1 w1, fitter w = (r1, w1)
             ∧ dict_at (store w1) l !! "seasonal_test" = dict_at (store w') l !! "seasonal_test".
Proof.
  unfold fit_step. intros H Hne. destruct (configured name s).
  2:{ rewrite when_false in H. injection H as _ <-. done. }
  split; [done|]. rewrite when_true in H.
  apply bind_inv in H as [(e & H & ->)|(c & w1 & H1 & H)]; [by eauto|].
  exists (Ok c), w1. split; [done|].
  rewrite bind_run in H. cbn [append_candidate modify_self] in H.
  destruct (verbose s); [|by injection H as _ <-]. by injection H as _ <-.
Qed.

Lemma prepared_config d c ex s : config_kept s (prepared d c ex s).
Proof. by destruct ex. Qed.

(** A call of [fit_candidates] that has returned has written the defaults
    of the configured models: a key that was missing holds the default, a
    key that was there holds what it held. *)
Lemma fit_candidates_defaults d c ex w w1 :
  fit_candidates d c ex w = (Ok tt, w1) →
  (configured "exponential_smoothing" (self w) = true →
   dict_at (store w1) (exponential_smoothing_args (self w)) !! "trend"
   = Some (default (PStr "add")
                   (dict_at (store w) (exponential_smoothing_args (self w)) !! "trend"))
   ∧ dict_at (store w1) (exponential_smoothing_args (self w)) !! "seasonal"
     = Some (default (match seasonal_period (self w) with
                      | Some _ => PStr "add"
                      | None => PNone
                      end)
                     (dict_at (store w) (exponential_smoothing_args (self w)) !! "seasonal")))
  ∧ (configured "tbats" (self w) = true →
     dict_at (store w1) (tbats_args (self w)) !! "n_jobs"
     = Some (default (PInt 1) (dict_at (store w) (tbats_args (self w)) !! "n_jobs"))
     ∧ dict_at (store w1) (tbats_args (self w)) !! "use_arma_errors"
       = Some (default (PBool false)
                       (dict_at (store w) (tbats_args (self w)) !! "use_arma_errors"))).
Proof.
  intros H. pose proof (prepare_fit_run d c ex w) as Hp.
  destruct (check_datetime_index d) as [e|] eqn:Hcheck.
  { unfold fit_candidates in H. by rewrite (bind_raise _ _ _ _ _ Hp) in H. }
  clear Hp. rewrite fit_candidates_steps in H by done.
  set (s := prepared d c ex (self w)) in *.
  set (w0 := {| self := s; store := store w; calls := calls w |}) in *.
  pose proof (prepared_config d c ex (self w)) as Hs. fold s in Hs.
  apply bind_inv in H as [(e & _ & ?)|([] & wa & HA & H)]; [done|].
  apply bind_inv in H as [(e & _ & ?)|([] & wb & HE & H)]; [done|].
  apply bind_inv in H as [(e & _ & ?)|([] & wc & HT & HN)]; [done|].
  destruct (writes_fit_step ["seasonal_test"] _ _ s
              (writes_auto_arima ["seasonal_test"] true ltac:(key_solver)) w0 _ _ I HA)
    as [Hca Hwa].
  destruct (writes_fit_step ["trend"; "seasonal"] _ _ s
              (writes_exponential_smoothing ["trend"; "seasonal"] true
                 ltac:(key_solver) ltac:(key_solver)) wa _ _ I HE)
    as [Hcb Hwb].
  destruct (writes_fit_step ["n_jobs"; "use_arma_errors"] _ _ s
              (writes_tbats ["n_jobs"; "use_arma_errors"] true
                 ltac:(key_solver) ltac:(key_solver)) wb _ _ I HT)
    as [Hcc Hwc].
  destruct (writes_ensemble_step [] s wc _ _ I HN) as [_ Hwn].
  change (store w) with (store w0).
  rewrite <- !(configured_prepared _ d c ex (self w)). fold s.
  rewrite <- (kept_exponential_smoothing_args _ _ Hs), <- (kept_tbats_args _ _ Hs),
    <- (kept_seasonal_period _ _ Hs).
  change s with (self w0). split.
  - intros Hes. destruct (fit_step_ok _ _ _ _ _ HE Hes) as (ce & wx & Hfit & Hst).
    destruct (fit_exponential_smoothing_defaults _ _ _ _ Hfit) as [H1 H2].
    rewrite (kept_exponential_smoothing_args _ _ Hca) in H1, H2.
    rewrite (kept_seasonal_period _ _ Hca) in H2.
    rewrite !Hwn, !Hwc by key_solver. rewrite Hst, H1, H2.
    by rewrite !Hwa by key_solver.
  - intros Htb. destruct (fit_step_ok _ _ _ _ _ HT Htb) as (ct & wx & Hfit & Hst).
    destruct (fit_tbats_defaults _ _ _ _ Hfit) as [H1 H2].
    rewrite (kept_tbats_args _ _ Hcb), (kept_tbats_args _ _ Hca) in H1, H2.
    rewrite !Hwn by key_solver. rewrite Hst, H1, H2.
    by rewrite !Hwb, !Hwa by key_solver.
Qed.

(** [fit_candidates] changes the seasonal test of a dictionary only by the
    retry of auto_arima. *)
Lemma fit_candidates_seasonal_test d c ex w r w' l :
  fit_candidates d c ex w = (r, w') →
  dict_at (store w') l !! "seasonal_test" ≠ dict_at (store w) l !! "seasonal_test" →
  configured "auto_arima" (self w) = true
  ∧ l = auto_arima_args (self w)
  ∧ dict_at (store w') l !! "seasonal_test" = Some (PStr "ch")
  ∧ ∃ y m exog msg,
      df_col d c = Ok y
      ∧ auto_arima y (is_seasonal (self w)) m exog
                   (dict_at (store w) (auto_arima_args (self w)))
        = Raise (Exn ValueError msg).
Proof.
  intros H Hne. pose proof (prepare_fit_run d c ex w) as Hp.
  destruct (check_datetime_index d) as [e|] eqn:Hcheck.
  { unfold fit_candidates in H. rewrite (bind_raise _ _ _ _ _ Hp) in H.
    injection H as _ <-. done. }
  clear Hp. rewrite fit_candidates_steps in H by done.
  set (s := prepared d c ex (self w)) in *.
  set (w0 := {| self := s; store := store w; calls := calls w |}) in *.
  pose proof (prepared_config d c ex (self w)) as Hs. fold s in Hs.
  assert (Hstep : ∃ ra wa, fit_step "auto_arima" (_fit_auto_arima true) s w0 = (ra, wa)
                           ∧ dict_at (store w') l !! "seasonal_test"
                             = dict_at (store wa) l !! "seasonal_test").
  { apply bind_inv in H as [(e & H & ->)|([] & wa & HA & H)]; [by eauto|].
    exists (Ok tt), wa. split; [done|].
    assert (Hrest : respects (writes ["trend"; "seasonal"; "n_jobs"; "use_arma_errors"]) anything
              (fit_step "exponential_smoothing" (_fit_exponential_smoothing true) s;;
               fit_step "tbats" (_fit_tbats true) s;;
               ensemble_step s)).
    { apply (respects_bind _ _ (writes_trans _) (writes_anything _)); [|intros []].
      { apply writes_fit_step, writes_exponential_smoothing; key_solver. }
      apply (respects_bind _ _ (writes_trans _) (writes_anything _)); [|intros []].
      { apply writes_fit_step, writes_tbats; key_solver. }
      apply writes_ensemble_step. }
    destruct (Hrest wa r w' I H) as [_ Hsame]. apply Hsame. key_solver. }
  destruct Hstep as (ra & wa & HA & Hsame). rewrite Hsame in Hne |- *.
  change (store w) with (store w0) in Hne |- *.
  destruct (fit_step_seasonal_test _ _ _ _ _ _ _ HA Hne) as (Hc & r1 & w1 & Hfit & Hw1).
  rewrite <- Hw1 in Hne |- *.
  destruct (fit_auto_arima_seasonal_test _ _ _ _ _ Hfit Hne)
    as (-> & Hch & y & m & exog & msg & Hy & Hfirst).
  unfold s in Hc. rewrite configured_prepared in Hc.
  split; [done|]. split; [exact (kept_auto_arima_args _ _ Hs)|]. split; [done|].
  replace (auto_arima_args (self w)) with (auto_arima_args (self w0))
    by exact (kept_auto_arima_args _ _ Hs).
  replace (is_seasonal (self w)) with (is_seasonal (self w0))
    by exact (kept_is_seasonal _ _ Hs).
  exists y, m, exog, msg. split; [|exact Hfirst].
  assert (Hd : data (self w0) = Some d) by (unfold w0, s; by destruct ex).
  assert (Hcol : series_column_name (self w0) = Some c) by (unfold w0, s; by destruct ex).
  rewrite Hd, Hcol in Hy. unfold column_of in Hy. rewrite bind_run in Hy. cbn in Hy.
  by injection Hy.
Qed.

End option_dictionaries.

(** C9 (as amended): no call of [fit] or [predict] changes the model set, the
    error metric, the seasonal period, the holdout length, the verbosity, or
    which dictionary each of the three option attributes refers to, and
    [predict] changes no dictionary.  [fit] writes into the option
    dictionaries, which are the caller's own when the caller supplied them.
    A call that returns has set ["trend"] and ["seasonal"] in the exponential
    smoothing options and ["n_jobs"] and ["use_arma_errors"] in the BATS
    options, when the model is configured: a key that was missing holds its
    default, a key that was there holds what it held.  The key
    ["seasonal_test"] changes in the auto_arima options alone, to ["ch"],
    and only when the first attempt of auto_arima, on the series column
    with the options as they were, has raised a [ValueError].
    Every other key of every dictionary keeps its value, whether the call
    returns or raises. *)
Theorem configuration_kept_but_defaults_written `{C : Collaborators} (w : world) :
  (∀ d c ex r w',
     fit d c ex w = (r, w') →
     config_kept (self w) (self w')
     ∧ defaults_written (auto_arima_args (self w)) (exponential_smoothing_args (self w))
                        (tbats_args (self w)) (store w) (store w')
     ∧ (r = Ok tt → configured "exponential_smoothing" (self w) = true →
        dict_at (store w') (exponential_smoothing_args (self w)) !! "trend"
        = Some (default (PStr "add")
                        (dict_at (store w) (exponential_smoothing_args (self w)) !! "trend"))
        ∧ dict_at (store w') (exponential_smoothing_args (self w)) !! "seasonal"
          = Some (default (match seasonal_period (self w) with
                           | Some _ => PStr "add"
                           | None => PNone
                           end)
                          (dict_at (store w) (exponential_smoothing_args (self w))
                             !! "seasonal")))
     ∧ (r = Ok tt → configured "tbats" (self w) = true →
        dict_at (store w') (tbats_args (self w)) !! "n_jobs"
        = Some (default (PInt 1) (dict_at (store w) (tbats_args (self w)) !! "n_jobs"))
        ∧ dict_at (store w') (tbats_args (self w)) !! "use_arma_errors"
          = Some (default (PBool false)
                          (dict_at (store w) (tbats_args (self w)) !! "use_arma_errors")))
     ∧ (∀ l, dict_at (store w') l !! "seasonal_test" ≠ dict_at (store w) l !! "seasonal_test" →
          configured "auto_arima" (self w) = true
          ∧ l = auto_arima_args (self w)
          ∧ dict_at (store w') l !! "seasonal_test" = Some (PStr "ch")
          ∧ ∃ y m exog msg,
              df_col d c = Ok y
              ∧ auto_arima y (is_seasonal (self w)) m exog
                           (dict_at (store w) (auto_arima_args (self w)))
                = Raise (Exn ValueError msg)))
  ∧ (∀ a b ex r w',
       predict a b ex w = (r, w') →
       config_kept (self w) (self w') ∧ store w' = store w).
Proof.
  split.
  - intros d c ex r w' H. destruct (fit_kept _ _ _ _ _ _ H) as [Hc Hd].
    split; [done|]. split; [done|].
    assert (Hdefaults : r = Ok tt → ∃ w1, fit_candidates d c ex w = (Ok tt, w1)
                                          ∧ store w' = store w1).
    { intros ->. destruct (fit_ok_inv _ _ _ _ _ H) as (w1 & best & rest & H1 & _ & ->).
      by exists w1. }
    split; [|split].
    + intros Hr Hes. destruct (Hdefaults Hr) as (w1 & H1 & ->).
      by apply (fit_candidates_defaults _ _ _ _ _ H1).
    + intros Hr Htb. destruct (Hdefaults Hr) as (w1 & H1 & ->).
      by apply (fit_candidates_defaults _ _ _ _ _ H1).
    + intros l Hne. unfold fit in H.
      apply bind_inv in H as [(e & H & ->)|([] & w1 & H1 & H2)].
      * by eapply fit_candidates_seasonal_test.
      * destruct (retain_winner_kept _ _ _ H2) as [_ Hst]. rewrite Hst in Hne |- *.
        by eapply fit_candidates_seasonal_test.
  - intros a b ex r w'. apply predict_kept.
Qed.

Lemma configuration_kept_but_defaults_written_witness :
  fit Demo.sales "sales" NoNames (Demo.unfitted ["exponential_smoothing"])
  = (Ok tt, Demo.fitted ["exponential_smoothing"])
  ∧ config_kept (self (Demo.unfitted ["exponential_smoothing"]))
                (self (Demo.fitted ["exponential_smoothing"]))
  ∧ dict_at (store (Demo.unfitted ["exponential_smoothing"]))
            (exponential_smoothing_args (self (Demo.unfitted ["exponential_smoothing"])))
    = ∅
  ∧ dict_at (store (Demo.fitted ["exponential_smoothing"]))
            (exponential_smoothing_args (self (Demo.unfitted ["exponential_smoothing"])))
      !! "trend"
    = Some (default (PStr "add")
              (dict_at (store (Demo.unfitted ["exponential_smoothing"]))
                       (exponential_smoothing_args
                          (self (Demo.unfitted ["exponential_smoothing"])))
                 !! "trend")).
Proof.
  assert (H : fit Demo.sales "sales" NoNames (Demo.unfitted ["exponential_smoothing"])
              = (Ok tt, Demo.fitted ["exponential_smoothing"]))
    by (unfold Demo.fitted; apply run_eq; by_vm).
  assert (Hes : configured "exponential_smoothing"
                           (self (Demo.unfitted ["exponential_smoothing"])) = true) by by_vm.
  pose proof (proj1 (configuration_kept_but_defaults_written
                       (Demo.unfitted ["exponential_smoothing"])) _ _ _ _ _ H)
    as (Hc & _ & Hd & _).
  split; [exact H|]. split; [exact Hc|]. split; [by_vm|].
  exact (proj1 (Hd eq_refl Hes)).
Defined.

(** The dictionary that the caller passes as [exponential_smoothing_args] is
    empty before [fit] and holds a trend afterwards. *)
Lemma fit_writes_into_the_callers_dictionary :
  ¬ (∀ (C : Collaborators) names metric season holdout verb aa es tb st w d c ex r w',
       __init__ names metric season holdout verb aa es tb st = Ok w →
       fit d c ex w = (r, w') →
       ∀ l, es = Some l → dict_at (store w') l = dict_at st l).
Proof.
  intros H.
  pose (st := {[ 7%positive := (∅ : pydict) ]} : gmap loc pydict).
  pose (w := Demo.world_of (__init__ ["exponential_smoothing"] "mse" NoSeason 4 false
                                     None (Some 7%positive) None st)).
  pose (w' := (fit Demo.sales "sales" NoNames w).2).
  assert (Hinit : __init__ ["exponential_smoothing"] "mse" NoSeason 4 false
                           None (Some 7%positive) None st = Ok w)
    by (unfold w; apply world_of_ok; by_vm).
  assert (Hfit : fit Demo.sales "sales" NoNames w = (Ok tt, w'))
    by (unfold w'; apply run_eq; by_vm).
  specialize (H Demo.collaborators _ _ _ _ _ _ _ _ _ _ _ _ _ _ _ Hinit Hfit 7%positive eq_refl).
  assert (E1 : dict_at (store w') 7%positive !! "trend" = Some (PStr "add")) by by_vm.
  assert (E2 : dict_at st 7%positive !! "trend" = None) by by_vm.
  clearbody w' st. rewrite H, E2 in E1. discriminate E1.
Qed.

(** ** The order of timestamps *)

Lemma dt_ltb_spec a b :
  dt_ltb a b = true
  ↔ (year a < year b
     ∨ year a = year b
       ∧ (month a < month b
          ∨ month a = month b
            ∧ (day a < day b ∨ day a = day b ∧ tod a < tod b)))%Z.
Proof.
  unfold dt_ltb.
  rewrite !orb_true_iff, !andb_true_iff, !orb_true_iff, !andb_true_iff, !orb_true_iff,
    !andb_true_iff, !Z.ltb_lt, !Z.eqb_eq.
  done.
Qed.

Lemma dt_ltb_irrefl a : dt_ltb a a = false.
Proof. apply not_true_is_false. rewrite dt_ltb_spec. lia. Qed.

Lemma dt_ltb_trans a b c : dt_ltb a b = true → dt_ltb b c = true → dt_ltb a c = true.
Proof. rewrite !dt_ltb_spec. lia. Qed.

Lemma dt_leb_ltb_trans a b c : dt_leb a b = true → dt_ltb b c = true → dt_ltb a c = true.
Proof.
  unfold dt_leb. rewrite negb_true_iff, <- not_true_iff_false, !dt_ltb_spec. lia.
Qed.

Lemma dt_ltb_leb a b : dt_ltb a b = true → dt_leb a b = true.
Proof.
  unfold dt_leb. rewrite negb_true_iff, <- not_true_iff_false, !dt_ltb_spec. lia.
Qed.

(** A month later is later. *)
Lemma dt_ltb_add_one_month d : dt_ltb d (add_one_month d) = true.
Proof.
  rewrite dt_ltb_spec. unfold add_one_month. cbn [year month day tod].
  destruct (Z.ltb_spec 12 (month d + 1)); lia.
Qed.

(** ** The checks of predict *)

Section checks.
Context `{C : Collaborators}.

(** The argument stands for the date [d]: it is that datetime, or a string
    that pandas parses to it. *)
Definition resolves (a : date_arg) (d : datetime) : Prop := ∀ what, date_of a what = Ok d.

Definition exogenous_missing (exo : exog_arg) : bool :=
  match exo with NoExog => true | _ => false end.

Lemma predict_checks_run w d first last a b start stop exo :
  is_fitted (self w) = true →
  data (self w) = Some d →
  py_index (df_index d) 0 = Ok first →
  py_index (df_index d) (-1) = Ok last →
  resolves a start → resolves b stop →
  predict_checks a b exo w
  = (if dt_ltb stop start
     then Raise (Exn ValueError "`end_date` must come after `start_date`")
     else if dt_ltb (add_one_month last) start
     then Raise (Exn ValueError "`start_date` must be no more than 1 month past the last date of data received during fit")
     else if dt_ltb start first
     then Raise (Exn ValueError "`start_date` must be later than the earliest date received during fit")
     else if using_exogenous (self w) && dt_ltb last stop && exogenous_missing exo
     then Raise (Exn ValueError "Exogenous regressor(s) must be provided as a dataframe since they were provided during training")
     else Ok (start, stop, last),
     w).
Proof.
  intros Hfit Hd Hfirst Hlast Ha Hb. unfold predict_checks.
  rewrite bind_run. cbn [get_self]. rewrite Hfit. cbn [negb]. rewrite bind_run, when_false.
  unfold as_datetime. rewrite bind_run, Ha. cbn [lift]. rewrite bind_run, Hb. cbn [lift].
  rewrite bind_run. destruct (dt_ltb stop start); [done|]. rewrite when_false.
  assert (Hidx : ∀ i x, py_index (df_index d) i = Ok x → data_index i w = (Ok x, w)).
  { intros i x Hi. unfold data_index. rewrite bind_run. cbn [get_self].
    rewrite Hd. rewrite bind_run. cbn. by rewrite Hi. }
  rewrite bind_run, (Hidx _ _ Hlast). rewrite bind_run.
  destruct (dt_ltb (add_one_month last) start); [done|]. rewrite when_false.
  rewrite bind_run, (Hidx _ _ Hfirst). rewrite bind_run.
  destruct (dt_ltb start first); [done|]. rewrite when_false.
  rewrite bind_run. fold (exogenous_missing exo).
  by destruct (using_exogenous (self w) && dt_ltb last stop && exogenous_missing exo).
Qed.

End checks.



(** The months of 2021 dated at their last day, the series 1, ..., 12, and
    an instance with auto_arima fitted to them. *)
Definition month_end (k : nat) : datetime :=
  {| year := 2021; month := Z.of_nat k + 1;
     day := days_in_month 2021 (Z.of_nat k + 1); tod := 0 |}.

Definition closings : DataFrame :=
  {| columns := ["sales"];
     rows := (λ k, (month_end k, [Fin (inject_Z (Z.of_nat (S k)))])) <$> seq 0 12 |}.

Definition fitted_on_month_ends : world (C := Demo.collaborators) :=
  (fit closings "sales" NoNames (Demo.unfitted ["auto_arima"])).2.


(** ** The last observed date *)

Section last_date.
Context `{C : Collaborators}.

Lemma data_index_run w d i x :
  data (self w) = Some d → py_index (df_index d) i = Ok x → data_index i w = (Ok x, w).
Proof.
  intros Hd Hi. unfold data_index. rewrite bind_run. cbn [get_self].
  rewrite Hd. rewrite bind_run. cbn. by rewrite Hi.
Qed.

Lemma months_between_same d : (months_between d d + 1 = 1)%Z.
Proof. unfold months_between. lia. Qed.

(** The world after one more call on the log. *)
Definition logged (c : call) (w : world) : world :=
  {| self := self w; store := store w; calls := calls w ++ [c] |}.

Lemma predict_auto_arima_at_last w d last h exo :
  data (self w) = Some d →
  py_index (df_index d) (-1) = Ok last →
  fit_model (self w) = Some h →
  _predict_auto_arima last last last exo w
  = (match arima_predict h 1 exo with
     | Ok preds => series_of_array (date_range last last) preds
     | Raise e => Raise e
     end,
     logged (CallArimaPredict 1) w).
Proof.
  intros Hd Hlast Hh. unfold _predict_auto_arima.
  rewrite bind_run. cbn [get_self]. rewrite bind_run, (data_index_run _ _ _ _ Hd Hlast).
  rewrite dt_ltb_irrefl. cbn [andb]. rewrite months_between_same.
  rewrite !bind_run. cbn [log self]. rewrite Hh. cbn [on_handle lift].
  by destruct (arima_predict h 1 exo).
Qed.

Lemma predict_tbats_at_last w d first last h yh :
  data (self w) = Some d →
  py_index (df_index d) 0 = Ok first →
  py_index (df_index d) (-1) = Ok last →
  fit_model (self w) = Some h →
  bats_y_hat h = Ok yh →
  length yh = length (date_range first last) →
  py_index (date_range first last) (-1) = Ok last →
  _predict_tbats last last last w
  = (match bats_forecast h 1 with
     | Ok preds => series_of_array (date_range last last) preds
     | Raise e => Raise e
     end,
     logged (CallBatsForecast 1) w).
Proof.
  intros Hd Hfirst Hlast Hh Hyh Hlen Hin. unfold _predict_tbats.
  rewrite bind_run. cbn [get_self]. rewrite Hh. rewrite bind_run. cbn [on_handle lift].
  rewrite Hyh. rewrite bind_run, (data_index_run _ _ _ _ Hd Hfirst).
  rewrite bind_run, (data_index_run _ _ _ _ Hd Hlast).
  rewrite bind_run. unfold series_of_array at 1. rewrite decide_True by done.
  cbn [lift]. rewrite bind_run. cbn [s_index lift]. rewrite Hin.
  rewrite dt_ltb_irrefl. cbn [andb].
  rewrite bind_run, (data_index_run _ _ _ _ Hd Hlast).
  rewrite dt_ltb_irrefl. cbn [andb]. rewrite months_between_same.
  rewrite !bind_run. cbn [log]. cbn [on_handle lift].
  by destruct (bats_forecast h 1).
Qed.

End last_date.

(** C4 fails at the last observed date: a request for that date alone is
    answered by neither branch for in-sample dates, since both ask for a
    start strictly before the last date.  The auto_arima predictor and the
    BATS predictor ask the fitted model for one out-of-sample step and label
    it with the last observed date; the log holds that one call and no
    retrieval of fitted values. *)
Theorem last_date_alone_is_forecast `{C : Collaborators} w d last h exo :
  data (self w) = Some d →
  py_index (df_index d) (-1) = Ok last →
  fit_model (self w) = Some h →
  _predict_auto_arima last last last exo w
  = (match arima_predict h 1 exo with
     | Ok preds => series_of_array (date_range last last) preds
     | Raise e => Raise e
     end,
     logged (CallArimaPredict 1) w)
  ∧ ∀ first yh,
      py_index (df_index d) 0 = Ok first →
      bats_y_hat h = Ok yh →
      length yh = length (date_range first last) →
      py_index (date_range first last) (-1) = Ok last →
      _predict_tbats last last last w
      = (match bats_forecast h 1 with
         | Ok preds => series_of_array (date_range last last) preds
         | Raise e => Raise e
         end,
         logged (CallBatsForecast 1) w).
Proof.
  intros Hd Hlast Hh. split; [by eapply predict_auto_arima_at_last|].
  intros first yh Hfirst Hyh Hlen Hin. by eapply predict_tbats_at_last.
Qed.

Lemma last_date_alone_is_forecast_witness :
  fit_model_type (self (Demo.fitted ["auto_arima"])) = Some "auto_arima"
  ∧ (predict (DateObj (Demo.month_start 23)) (DateObj (Demo.month_start 23)) NoExog
             (Demo.fitted ["auto_arima"])).1
    = Ok (Some {| s_index := [Demo.month_start 23]; s_values := [Fin (inject_Z 24)] |})
  ∧ drop (length (calls (Demo.fitted ["auto_arima"])))
         (calls (predict (DateObj (Demo.month_start 23)) (DateObj (Demo.month_start 23)) NoExog
                         (Demo.fitted ["auto_arima"])).2)
    = [CallArimaPredict 1]
  ∧ _predict_auto_arima (Demo.month_start 23) (Demo.month_start 23) (Demo.month_start 23) None
                        (Demo.fitted ["auto_arima"])
    = (match arima_predict (Demo.Trained "auto_arima"
                              {| s_index := df_index Demo.sales;
                                 s_values := (λ r, cell 0 r.2) <$> rows Demo.sales |})
                           1 None with
       | Ok preds => series_of_array (date_range (Demo.month_start 23) (Demo.month_start 23)) preds
       | Raise e => Raise e
       end,
       logged (CallArimaPredict 1) (Demo.fitted ["auto_arima"])).
Proof.
  split; [by_vm|]. split; [by_vm|]. split; [by_vm|].
  refine (proj1 (last_date_alone_is_forecast (Demo.fitted ["auto_arima"]) Demo.sales
                   (Demo.month_start 23)
                   (Demo.Trained "auto_arima"
                      {| s_index := df_index Demo.sales;
                         s_values := (λ r, cell 0 r.2) <$> rows Demo.sales |})
                   None _ _ _)); by_vm.
Defined.

(** ** The ensemble of a second fit *)

(** C6 fails when [fit] is called a second time.  The candidates of the
    first call are still in the list, so the tables of both calls are
    joined; the prediction columns of the repeated models then carry the
    same name and the join renames them with [_x] and [_y], after which only
    the column of the old ensemble still ends in "predictions".  The new
    ensemble therefore repeats the old ensemble, with the old actuals,
    where the mean of the five prior prediction columns is different: in the
    first row 45/2 against 63/2. *)
Theorem refit_ensemble_repeats_the_old_ensemble :
  (λ c, (CandidateModel.model_type c, Demo.second_column (CandidateModel.predictions c)))
    <$> candidate_models (self Demo.refit_before_ensemble)
  = [("exponential_smoothing", [Fin 21; Fin 22; Fin 23; Fin 24]);
     ("ensemble", [Fin (45 # 2); Fin 23; Fin (47 # 2); Fin 24]);
     ("tbats", [Fin 24; Fin 24; Fin 24; Fin 24]);
     ("exponential_smoothing", [Fin 42; Fin 44; Fin 46; Fin 48]);
     ("tbats", [Fin 48; Fin 48; Fin 48; Fin 48])]
  ∧ match (_fit_ensemble Demo.refit_before_ensemble).1 with
    | Ok c => Some (CandidateModel.model_type c,
                    columns (CandidateModel.predictions c),
                    Demo.first_column (CandidateModel.predictions c),
                    Demo.second_column (CandidateModel.predictions c))
    | Raise _ => None
    end
    = Some ("ensemble", ["actuals"; "en_test_predictions"],
            [Fin 21; Fin 22; Fin 23; Fin 24],
            [Fin (45 # 2); Fin 23; Fin (47 # 2); Fin 24])
  ∧ row_mean [Fin 21; Fin (45 # 2); Fin 24; Fin 42; Fin 48] = Fin (63 # 2)
  ∧ Demo.first_column (iloc_from Demo.revised (-4)) = [Fin 42; Fin 44; Fin 46; Fin 48].
Proof. split; [by_vm|]. split; [by_vm|]. split; by_vm. Qed.

(** ** The monthly grid *)

(** [k] months after [d]. *)
Definition nth_month (d : datetime) (k : nat) : datetime := Nat.iter k add_one_month d.

(** The months [i], ..., [i + m - 1] after [d]. *)
Definition months_from (d : datetime) (i m : nat) : list datetime := nth_month d <$> seq i m.

Definition month_index (d : datetime) : Z := (year d * 12 + (month d - 1))%Z.

(** A first of a month. *)
Definition month_begin (d : datetime) : Prop := day d = 1%Z ∧ (1 ≤ month d ≤ 12)%Z.

Lemma days_in_month_ge y m : (28 ≤ days_in_month y m)%Z.
Proof.
  unfold days_in_month.
  repeat match goal with |- context [if ?b then _ else _] => destruct b end; lia.
Qed.

Lemma add_one_month_begin d :
  month_begin d →
  month_begin (add_one_month d)
  ∧ month_index (add_one_month d) = (month_index d + 1)%Z
  ∧ tod (add_one_month d) = tod d.
Proof.
  intros [Hd Hm]. unfold month_begin, month_index, add_one_month. cbn [year month day tod].
  pose proof (days_in_month_ge (if (12 <? month d + 1)%Z then (year d + 1)%Z else year d)
                (if (12 <? month d + 1)%Z then (month d + 1 - 12)%Z else (month d + 1)%Z)).
  destruct (Z.ltb_spec 12 (month d + 1)); lia.
Qed.

Lemma nth_month_S d k : nth_month d (S k) = add_one_month (nth_month d k).
Proof. done. Qed.

Lemma nth_month_begin d k :
  month_begin d →
  month_begin (nth_month d k)
  ∧ month_index (nth_month d k) = (month_index d + Z.of_nat k)%Z
  ∧ tod (nth_month d k) = tod d.
Proof.
  intros Hd. induction k as [|k (IH1 & IH2 & IH3)].
  - cbn. split; [done|]. split; [lia|done].
  - rewrite nth_month_S. destruct (add_one_month_begin _ IH1) as (H1 & H2 & H3).
    split; [done|]. split; [lia|congruence].
Qed.

Lemma months_between_index a b : months_between a b = (month_index b - month_index a)%Z.
Proof. unfold months_between, month_index. lia. Qed.

Lemma dt_ltb_month_begin a b :
  month_begin a → month_begin b → tod a = tod b →
  dt_ltb a b = true ↔ (month_index a < month_index b)%Z.
Proof.
  intros [Ha1 Ha2] [Hb1 Hb2] Ht. rewrite dt_ltb_spec. unfold month_index. lia.
Qed.

Lemma dt_ltb_nth_month d i j :
  month_begin d → dt_ltb (nth_month d i) (nth_month d j) = bool_decide (i < j).
Proof.
  intros Hd.
  destruct (nth_month_begin d i Hd) as (Hi1 & Hi2 & Hi3).
  destruct (nth_month_begin d j Hd) as (Hj1 & Hj2 & Hj3).
  pose proof (dt_ltb_month_begin _ _ Hi1 Hj1 ltac:(congruence)) as H.
  case_bool_decide.
  - apply H. lia.
  - apply not_true_is_false. rewrite H. lia.
Qed.

Lemma dt_leb_nth_month d i j :
  month_begin d → dt_leb (nth_month d i) (nth_month d j) = bool_decide (i ≤ j).
Proof.
  intros Hd. unfold dt_leb. rewrite dt_ltb_nth_month by done.
  repeat case_bool_decide; try done; lia.
Qed.

Lemma months_between_nth_month d i j :
  month_begin d →
  months_between (nth_month d i) (nth_month d j) = (Z.of_nat j - Z.of_nat i)%Z.
Proof.
  intros Hd. rewrite months_between_index.
  destruct (nth_month_begin d i Hd) as (_ & -> & _).
  destruct (nth_month_begin d j Hd) as (_ & -> & _). lia.
Qed.

Lemma nth_month_inj d i j : month_begin d → nth_month d i = nth_month d j → i = j.
Proof.
  intros Hd H. apply (f_equal month_index) in H.
  destruct (nth_month_begin d i Hd) as (_ & Hi & _).
  destruct (nth_month_begin d j Hd) as (_ & Hj & _). lia.
Qed.

Lemma rollforward_nth_month d i : month_begin d → rollforward_MS (nth_month d i) = nth_month d i.
Proof.
  intros Hd. destruct (nth_month_begin d i Hd) as ([H _] & _). unfold rollforward_MS.
  by rewrite H.
Qed.

(** With enough fuel the range runs up to its end: more fuel adds nothing. *)
Lemma date_range_from_nth_month d i j m extra :
  month_begin d → i + m = S j →
  date_range_from (m + extra) (nth_month d i) (nth_month d j) = months_from d i m.
Proof.
  intros Hd. revert i. induction m as [|m IH]; intros i Hij.
  - cbn. destruct extra; [done|]. cbn. rewrite dt_leb_nth_month by done.
    rewrite bool_decide_eq_false_2; [done|lia].
  - cbn. rewrite dt_leb_nth_month by done. rewrite bool_decide_eq_true_2 by lia.
    f_equal. rewrite <- nth_month_S. apply IH. lia.
Qed.

Lemma date_range_nth_month d i j :
  month_begin d → i ≤ S j →
  date_range (nth_month d i) (nth_month d j) = months_from d i (S j - i).
Proof.
  intros Hd Hij. unfold date_range. rewrite rollforward_nth_month by done.
  rewrite months_between_nth_month by done.
  replace (Z.to_nat (Z.of_nat j - Z.of_nat i + 1)) with (S j - i + 0) by lia.
  apply date_range_from_nth_month; [done|lia].
Qed.

Lemma months_from_length d i m : length (months_from d i m) = m.
Proof. unfold months_from. by rewrite length_fmap, length_seq. Qed.

Lemma months_from_lookup d i m k :
  k < m → months_from d i m !! k = Some (nth_month d (i + k)).
Proof.
  intros Hk. unfold months_from. rewrite list_lookup_fmap, lookup_seq_lt by done. done.
Qed.

Lemma get_loc_months_from d n i :
  month_begin d → i < n → get_loc (months_from d 0 n) (nth_month d i) = Ok i.
Proof.
  intros Hd Hi. unfold get_loc.
  destruct (list_find _ _) as [[k t]|] eqn:E.
  - apply list_find_Some in E as (Hk & Ht & Hmin).
    assert (Hkn : k < n).
    { apply lookup_lt_Some in Hk. by rewrite months_from_length in Hk. }
    rewrite months_from_lookup in Hk by done. injection Hk as <-.
    f_equal. apply nth_month_inj in Ht; [|done]. lia.
  - exfalso. apply list_find_None in E. rewrite Forall_forall in E.
    apply (E (nth_month d i)); [|done].
    apply list_elem_of_lookup. exists i. by rewrite months_from_lookup.
Qed.

Lemma py_index_first {A} (l : list A) x : l !! 0 = Some x → py_index l 0 = Ok x.
Proof. destruct l; [done|]. by intros [= ->]. Qed.

Lemma py_index_last {A} (l : list A) x n :
  length l = S n → l !! n = Some x → py_index l (-1) = Ok x.
Proof.
  intros Hl Hx. unfold py_index. cbn [Z.ltb Z.compare]. rewrite Hl.
  replace (Z.of_nat (S n) + -1)%Z with (Z.of_nat n) by lia.
  destruct (Z.ltb_spec (Z.of_nat n) 0); [lia|]. by rewrite Nat2Z.id, Hx.
Qed.

(** ** Predictions cover the requested months *)

(** Runs the monad as far as the results are known. *)
Ltac run :=
  repeat first [ rewrite bind_run
               | progress cbn [log on_handle lift mret M_ret get_self raise] ].

Section coverage.
Context `{C : Collaborators}.

(** What the program relies on from a fitted ARIMA model over [n]
    observations: fitted values for a range of positions, and as many
    forecasts as are asked for. *)
Definition arima_contract (h : handle) (n : nat) : Prop :=
  (∀ a b exo, a ≤ b → b < n →
     ∃ l, arima_predict_in_sample h a (Some b) exo = Ok l ∧ length l = S b - a)
  ∧ (∀ a, a < n → ∃ l, arima_predict_in_sample h a None None = Ok l ∧ length l = n - a)
  ∧ (∀ k exo, (0 ≤ k)%Z → ∃ l, arima_predict h k exo = Ok l ∧ length l = Z.to_nat k).

(** A fitted exponential smoothing model answers with a series that is
    labelled with the months of the range it is asked for.  The ensemble
    joins the series of its models on their labels, and relies on this. *)
Definition es_contract (h : handle) : Prop :=
  ∀ a b, ∃ vals,
    es_predict h a b = Ok {| s_index := date_range a b; s_values := vals |}
    ∧ length vals = length (date_range a b).

(** A fitted BATS model has one fitted value per observation and forecasts
    as many steps as are asked for. *)
Definition bats_contract (h : handle) (n : nat) : Prop :=
  (∃ yh, bats_y_hat h = Ok yh ∧ length yh = n)
  ∧ (∀ k, (0 ≤ k)%Z → ∃ l, bats_forecast h k = Ok l ∧ length l = Z.to_nat k).

Variables (w : world) (d : DataFrame) (first : datetime) (n : nat).
Hypothesis Hdata : data (self w) = Some d.
Hypothesis Hfirst : month_begin first.
Hypothesis Hindex : df_index d = months_from first 0 (S n).

Lemma data_first : data_index 0 w = (Ok first, w).
Proof using Hdata Hindex.
  eapply data_index_run; [done|]. rewrite Hindex. by apply py_index_first.
Qed.

Lemma data_last w' :
  data (self w') = data (self w) → data_index (-1) w' = (Ok (nth_month first n), w').
Proof using Hdata Hindex.
  intros Hw'. eapply data_index_run; [by rewrite Hw'|]. rewrite Hindex.
  apply (py_index_last _ _ n); [apply months_from_length|].
  by rewrite months_from_lookup by lia.
Qed.

Lemma data_loc i w' :
  data (self w') = data (self w) → i ≤ n →
  data_get_loc (nth_month first i) w' = (Ok i, w').
Proof using Hdata Hindex Hfirst.
  intros Hw' Hi. unfold data_get_loc. rewrite bind_run. cbn [get_self].
  rewrite Hw', Hdata. rewrite bind_run. cbn. rewrite Hindex.
  rewrite get_loc_months_from by (done || lia). done.
Qed.

Lemma series_of_array_ok idx vals :
  length vals = length idx → series_of_array idx vals = Ok {| s_index := idx; s_values := vals |}.
Proof. intros H. unfold series_of_array. by rewrite decide_True. Qed.

Lemma predict_auto_arima_covers i j exo h :
  i ≤ j → i ≤ S n →
  fit_model (self w) = Some h → arima_contract h (S n) →
  ∃ vals w',
    _predict_auto_arima (nth_month first i) (nth_month first j) (nth_month first n) exo w
    = (Ok {| s_index := months_from first i (S j - i); s_values := vals |}, w')
    ∧ length vals = S j - i.
Proof using Hdata Hindex Hfirst.
  intros Hij Hi Hh (Hin & Hin' & Hout). unfold _predict_auto_arima.
  rewrite bind_run. cbn [get_self]. rewrite bind_run, data_last by done.
  rewrite !dt_ltb_nth_month, dt_leb_nth_month by done.
  rewrite date_range_nth_month by (done || lia). rewrite Hh.
  case_bool_decide as H1; [case_bool_decide as H2|]; cbn [andb].
  - (* both in-sample *)
    rewrite bind_run, bind_run, data_loc by (done || lia).
    rewrite bind_run, data_loc by (done || lia).
    destruct (Hin i j exo Hij ltac:(lia)) as (l & Hl & Hlen).
    run. rewrite Hl. run.
    rewrite series_of_array_ok by (rewrite months_from_length; lia).
    by eauto.
  - case_bool_decide as H3; [|lia].
    rewrite bind_run, bind_run, data_loc by (done || lia).
    destruct (Hin' i ltac:(lia)) as (l1 & Hl1 & Hlen1).
    rewrite months_between_nth_month by done.
    destruct (Hout (Z.of_nat j - Z.of_nat n)%Z None ltac:(lia)) as (l2 & Hl2 & Hlen2).
    run. rewrite Hl1. run. rewrite Hl2. run.
    rewrite series_of_array_ok by (rewrite months_from_length, length_app; lia).
    eexists _, _. split; [done|]. rewrite length_app. lia.
  - rewrite months_between_nth_month by done.
    destruct (Hout (Z.of_nat j - Z.of_nat i + 1)%Z exo ltac:(lia)) as (l & Hl & Hlen).
    run. rewrite Hl. run.
    rewrite series_of_array_ok by (rewrite months_from_length; lia).
    eexists _, _. split; [done|]. lia.
Qed.

Lemma predict_exponential_smoothing_covers i j h :
  i ≤ j →
  fit_model (self w) = Some h → es_contract h →
  ∃ vals w',
    _predict_exponential_smoothing (nth_month first i) (nth_month first j) w
    = (Ok {| s_index := months_from first i (S j - i); s_values := vals |}, w')
    ∧ length vals = S j - i.
Proof using Hfirst.
  intros Hij Hh Hes. unfold _predict_exponential_smoothing.
  destruct (Hes (nth_month first i) (nth_month first j)) as (vals & He & Hlen).
  rewrite date_range_nth_month in He, Hlen by (done || lia).
  rewrite months_from_length in Hlen.
  run. rewrite Hh. run. rewrite He. by eauto.
Qed.

Lemma date_range_data : date_range first (nth_month first n) = months_from first 0 (S n).
Proof using Hfirst.
  pose proof (date_range_nth_month first 0 n Hfirst ltac:(lia)) as H.
  by rewrite Nat.sub_0_r in H.
Qed.

(** On the grid, the labels from the month [i] on are the last ones. *)
Lemma loc_slice_from_length a m i (yh : list float) :
  length yh = m →
  length (List.filter (λ it : datetime * float, dt_leb (nth_month first i) it.1 && true)
                      (zip (months_from first a m) yh))
  = a + m - Nat.max a i.
Proof using Hfirst.
  revert a yh. induction m as [|m IH]; intros a yh Hlen.
  - destruct yh; [|done]. cbn. lia.
  - destruct yh as [|y yh]; [done|].
    change (months_from first a (S m))
      with (nth_month first a :: months_from first (S a) m).
    change (zip (nth_month first a :: months_from first (S a) m) (y :: yh))
      with ((nth_month first a, y) :: zip (months_from first (S a) m) yh).
    cbn [List.filter fst]. rewrite dt_leb_nth_month by done.
    specialize (IH (S a) yh ltac:(by injection Hlen)).
    case_bool_decide; cbn [andb length]; rewrite IH; lia.
Qed.

Lemma predict_tbats_covers i j h :
  i ≤ j → i ≤ S n →
  fit_model (self w) = Some h → bats_contract h (S n) →
  ∃ vals w',
    _predict_tbats (nth_month first i) (nth_month first j) (nth_month first n) w
    = (Ok {| s_index := months_from first i (S j - i); s_values := vals |}, w')
    ∧ length vals = S j - i.
Proof using Hdata Hindex Hfirst.
  intros Hij Hi Hh ((yh & Hyh & Hlen) & Hout). unfold _predict_tbats.
  run. rewrite Hh. run. rewrite Hyh. run.
  rewrite data_first. run. rewrite data_last by done. run.
  rewrite date_range_data.
  rewrite series_of_array_ok by (by rewrite months_from_length). run.
  cbn [s_index]. rewrite (py_index_last _ (nth_month first n) n)
    by (apply months_from_length || by rewrite months_from_lookup by lia).
  rewrite !dt_ltb_nth_month, dt_leb_nth_month by done.
  rewrite date_range_nth_month by (done || lia).
  case_bool_decide as H1; [case_bool_decide as H2|]; cbn [andb].
  - run. eexists _, _. split; [done|]. cbn [series_reindex s_values].
    by rewrite length_fmap, months_from_length.
  - run. rewrite data_last by done. run.
    rewrite !dt_ltb_nth_month by done. rewrite bool_decide_eq_true_2 by done.
    case_bool_decide as H3; [|lia]. cbn [andb].
    rewrite months_between_nth_month by done.
    destruct (Hout (Z.of_nat j - Z.of_nat n)%Z ltac:(lia)) as (l2 & Hl2 & Hlen2).
    run. rewrite Hl2. run.
    assert (Hin : length (s_values (loc_slice {| s_index := months_from first 0 (S n);
                                                 s_values := yh |}
                                              (nth_month first i) None)) = S n - i).
    { unfold loc_slice. cbn [s_values]. rewrite length_fmap.
      unfold s_items. cbn [s_index s_values].
      rewrite loc_slice_from_length by done. lia. }
    rewrite series_of_array_ok by (rewrite months_from_length, length_app, Hin; lia).
    eexists _, _. split; [done|]. cbn [s_values]. rewrite length_app, Hin. lia.
  - run. rewrite data_last by done. run.
    rewrite !dt_ltb_nth_month by done. rewrite bool_decide_eq_false_2 by done.
    cbn [andb]. rewrite months_between_nth_month by done.
    destruct (Hout (Z.of_nat j - Z.of_nat i + 1)%Z ltac:(lia)) as (l & Hl & Hlen').
    run. rewrite Hl. run.
    rewrite series_of_array_ok by (rewrite months_from_length; lia).
    eexists _, _. split; [done|]. lia.
Qed.

End coverage.

(** ** Joining tables that share their labels *)

Section join.

Lemma filter_label_none (t : datetime) (xs : list (datetime * list float)) :
  t ∉ xs.*1 → filter (λ rr, rr.1 = t) xs = [].
Proof.
  induction xs as [|x xs IH]; [done|]. cbn [fmap list_fmap]. intros Hnot.
  apply not_elem_of_cons in Hnot as [Hne Hnot].
  rewrite filter_cons_False by (intros E; by apply Hne). by apply IH.
Qed.

(** When both sides carry the same labels, each once, the inner join puts
    the rows side by side. *)
Lemma join_rows pre (l r : list (datetime * list float)) :
  NoDup ((pre ++ r).*1) → l.*1 = r.*1 →
  (rl ← l; (λ rr, (rl.1, rl.2 ++ rr.2)) <$> filter (λ rr, rr.1 = rl.1) (pre ++ r))
  = zip_with (λ rl rr, (rl.1, rl.2 ++ rr.2)) l r.
Proof.
  revert pre r. induction l as [|a l IH]; intros pre [|b r] Hnd Hlr; try done.
  injection Hlr as Hab Hlr. cbn [mbind list_bind zip_with].
  rewrite fmap_app, fmap_cons in Hnd.
  apply NoDup_app in Hnd as (Hpre & Hdisj & Hbr). apply NoDup_cons in Hbr as [Hb Hr].
  rewrite filter_app, filter_cons_True by done.
  rewrite (filter_label_none a.1 pre) by (rewrite Hab; intros Hin; apply (Hdisj _ Hin); left).
  rewrite (filter_label_none a.1 r) by (by rewrite Hab).
  cbn [app fmap list_fmap]. f_equal.
  specialize (IH (pre ++ [b]) r). rewrite <- app_assoc in IH. cbn [app] in IH.
  apply IH; [|done].
  rewrite fmap_app, fmap_cons. apply NoDup_app. split; [done|]. split; [|by constructor].
  intros t Hin. by apply Hdisj.
Qed.

Lemma merge_rows (l r : DataFrame) :
  NoDup (df_index r) → df_index l = df_index r →
  rows (merge l r) = zip_with (λ rl rr, (rl.1, rl.2 ++ rr.2)) (rows l) (rows r).
Proof. intros Hnd Hlr. unfold merge. cbn [rows]. by apply (join_rows []). Qed.

Lemma zip_with_labels (l r : list (datetime * list float)) :
  l.*1 = r.*1 → (zip_with (λ rl rr, (rl.1, rl.2 ++ rr.2)) l r).*1 = l.*1.
Proof.
  revert r. induction l as [|a l IH]; intros [|b r] H; try done.
  injection H as _ H. cbn. f_equal. by apply IH.
Qed.

Lemma merge_index (l r : DataFrame) :
  NoDup (df_index r) → df_index l = df_index r → df_index (merge l r) = df_index l.
Proof.
  intros Hnd Hlr. unfold df_index at 1. rewrite merge_rows by done.
  by apply zip_with_labels.
Qed.

Lemma frame_of_series_index name idx vals :
  length vals = length idx →
  df_index (frame_of_series name {| s_index := idx; s_values := vals |}) = idx.
Proof.
  intros H. unfold df_index, frame_of_series, s_items. cbn [rows s_index s_values].
  rewrite <- list_fmap_compose. unfold compose. cbn [fst].
  by rewrite fst_zip by lia.
Qed.

End join.

(** ** The ensemble predictor *)

Section ensemble_coverage.
Context `{C : Collaborators}.

(** The fitted model of the last candidate of a type, which is the one
    that [activate] leaves in [fit_model]. *)
Fixpoint last_of_type (t : string) (cs : list (CandidateModel handle)) : option (option handle) :=
  match cs with
  | [] => None
  | c :: cs' =>
      match last_of_type t cs' with
      | Some hm => Some hm
      | None => if String.eqb (CandidateModel.model_type c) t
                then Some (CandidateModel.fit_model c) else None
      end
  end.

Lemma activate_fold t cs s :
  foldl (λ s c, if String.eqb (CandidateModel.model_type c) t
                then set_fit_model (CandidateModel.fit_model c) s else s) s cs
  = match last_of_type t cs with
    | Some hm => set_fit_model hm s
    | None => s
    end.
Proof.
  revert s. induction cs as [|c cs IH]; intros s; [done|].
  cbn [foldl last_of_type]. rewrite IH.
  destruct (last_of_type t cs); by destruct (String.eqb _ _).
Qed.

Lemma activate_run t w :
  activate t w
  = (Ok tt, {| self := match last_of_type t (candidate_models (self w)) with
                       | Some hm => set_fit_model hm (self w)
                       | None => self w
                       end;
               store := store w; calls := calls w |}).
Proof. unfold activate, modify_self. by rewrite activate_fold. Qed.

Variables (d : DataFrame) (idx : list datetime).

(** A predictor that, run with the fitted model [h], yields a value for
    every label of [idx]. *)
Definition covers_with (P : M Series) (h : handle) : Prop :=
  ∀ wa, data (self wa) = Some d → fit_model (self wa) = Some h →
    ∃ vals w',
      P wa = (Ok {| s_index := idx; s_values := vals |}, w')
      ∧ length vals = length idx
      ∧ predict_frame wa w'.

(** One constituent of the ensemble: its model is made the active one, its
    predictor runs, and its series becomes a table of one column. *)
Lemma constituent_covers t name P h w0 w :
  predict_frame w0 w → data (self w0) = Some d →
  last_of_type t (candidate_models (self w0)) = Some (Some h) →
  covers_with P h →
  ∃ vals w',
    (activate t;; preds ← P; mret [frame_of_series name preds]) w
    = (Ok [frame_of_series name {| s_index := idx; s_values := vals |}], w')
    ∧ length vals = length idx
    ∧ predict_frame w0 w'.
Proof.
  intros Hf Hd Hlast HP. pose proof Hf as (_ & _ & _ & Hdata & Hcs).
  rewrite bind_run, activate_run, Hcs, Hlast.
  match goal with |- context [(?m ≫= ?f) ?wa] => set (w1 := wa) end.
  assert (Hf1 : predict_frame w w1) by (by repeat split).
  destruct (HP w1) as (vals & w' & HPw & Hlen & Hf').
  { cbn. by rewrite Hdata. }
  { done. }
  rewrite bind_run, HPw. exists vals, w'. split; [done|]. split; [done|].
  eapply predict_frame_trans; [exact Hf|]. by eapply predict_frame_trans.
Qed.

Definition on_labels (f : DataFrame) : Prop := df_index f = idx.

Lemma reduce_merge_on_labels f1 rest :
  NoDup idx → on_labels f1 → Forall on_labels rest →
  ∃ f, reduce (λ left right, Ok (merge left right)) (f1 :: rest) = Ok f ∧ on_labels f.
Proof.
  intros Hnd. unfold reduce. revert f1. induction rest as [|f2 rest IH]; intros f1 H1 Hrest.
  - by exists f1.
  - apply Forall_cons in Hrest as [H2 Hrest]. cbn [foldl].
    apply IH; [|done]. unfold on_labels in *.
    rewrite merge_index; [done|by rewrite H2|by rewrite H1, H2].
Qed.

Lemma optional_constituent (b : bool) t name P w0 w :
  predict_frame w0 w → data (self w0) = Some d →
  (b = true → ∃ h, last_of_type t (candidate_models (self w0)) = Some (Some h)
                   ∧ covers_with P h) →
  ∃ fs w',
    (if b then activate t;; preds ← P; mret [frame_of_series name preds] else mret []) w
    = (Ok fs, w')
    ∧ Forall on_labels fs
    ∧ length fs = (if b then 1 else 0)
    ∧ predict_frame w0 w'.
Proof.
  intros Hf Hd Hb. destruct b.
  - destruct (Hb eq_refl) as (h & Hlast & HP).
    destruct (constituent_covers t name P h w0 w Hf Hd Hlast HP) as (vals & w' & Hrun & Hlen & Hf').
    exists [frame_of_series name {| s_index := idx; s_values := vals |}], w'.
    split; [done|]. split; [|done].
    constructor; [|done]. by apply frame_of_series_index.
  - exists [], w. split; [done|]. split; [constructor|]. split; [done|exact Hf].
Qed.

(** The number of models, other than the ensemble, that are configured. *)
Definition constituents (s : AutoTS) : nat :=
  length (List.filter (λ t, configured t s) ["auto_arima"; "exponential_smoothing"; "tbats"]).

Lemma predict_ensemble_covers w start stop last exo :
  data (self w) = Some d → NoDup idx → date_range start stop = idx →
  (configured "auto_arima" (self w) = true →
   ∃ h, last_of_type "auto_arima" (candidate_models (self w)) = Some (Some h)
        ∧ covers_with (_predict_auto_arima start stop last exo) h) →
  (configured "exponential_smoothing" (self w) = true →
   ∃ h, last_of_type "exponential_smoothing" (candidate_models (self w)) = Some (Some h)
        ∧ covers_with (_predict_exponential_smoothing start stop) h) →
  (configured "tbats" (self w) = true →
   ∃ h, last_of_type "tbats" (candidate_models (self w)) = Some (Some h)
        ∧ covers_with (_predict_tbats start stop last) h) →
  2 ≤ constituents (self w) →
  ∃ vals w',
    _predict_ensemble start stop last exo w
    = (Ok {| s_index := idx; s_values := vals |}, w')
    ∧ length vals = length idx.
Proof.
  intros Hd Hnd Hrange Haa Hes Htb Htwo. unfold _predict_ensemble.
  rewrite bind_run. cbn [get_self].
  destruct (optional_constituent (configured "auto_arima" (self w)) "auto_arima"
              "auto_arima_predictions" (_predict_auto_arima start stop last exo) w w
              (predict_frame_refl w) Hd Haa) as (fs1 & w1 & Hrun1 & Hfs1 & Hlen1 & Hf1).
  rewrite (bind_ok _ _ _ _ _ Hrun1).
  destruct (optional_constituent (configured "exponential_smoothing" (self w))
              "exponential_smoothing" "exponential_smoothing_predictions"
              (_predict_exponential_smoothing start stop) w w1 Hf1 Hd Hes)
    as (fs2 & w2 & Hrun2 & Hfs2 & Hlen2 & Hf2).
  rewrite (bind_ok _ _ _ _ _ Hrun2).
  destruct (optional_constituent (configured "tbats" (self w)) "tbats" "tbats_predictions"
              (_predict_tbats start stop last) w w2 Hf2 Hd Htb)
    as (fs3 & w3 & Hrun3 & Hfs3 & Hlen3 & Hf3).
  rewrite (bind_ok _ _ _ _ _ Hrun3).
  assert (Hall : Forall on_labels (fs1 ++ fs2 ++ fs3)) by (by rewrite !Forall_app).
  assert (Hlen : 2 ≤ length (fs1 ++ fs2 ++ fs3)).
  { rewrite !length_app, Hlen1, Hlen2, Hlen3. unfold constituents in Htwo.
    cbn [List.filter] in Htwo.
    by destruct (configured "auto_arima" (self w)),
                (configured "exponential_smoothing" (self w)),
                (configured "tbats" (self w)). }
  destruct (fs1 ++ fs2 ++ fs3) as [|f1 rest] eqn:Efs; [cbn in Hlen; lia|].
  apply Forall_cons in Hall as [Hf1l Hrest].
  destruct (reduce_merge_on_labels f1 rest Hnd Hf1l Hrest) as (f & Hred & Hfl).
  rewrite bind_run. cbn [lift]. rewrite Hred.
  rewrite bind_run, bool_decide_eq_false_2 by (cbn [length] in *; lia).
  rewrite when_false. run. cbn [modify_self]. rewrite Hrange.
  rewrite series_of_array_ok
    by (rewrite length_fmap; unfold on_labels, df_index in Hfl;
        by rewrite <- Hfl, length_fmap).
  eexists _, _. split; [done|]. cbn [s_values].
  rewrite length_fmap. unfold on_labels, df_index in Hfl. by rewrite <- Hfl, length_fmap.
Qed.

End ensemble_coverage.

(** ** Every month of the request *)

Section every_month.
Context `{C : Collaborators}.

Lemma months_from_NoDup first i m : month_begin first → NoDup (months_from first i m).
Proof.
  intros Hf. unfold months_from. apply NoDup_fmap_2; [|apply NoDup_seq].
  intros a b. by apply nth_month_inj.
Qed.

(** The retained model is auto_arima, BATS or the ensemble; it, and for the
    ensemble every configured model, keeps the contract of its library for
    data of [n] months.  (What a retained exponential smoothing model
    returns is returned as it is.) *)
Definition ready (w : world) (n : nat) : Prop :=
  (fit_model_type (self w) = Some "auto_arima"
   ∧ ∃ h, fit_model (self w) = Some h ∧ arima_contract h n)
  ∨ (fit_model_type (self w) = Some "tbats"
     ∧ ∃ h, fit_model (self w) = Some h ∧ bats_contract h n)
  ∨ (fit_model_type (self w) = Some "ensemble"
     ∧ 2 ≤ constituents (self w)
     ∧ (configured "auto_arima" (self w) = true →
        ∃ h, last_of_type "auto_arima" (candidate_models (self w)) = Some (Some h)
             ∧ arima_contract h n)
     ∧ (configured "exponential_smoothing" (self w) = true →
        ∃ h, last_of_type "exponential_smoothing" (candidate_models (self w)) = Some (Some h)
             ∧ es_contract h)
     ∧ (configured "tbats" (self w) = true →
        ∃ h, last_of_type "tbats" (candidate_models (self w)) = Some (Some h)
             ∧ bats_contract h n)).

Variables (d : DataFrame) (first : datetime) (n : nat).
Hypothesis Hfirst : month_begin first.
Hypothesis Hindex : df_index d = months_from first 0 (S n).

Lemma arima_covers_with i j exo h :
  i ≤ j → i ≤ S n → arima_contract h (S n) →
  covers_with d (months_from first i (S j - i))
    (_predict_auto_arima (nth_month first i) (nth_month first j) (nth_month first n) exo) h.
Proof using Hfirst Hindex.
  intros Hij Hi Hc wa Hd Hh.
  destruct (predict_auto_arima_covers wa d first n Hd Hfirst Hindex i j exo h Hij Hi Hh Hc)
    as (vals & w' & Hrun & Hlen).
  exists vals, w'. split; [done|]. split; [by rewrite months_from_length|].
  by eapply predict_frame_auto_arima.
Qed.

Lemma es_covers_with i j h :
  i ≤ j → es_contract h →
  covers_with d (months_from first i (S j - i))
    (_predict_exponential_smoothing (nth_month first i) (nth_month first j)) h.
Proof using Hfirst.
  intros Hij Hc wa Hd Hh.
  destruct (predict_exponential_smoothing_covers wa first Hfirst i j h Hij Hh Hc)
    as (vals & w' & Hrun & Hlen).
  exists vals, w'. split; [done|]. split; [by rewrite months_from_length|].
  by eapply predict_frame_exponential_smoothing.
Qed.

Lemma bats_covers_with i j h :
  i ≤ j → i ≤ S n → bats_contract h (S n) →
  covers_with d (months_from first i (S j - i))
    (_predict_tbats (nth_month first i) (nth_month first j) (nth_month first n)) h.
Proof using Hfirst Hindex.
  intros Hij Hi Hc wa Hd Hh.
  destruct (predict_tbats_covers wa d first n Hd Hfirst Hindex i j h Hij Hi Hh Hc)
    as (vals & w' & Hrun & Hlen).
  exists vals, w'. split; [done|]. split; [by rewrite months_from_length|].
  by eapply predict_frame_tbats.
Qed.

Lemma dispatch_covers w i j exo :
  data (self w) = Some d → i ≤ j → i ≤ S n → ready w (S n) →
  ∃ vals w',
    predict_dispatch (nth_month first i) (nth_month first j) (nth_month first n) exo w
    = (Ok (Some {| s_index := months_from first i (S j - i); s_values := vals |}), w')
    ∧ length vals = S j - i.
Proof using Hfirst Hindex.
  intros Hd Hij Hi Hready. unfold predict_dispatch, returning. rewrite bind_run. cbn [get_self].
  set (ex := match exo with
             | NoExog => None
             | ExogFrame d0 => Some d0
             | ExogSeries name x => Some (frame_of_series name x)
             end).
  destruct Hready as [(Ht & h & Hh & Hc)|[(Ht & h & Hh & Hc)
                     |(Ht & Htwo & Haa & Hes & Htb)]]; rewrite Ht.
  - rewrite bool_decide_eq_true_2 by done.
    destruct (arima_covers_with i j ex h Hij Hi Hc w Hd Hh) as (vals & w' & Hrun & Hlen & _).
    rewrite bind_run, Hrun. rewrite months_from_length in Hlen. by eauto.
  - rewrite !bool_decide_eq_false_2 by done. rewrite bool_decide_eq_true_2 by done.
    destruct (bats_covers_with i j h Hij Hi Hc w Hd Hh) as (vals & w' & Hrun & Hlen & _).
    rewrite bind_run, Hrun. rewrite months_from_length in Hlen. by eauto.
  - rewrite !bool_decide_eq_false_2 by done. rewrite bool_decide_eq_true_2 by done.
    destruct (predict_ensemble_covers d (months_from first i (S j - i)) w
                (nth_month first i) (nth_month first j) (nth_month first n) ex)
      as (vals & w' & Hrun & Hlen); try done.
    + by apply months_from_NoDup.
    + apply date_range_nth_month; [done|lia].
    + intros Hc. destruct (Haa Hc) as (h & Hl & Hcon). exists h. split; [done|].
      by apply arima_covers_with.
    + intros Hc. destruct (Hes Hc) as (h & Hl & Hcon). exists h. split; [done|].
      by apply es_covers_with.
    + intros Hc. destruct (Htb Hc) as (h & Hl & Hcon). exists h. split; [done|].
      by apply bats_covers_with.
    + rewrite bind_run, Hrun. rewrite months_from_length in Hlen. by eauto.
Qed.

End every_month.


(** The stand-in models keep the contracts. *)
Lemma naive_arima_contract train n :
  length (s_values train) = n →
  arima_contract (C := Demo.collaborators) (Demo.Trained "auto_arima" train) n.
Proof.
  intros Hlen. split; [|split].
  - intros a b exo Hab Hb. eexists. split; [reflexivity|].
    rewrite length_drop, length_take. lia.
  - intros a Ha. eexists. split; [reflexivity|]. rewrite length_drop. lia.
  - intros k exo Hk. eexists. split; [reflexivity|]. by rewrite length_replicate.
Qed.

Lemma naive_es_contract train :
  es_contract (C := Demo.collaborators) (Demo.Trained "exponential_smoothing" train).
Proof. intros a b. eexists. split; [reflexivity|]. by rewrite length_fmap. Qed.

Lemma naive_bats_contract train n :
  length (s_values train) = n →
  bats_contract (C := Demo.collaborators) (Demo.Trained "tbats" train) n.
Proof.
  intros Hlen. split.
  - by exists (s_values train).
  - intros k Hk. eexists. split; [reflexivity|]. by rewrite length_replicate.
Qed.



(** ** What a fit adds to the instance *)

Section additions.
Context `{C : Collaborators}.

Definition model_types : list string :=
  ["auto_arima"; "exponential_smoothing"; "tbats"; "ensemble"].

(** A candidate without its table of test predictions. *)
Definition summary (c : CandidateModel handle) : float * option handle * string :=
  (CandidateModel.error c, CandidateModel.fit_model c, CandidateModel.model_type c).

(** What the fitters produce: a candidate of one of the four types, which
    carries a fitted model unless it is the ensemble. *)
Definition well_formed (x : float * option handle * string) : Prop :=
  x.2 ∈ model_types ∧ (x.2 = "ensemble" ↔ x.1.2 = None).

(** Between the two worlds the instance differs at most in the tables of its
    candidates. *)
Definition tables_only (w w' : world) : Prop :=
  summary <$> candidate_models (self w') = summary <$> candidate_models (self w)
  ∧ self w' = set_candidate_models (candidate_models (self w')) (self w).

(** What a computation returns when it returns. *)
Definition returns {A} (Q : A → Prop) (m : M A) : Prop :=
  ∀ w a w', m w = (Ok a, w') → Q a.

Lemma set_candidate_models_same s : set_candidate_models (candidate_models s) s = s.
Proof. by destruct s. Qed.

Lemma tables_only_refl w : tables_only w w.
Proof. split; [done|]. by rewrite set_candidate_models_same. Qed.

Lemma tables_only_trans w1 w2 w3 : tables_only w1 w2 → tables_only w2 w3 → tables_only w1 w3.
Proof.
  intros [H1 H1'] [H2 H2']. split; [congruence|]. rewrite H2', H1'. done.
Qed.

Lemma tables_only_anything w w' : anything (self w) → tables_only w w' → anything (self w').
Proof. done. Qed.

Lemma returns_bind {A B} (Q : B → Prop) (m : M A) (f : A → M B) :
  (∀ a, returns Q (f a)) → returns Q (m ≫= f).
Proof.
  intros Hf w b w' H. apply bind_inv in H as [(e & _ & ?)|(a & w1 & _ & H)]; [done|].
  by eapply Hf.
Qed.

Lemma returns_ret {A} (Q : A → Prop) a : Q a → returns Q (mret a).
Proof. intros HQ w a' w' [= <- _]. done. Qed.

Ltac go := respects_go tables_only_refl tables_only_trans tables_only_anything.

Lemma tables_only_log c : respects tables_only anything (log c).
Proof. apply respects_log. intros w. apply (tables_only_refl w). Qed.

Lemma tables_only_dict_set l k v : respects tables_only anything (dict_set l k v).
Proof. intros w r w' _ [= _ <-]. apply (tables_only_refl w). Qed.

Local Hint Resolve tables_only_log tables_only_dict_set : frames.

Lemma tables_only_error_metric d p a : respects tables_only anything (_error_metric d p a).
Proof. unfold _error_metric. go. Qed.

Local Hint Resolve tables_only_error_metric : frames.

Lemma tables_only_auto_arima b : respects tables_only anything (_fit_auto_arima b).
Proof.
  unfold _fit_auto_arima, auto_arima_or_retry, retry_with_ch, call_auto_arima, arima_inputs,
    column_of, df_cols, kwargs.
  go.
Qed.

Lemma tables_only_exponential_smoothing b :
  respects tables_only anything (_fit_exponential_smoothing b).
Proof. unfold _fit_exponential_smoothing, setdefault, column_of, kwargs. go. Qed.

Lemma tables_only_tbats b : respects tables_only anything (_fit_tbats b).
Proof. unfold _fit_tbats, setdefault, column_of, kwargs. go. Qed.

Ltac returns_go :=
  repeat first
    [ simple apply returns_ret
    | simple apply returns_bind; intros ?
    | match goal with
      | |- returns _ (match ?x with _ => _ end) => destruct x
      | |- returns _ (let _ := _ in _) => cbv zeta
      end ].

Lemma returns_auto_arima b :
  returns (λ c, CandidateModel.model_type c = "auto_arima"
                ∧ is_Some (CandidateModel.fit_model c)) (_fit_auto_arima b).
Proof. unfold _fit_auto_arima. returns_go. by split. Qed.

Lemma returns_exponential_smoothing b :
  returns (λ c, CandidateModel.model_type c = "exponential_smoothing"
                ∧ is_Some (CandidateModel.fit_model c)) (_fit_exponential_smoothing b).
Proof. unfold _fit_exponential_smoothing. returns_go. by split. Qed.

Lemma returns_tbats b :
  returns (λ c, CandidateModel.model_type c = "tbats"
                ∧ is_Some (CandidateModel.fit_model c)) (_fit_tbats b).
Proof. unfold _fit_tbats. returns_go. by split. Qed.

Lemma returns_ensemble :
  returns (λ c, CandidateModel.model_type c = "ensemble"
                ∧ CandidateModel.fit_model c = None) _fit_ensemble.
Proof. unfold _fit_ensemble. returns_go. by split. Qed.

Lemma lift_run {A B} (x : result A) (f : A → M B) w :
  (lift x ≫= f) w = match x with Ok a => f a w | Raise e => (Raise e, w) end.
Proof. rewrite bind_run. by destruct x. Qed.

Lemma error_metric_pure d p a w r w' : _error_metric d p a w = (r, w') → w' = w.
Proof.
  unfold _error_metric. rewrite bind_run. cbn [get_self].
  repeat destruct (String.eqb _ _); by intros [= _ <-].
Qed.

Lemma tables_only_ensemble : respects tables_only anything _fit_ensemble.
Proof.
  intros w r w' _. unfold _fit_ensemble. rewrite bind_run. cbn [get_self].
  rewrite lift_run. destruct (reduce _ _) as [ap|e]; [|intros [= _ <-]; apply tables_only_refl].
  rewrite lift_run.
  destruct (mean_of_columns _ _) as [means|e]; [|intros [= _ <-]; apply tables_only_refl].
  rewrite bind_run.
  set (w1 := match candidate_models (self w) with
             | [c] => {| self := set_candidate_models
                                   [with_predictions (df_assign ap "en_test_predictions" means) c]
                                   (self w);
                         store := store w; calls := calls w |}
             | _ => w
             end).
  assert (H1 : tables_only w w1).
  { unfold w1. destruct (candidate_models (self w)) as [|c [|c2 cs]] eqn:E;
      try apply tables_only_refl.
    split; [by rewrite E|done]. }
  assert (Hrun : match candidate_models (self w) with
                 | [c] => modify_self (set_candidate_models
                            [with_predictions (df_assign ap "en_test_predictions" means) c])
                 | _ => mret tt
                 end w = (Ok tt, w1)).
  { unfold w1. by destruct (candidate_models (self w)) as [|c [|c2 cs]]. }
  rewrite Hrun. rewrite bind_run.
  destruct (_error_metric _ _ _ w1) as [[err|e] w2] eqn:E;
    pose proof (error_metric_pure _ _ _ _ _ _ E) as ->; [|by intros [= _ <-]].
  rewrite lift_run. destruct (df_select _ _); by intros [= _ <-].
Qed.


(** The instance after some of the steps of [fit_candidates] on [w0]: the
    candidates of [w0] are all there, followed by one candidate for each
    type of [ts]; nothing else of the instance has changed. *)
Definition grown (w0 : world) (ts : list string) (w : world) : Prop :=
  ∃ added,
    summary <$> candidate_models (self w) = (summary <$> candidate_models (self w0)) ++ added
    ∧ added.*2 = ts
    ∧ Forall well_formed added
    ∧ self w = set_candidate_models (candidate_models (self w)) (self w0).

Lemma grown_start w : grown w [] w.
Proof.
  exists []. rewrite app_nil_r. split; [done|]. split; [done|]. split; [constructor|].
  by rewrite set_candidate_models_same.
Qed.

Lemma grown_tables w0 ts w w' : grown w0 ts w → tables_only w w' → grown w0 ts w'.
Proof.
  intros (added & H1 & H2 & H3 & H4) [H5 H6]. exists added.
  split; [by rewrite H5|]. split; [done|]. split; [done|]. rewrite H6, H4. done.
Qed.

Lemma grown_append w0 ts w c :
  grown w0 ts w → well_formed (summary c) →
  grown w0 (ts ++ [CandidateModel.model_type c])
        {| self := set_candidate_models (candidate_models (self w) ++ [c]) (self w);
           store := store w; calls := calls w |}.
Proof.
  intros (added & H1 & H2 & H3 & H4) Hc. exists (added ++ [summary c]). cbn [self].
  split; [cbn; by rewrite fmap_app, H1, <- app_assoc|].
  split; [by rewrite fmap_app, H2|].
  split; [apply Forall_app; split; [done|by constructor]|].
  cbn. rewrite H4. done.
Qed.

(** One step of [fit_candidates]: fit, append, echo. *)
Lemma block_adds (fitter : M (CandidateModel handle)) t
    (extra : CandidateModel handle → M unit) w0 ts w r w' :
  respects tables_only anything fitter →
  returns (λ c, CandidateModel.model_type c = t ∧ well_formed (summary c)) fitter →
  (∀ c, respects tables_only anything (extra c)) →
  grown w0 ts w →
  (c ← fitter; append_candidate c;; extra c) w = (r, w') →
  grown w0 (ts ++ [t]) w' ∨ (is_ok r = false ∧ grown w0 ts w').
Proof.
  intros Hframe Hret Hextra Hg H.
  apply bind_inv in H as [(e & H & ->)|(c & w1 & H1 & H2)].
  - right. split; [done|]. eapply grown_tables; [exact Hg|]. by eapply Hframe.
  - left. destruct (Hret _ _ _ H1) as [<- Hwf].
    rewrite bind_run in H2. cbn [append_candidate modify_self] in H2.
    eapply grown_tables; [|eapply Hextra; [done|exact H2]].
    apply grown_append; [|done].
    eapply grown_tables; [exact Hg|]. by eapply Hframe.
Qed.

Lemma when_block_adds (b : bool) (fitter : M (CandidateModel handle)) t
    (extra : CandidateModel handle → M unit) w0 ts w r w' :
  respects tables_only anything fitter →
  returns (λ c, CandidateModel.model_type c = t ∧ well_formed (summary c)) fitter →
  (∀ c, respects tables_only anything (extra c)) →
  grown w0 ts w →
  when b (c ← fitter; append_candidate c;; extra c) w = (r, w') →
  grown w0 (ts ++ if b then [t] else []) w'
  ∨ (is_ok r = false ∧ b = true ∧ grown w0 ts w').
Proof.
  intros Hframe Hret Hextra Hg H. destruct b.
  - destruct (block_adds _ _ _ _ _ _ _ _ Hframe Hret Hextra Hg H) as [?|[? ?]]; auto.
  - left. rewrite when_false in H. injection H as _ <-. by rewrite app_nil_r.
Qed.

Lemma well_formed_auto_arima b :
  returns (λ c, CandidateModel.model_type c = "auto_arima" ∧ well_formed (summary c))
          (_fit_auto_arima b).
Proof.
  intros w c w' H. destruct (returns_auto_arima b w c w' H) as [Ht [h Hh]].
  split; [done|]. unfold well_formed, summary. cbn. rewrite Ht, Hh.
  split; [set_solver|]. split; done.
Qed.

Lemma well_formed_exponential_smoothing b :
  returns (λ c, CandidateModel.model_type c = "exponential_smoothing"
                ∧ well_formed (summary c))
          (_fit_exponential_smoothing b).
Proof.
  intros w c w' H. destruct (returns_exponential_smoothing b w c w' H) as [Ht [h Hh]].
  split; [done|]. unfold well_formed, summary. cbn. rewrite Ht, Hh.
  split; [set_solver|]. split; done.
Qed.

Lemma well_formed_tbats b :
  returns (λ c, CandidateModel.model_type c = "tbats" ∧ well_formed (summary c))
          (_fit_tbats b).
Proof.
  intros w c w' H. destruct (returns_tbats b w c w' H) as [Ht [h Hh]].
  split; [done|]. unfold well_formed, summary. cbn. rewrite Ht, Hh.
  split; [set_solver|]. split; done.
Qed.

Lemma well_formed_ensemble :
  returns (λ c, CandidateModel.model_type c = "ensemble" ∧ well_formed (summary c))
          _fit_ensemble.
Proof.
  intros w c w' H. destruct (returns_ensemble w c w' H) as [Ht Hh].
  split; [done|]. unfold well_formed, summary. cbn. rewrite Ht, Hh.
  split; [set_solver|]. split; done.
Qed.

Lemma tables_only_echo (b : bool) name err :
  respects tables_only anything (when b (log (Echo name err))).
Proof. go. Qed.

Lemma tables_only_echo_item (b : bool) (c : CandidateModel handle) :
  respects tables_only anything
    (when b (e ← lift (candidate_getitem c 0); log (Echo "ensemble" e))).
Proof. go. Qed.

(** The types of the candidates that a call of [fit] adds, in the order in
    which it adds them. *)
Definition to_fit (s : AutoTS) : list string :=
  List.filter (λ t, configured t s) model_types.

(** [fit_candidates] adds one candidate for each configured type, in the
    order of [model_types], until a step fails. *)
Lemma fit_candidates_adds d c ex w r w' :
  fit_candidates d c ex w = (r, w') →
  match check_datetime_index d with
  | Some e => r = Raise e ∧ w' = w
  | None =>
      ∃ ts, grown {| self := prepared d c ex (self w); store := store w; calls := calls w |}
                  ts w'
            ∧ ts `prefix_of` to_fit (self w)
            ∧ (is_ok r = true → ts = to_fit (self w))
  end.
Proof.
  unfold fit_candidates. rewrite bind_run, prepare_fit_run.
  destruct (check_datetime_index d) as [e|]; [by intros [= <- <-]|].
  set (w0 := {| self := prepared d c ex (self w); store := store w; calls := calls w |}).
  rewrite bind_run. cbn [get_self]. unfold to_fit, model_types. cbn [List.filter].
  replace (self w0) with (prepared d c ex (self w)) by done.
  rewrite <- !(configured_prepared _ d c ex (self w)).
  set (s := prepared d c ex (self w)).
  intros H.
  apply bind_inv in H as [(e & H & ->)|([] & w1 & H1 & H)].
  { destruct (when_block_adds _ _ _ _ _ _ _ _ _ (tables_only_auto_arima true)
                (well_formed_auto_arima true)
                (λ c, tables_only_echo (verbose s) "auto_arima" (CandidateModel.error c))
                (grown_start w0) H) as [Hg|(_ & Hb & Hg)].
    - exists (if configured "auto_arima" s then ["auto_arima"] else []).
      split; [done|]. split; [|done]. destruct (configured "auto_arima" s);
        [by apply prefix_cons, prefix_nil|apply prefix_nil].
    - exists []. split; [done|]. split; [apply prefix_nil|done]. }
  destruct (when_block_adds _ _ _ _ _ _ _ _ _ (tables_only_auto_arima true)
              (well_formed_auto_arima true)
              (λ c, tables_only_echo (verbose s) "auto_arima" (CandidateModel.error c))
              (grown_start w0) H1) as [Hg1|(? & _)]; [|done].
  cbn [app] in Hg1.
  apply bind_inv in H as [(e & H & ->)|([] & w2 & H2 & H)].
  { destruct (when_block_adds _ _ _ _ _ _ _ _ _ (tables_only_exponential_smoothing true)
                (well_formed_exponential_smoothing true)
                (λ c, tables_only_echo (verbose s) "exponential_smoothing"
                        (CandidateModel.error c))
                Hg1 H) as [Hg|(_ & Hb & Hg)].
    - eexists. split; [exact Hg|]. split; [|done].
      destruct (configured "auto_arima" s), (configured "exponential_smoothing" s),
        (configured "tbats" s), (configured "ensemble" s); cbn;
        repeat first [apply prefix_nil | done | apply prefix_cons].
    - eexists. split; [exact Hg|]. split; [|done].
      destruct (configured "auto_arima" s), (configured "exponential_smoothing" s),
        (configured "tbats" s), (configured "ensemble" s); cbn;
        repeat first [apply prefix_nil | done | apply prefix_cons]. }
  destruct (when_block_adds _ _ _ _ _ _ _ _ _ (tables_only_exponential_smoothing true)
              (well_formed_exponential_smoothing true)
              (λ c, tables_only_echo (verbose s) "exponential_smoothing"
                      (CandidateModel.error c))
              Hg1 H2) as [Hg2|(? & _)]; [|done].
  apply bind_inv in H as [(e & H & ->)|([] & w3 & H3 & H)].
  { destruct (when_block_adds _ _ _ _ _ _ _ _ _ (tables_only_tbats true)
                (well_formed_tbats true)
                (λ c, tables_only_echo (verbose s) "tbats" (CandidateModel.error c))
                Hg2 H) as [Hg|(_ & Hb & Hg)].
    - eexists. split; [exact Hg|]. split; [|done].
      destruct (configured "auto_arima" s), (configured "exponential_smoothing" s),
        (configured "tbats" s), (configured "ensemble" s); cbn;
        repeat first [apply prefix_nil | done | apply prefix_cons].
    - eexists. split; [exact Hg|]. split; [|done].
      destruct (configured "auto_arima" s), (configured "exponential_smoothing" s),
        (configured "tbats" s), (configured "ensemble" s); cbn;
        repeat first [apply prefix_nil | done | apply prefix_cons]. }
  destruct (when_block_adds _ _ _ _ _ _ _ _ _ (tables_only_tbats true)
              (well_formed_tbats true)
              (λ c, tables_only_echo (verbose s) "tbats" (CandidateModel.error c))
              Hg2 H3) as [Hg3|(? & _)]; [|done].
  change (when (configured "ensemble" s)
            (c ← _fit_ensemble; append_candidate c;;
             when (verbose s) (e ← lift (candidate_getitem c 0); log (Echo "ensemble" e)))
            w3 = (r, w')) in H.
  destruct (when_block_adds _ _ _ _ _ _ _ _ _ tables_only_ensemble well_formed_ensemble
              (tables_only_echo_item (verbose s)) Hg3 H) as [Hg|(Hr & Hb & Hg)].
  - eexists. split; [exact Hg|]. split; [|intros _].
    + destruct (configured "auto_arima" s), (configured "exponential_smoothing" s),
        (configured "tbats" s), (configured "ensemble" s); done.
    + destruct (configured "auto_arima" s), (configured "exponential_smoothing" s),
        (configured "tbats" s), (configured "ensemble" s); done.
  - eexists. split; [exact Hg|]. split; [|by rewrite Hr].
    destruct (configured "auto_arima" s), (configured "exponential_smoothing" s),
      (configured "tbats" s), (configured "ensemble" s); cbn;
      repeat first [apply prefix_nil | done | apply prefix_cons].
Qed.

End additions.

(** X2: a call of [fit] that returns has removed no candidate and has added
    one candidate for each configured model type, in the order auto_arima,
    exponential_smoothing, tbats, ensemble: the candidates it ranks are those
    that the instance held before the call, with the error, the fitted model
    and the type they had, followed by the new ones, and the list it leaves
    holds these candidates, in the order of the ranking.  A new candidate
    carries a fitted model unless it is the ensemble.  The list therefore
    grows with every call, and candidates of earlier calls compete with the
    new ones. *)
Theorem fit_adds_one_candidate_per_model `{C : Collaborators} d c ex w w' :
  fit d c ex w = (Ok tt, w') →
  ∃ produced added,
    Permutation (candidate_models (self w')) produced
    ∧ summary <$> produced = (summary <$> candidate_models (self w)) ++ added
    ∧ added.*2 = to_fit (self w)
    ∧ Forall well_formed added
    ∧ length (candidate_models (self w'))
      = length (candidate_models (self w)) + length (to_fit (self w)).
Proof.
  intros H. destruct (fit_ok_inv _ _ _ _ _ H) as (w1 & best & rest & H1 & Hr & ->).
  pose proof (fit_candidates_adds _ _ _ _ _ _ H1) as Hadds.
  destruct (check_datetime_index d); [by destruct Hadds|].
  destruct Hadds as (ts & (added & Hsum & Hts & Hwf & _) & _ & Hfull).
  specialize (Hfull eq_refl). rewrite Hfull in Hts. cbn [self] in Hsum.
  rewrite prepared_candidates in Hsum.
  exists (candidate_models (self w1)), added.
  split; [apply sorted_perm|]. split; [done|]. split; [done|]. split; [done|].
  change (candidate_models (self (retained best w1))) with (ranked w1).
  unfold ranked. rewrite sorted_length.
  rewrite <- (length_fmap summary (candidate_models (self w1))), Hsum, length_app.
  by rewrite length_fmap, <- Hts, length_fmap.
Qed.

Lemma fit_adds_one_candidate_per_model_witness :
  ∃ produced added,
    Permutation
      (candidate_models
         (self (Demo.fitted ["auto_arima"; "exponential_smoothing"; "tbats"; "ensemble"])))
      produced
    ∧ summary <$> produced
      = (summary <$> candidate_models
           (self (Demo.unfitted ["auto_arima"; "exponential_smoothing"; "tbats"; "ensemble"])))
        ++ added
    ∧ added.*2
      = to_fit (self (Demo.unfitted ["auto_arima"; "exponential_smoothing"; "tbats"; "ensemble"]))
    ∧ Forall well_formed added
    ∧ length (candidate_models
                (self (Demo.fitted ["auto_arima"; "exponential_smoothing"; "tbats"; "ensemble"])))
      = length (candidate_models
                  (self (Demo.unfitted
                           ["auto_arima"; "exponential_smoothing"; "tbats"; "ensemble"])))
        + length (to_fit (self (Demo.unfitted
                                  ["auto_arima"; "exponential_smoothing"; "tbats"; "ensemble"]))).
Proof.
  assert (H : fit Demo.sales "sales" NoNames
      (Demo.unfitted ["auto_arima"; "exponential_smoothing"; "tbats"; "ensemble"])
  = (Ok tt, Demo.fitted ["auto_arima"; "exponential_smoothing"; "tbats"; "ensemble"]))
    by (unfold Demo.fitted; apply run_eq; by_vm).
  exact (fit_adds_one_candidate_per_model _ _ _ _ _ H).
Defined.

(** ** What a prediction changes *)

Section active_model.
Context `{C : Collaborators}.

(** The instance and the dictionaries are as they were. *)
Definition self_kept (w w' : world) : Prop := self w' = self w ∧ store w' = store w.

(** At most the attribute [fit_model] has changed. *)
Definition model_only (w w' : world) : Prop :=
  (∃ h, self w' = set_fit_model h (self w)) ∧ store w' = store w.

Definition ensemble_retained (s : AutoTS) : Prop := fit_model_type s = Some "ensemble".

Lemma set_fit_model_same s : set_fit_model (fit_model s) s = s.
Proof. by destruct s. Qed.

Lemma self_kept_refl w : self_kept w w.
Proof. done. Qed.

Lemma self_kept_trans w1 w2 w3 : self_kept w1 w2 → self_kept w2 w3 → self_kept w1 w3.
Proof. intros [? ?] [? ?]. split; congruence. Qed.

Lemma self_kept_anything w w' : anything (self w) → self_kept w w' → anything (self w').
Proof. done. Qed.

Lemma self_kept_model_only w w' : self_kept w w' → model_only w w'.
Proof.
  intros [H1 H2]. split; [|done]. exists (fit_model (self w)).
  by rewrite H1, set_fit_model_same.
Qed.

Lemma model_only_refl w : model_only w w.
Proof. by apply self_kept_model_only. Qed.

Lemma model_only_trans w1 w2 w3 : model_only w1 w2 → model_only w2 w3 → model_only w1 w3.
Proof.
  intros [[h1 H1] H1'] [[h2 H2] H2']. split; [|congruence].
  exists h2. rewrite H2, H1. done.
Qed.

Lemma model_only_ensemble_retained w w' :
  ensemble_retained (self w) → model_only w w' → ensemble_retained (self w').
Proof. intros H [[h ->] _]. exact H. Qed.

Ltac go := respects_go self_kept_refl self_kept_trans self_kept_anything.

Lemma self_kept_log c : respects self_kept anything (log c).
Proof. apply respects_log. intros w. done. Qed.

Local Hint Resolve self_kept_log : frames.

Lemma self_kept_auto_arima a b l ex : respects self_kept anything (_predict_auto_arima a b l ex).
Proof. unfold _predict_auto_arima, data_index, data_get_loc. go. Qed.

Lemma self_kept_exponential_smoothing a b :
  respects self_kept anything (_predict_exponential_smoothing a b).
Proof. unfold _predict_exponential_smoothing. go. Qed.

Lemma self_kept_tbats a b l : respects self_kept anything (_predict_tbats a b l).
Proof. unfold _predict_tbats, data_index. go. Qed.

Lemma self_kept_checks a b ex : respects self_kept anything (predict_checks a b ex).
Proof. unfold predict_checks, as_datetime, data_index. go. Qed.


Lemma model_only_weaken {A} (m : M A) :
  respects self_kept anything m → respects model_only ensemble_retained m.
Proof. intros H w r w' _ Hrun. apply self_kept_model_only. by eapply H. Qed.

Lemma model_only_activate t : respects model_only ensemble_retained (activate t).
Proof.
  intros w r w' _. rewrite activate_run. intros [= _ <-]. split; [|done]. cbn [self].
  destruct (last_of_type t (candidate_models (self w))) as [hm|]; [by exists hm|].
  exists (fit_model (self w)). by rewrite set_fit_model_same.
Qed.

Lemma model_only_reset : respects model_only ensemble_retained (modify_self (set_fit_model None)).
Proof. apply respects_modify_self. intros w _. split; [by exists None|done]. Qed.

Lemma model_only_retype :
  respects model_only ensemble_retained (modify_self (set_fit_model_type (Some "ensemble"))).
Proof.
  apply respects_modify_self. intros w Hw. split; [|done].
  exists (fit_model (self w)). cbn [self]. unfold ensemble_retained in Hw.
  destruct (self w). cbn in *. by rewrite Hw.
Qed.

Lemma model_only_ensemble a b l ex :
  respects model_only ensemble_retained (_predict_ensemble a b l ex).
Proof.
  pose proof (model_only_weaken _ (self_kept_auto_arima a b l ex)).
  pose proof (model_only_weaken _ (self_kept_exponential_smoothing a b)).
  pose proof (model_only_weaken _ (self_kept_tbats a b l)).
  pose proof model_only_activate. pose proof model_only_reset. pose proof model_only_retype.
  unfold _predict_ensemble.
  respects_go model_only_refl model_only_trans model_only_ensemble_retained; auto.
Qed.

(** The world that a computation leaves when it returns. *)
Definition ensures {A} (Q : world → Prop) (m : M A) : Prop :=
  ∀ w a w', m w = (Ok a, w') → Q w'.

Lemma ensures_bind {A B} (Q : world → Prop) (m : M A) (f : A → M B) :
  (∀ a, ensures Q (f a)) → ensures Q (m ≫= f).
Proof.
  intros Hf w b w' H. apply bind_inv in H as [(e & _ & ?)|(a & w1 & _ & H)]; [done|].
  by eapply Hf.
Qed.

(** When the ensemble predictor returns it has put [None] back. *)
Lemma ensemble_resets a b l ex :
  ensures (λ w, fit_model (self w) = None) (_predict_ensemble a b l ex).
Proof.
  unfold _predict_ensemble. do 6 (apply ensures_bind; intros ?).
  intros w x w'. rewrite bind_run. cbn [modify_self]. rewrite bind_run. cbn [modify_self].
  cbn [lift]. by intros [= _ <-].
Qed.

Lemma returning_inv {A} (m : M A) w r w' :
  returning m w = (r, w') → ∃ r', m w = (r', w') ∧ is_ok r' = is_ok r.
Proof.
  unfold returning. rewrite bind_run. destruct (m w) as [[x|e] w1]; intros [= <- <-]; eauto.
Qed.

End active_model.

Lemma predict_model_only `{C : Collaborators} a b ex w r w' :
  predict a b ex w = (r, w') → model_only w w'.
Proof.
  intros H. unfold predict in H.
  apply bind_inv in H as [(e & H & ->)|([[start stop] last] & w1 & H1 & H2)].
  { apply self_kept_model_only. by eapply self_kept_checks. }
  pose proof (self_kept_checks _ _ _ _ _ _ I H1) as Hc.
  eapply model_only_trans; [by apply self_kept_model_only|].
  unfold predict_dispatch in H2. rewrite bind_run in H2. cbn [get_self] in H2.
  repeat case_bool_decide.
  - apply returning_inv in H2 as (r' & H2 & _).
    apply self_kept_model_only. by eapply self_kept_auto_arima.
  - apply returning_inv in H2 as (r' & H2 & _).
    apply self_kept_model_only. by eapply self_kept_exponential_smoothing.
  - apply returning_inv in H2 as (r' & H2 & _).
    apply self_kept_model_only. by eapply self_kept_tbats.
  - apply returning_inv in H2 as (r' & H2 & _). by eapply model_only_ensemble.
  - injection H2 as _ <-. apply model_only_refl.
Qed.

(** X3: a call of [predict], whatever its outcome, changes no dictionary and
    no attribute of the instance other than [fit_model].  When the retained
    type is not the ensemble it changes no attribute at all.  When the
    ensemble is retained, the predictor puts the model of each constituent
    into [fit_model] in turn, and a call that returns has put [None] back. *)
Theorem predict_changes_at_most_the_active_model `{C : Collaborators} a b ex w r w' :
  predict a b ex w = (r, w') →
  store w' = store w
  ∧ (∃ h, self w' = set_fit_model h (self w))
  ∧ (fit_model_type (self w) ≠ Some "ensemble" → self w' = self w)
  ∧ (is_ok r = true → fit_model_type (self w) = Some "ensemble" →
     fit_model (self w') = None).
Proof.
  intros H. unfold predict in H.
  assert (Hkept : ∀ w1 w2, self_kept w w1 → self_kept w1 w2 →
            store w2 = store w
            ∧ (∃ h, self w2 = set_fit_model h (self w))
            ∧ (fit_model_type (self w) ≠ Some "ensemble" → self w2 = self w)).
  { intros w1 w2 H1 H2. destruct (self_kept_trans _ _ _ H1 H2) as [Hs Hst].
    split; [done|]. split; [|done]. exists (fit_model (self w)).
    by rewrite Hs, set_fit_model_same. }
  apply bind_inv in H as [(e & H & ->)|([[start stop] last] & w1 & H1 & H2)].
  { pose proof (self_kept_checks _ _ _ _ _ _ I H) as Hc.
    destruct (Hkept w w' (self_kept_refl w) Hc) as (? & ? & ?). done. }
  pose proof (self_kept_checks _ _ _ _ _ _ I H1) as Hc. pose proof Hc as [Hself Hstore].
  unfold predict_dispatch in H2. rewrite bind_run in H2. cbn [get_self] in H2.
  rewrite Hself in H2.
  repeat case_bool_decide.
  - apply returning_inv in H2 as (r' & H2 & _).
    destruct (Hkept w1 w' Hc (self_kept_auto_arima _ _ _ _ _ _ _ I H2)) as (? & ? & ?).
    repeat split; try done; congruence.
  - apply returning_inv in H2 as (r' & H2 & _).
    destruct (Hkept w1 w' Hc (self_kept_exponential_smoothing _ _ _ _ _ I H2)) as (? & ? & ?).
    repeat split; try done; congruence.
  - apply returning_inv in H2 as (r' & H2 & _).
    destruct (Hkept w1 w' Hc (self_kept_tbats _ _ _ _ _ _ I H2)) as (? & ? & ?).
    repeat split; try done; congruence.
  - apply returning_inv in H2 as (r' & H2 & Hok).
    assert (Hens : ensemble_retained (self w1)) by (unfold ensemble_retained; congruence).
    destruct (model_only_ensemble _ _ _ _ _ _ _ Hens H2) as [[h Hh] Hst].
    split; [congruence|]. split; [exists h; congruence|]. split; [done|].
    intros Hr _. rewrite <- Hok in Hr. destruct r' as [x|]; [|done].
    by apply (ensemble_resets _ _ _ _ _ _ _ H2).
  - injection H2 as _ <-.
    destruct (Hkept w1 w1 Hc (self_kept_refl w1)) as (? & ? & ?).
    repeat split; try done; congruence.
Qed.

Lemma predict_changes_at_most_the_active_model_witness :
  store (predict (DateObj (Demo.month_start 22)) (DateObj (Demo.month_start 25)) NoExog
                 (Demo.fitted ["auto_arima"; "tbats"; "ensemble"])).2
  = store (Demo.fitted ["auto_arima"; "tbats"; "ensemble"])
  ∧ (∃ h, self (predict (DateObj (Demo.month_start 22)) (DateObj (Demo.month_start 25)) NoExog
                        (Demo.fitted ["auto_arima"; "tbats"; "ensemble"])).2
          = set_fit_model h (self (Demo.fitted ["auto_arima"; "tbats"; "ensemble"])))
  ∧ (fit_model_type (self (Demo.fitted ["auto_arima"; "tbats"; "ensemble"])) ≠ Some "ensemble" →
     self (predict (DateObj (Demo.month_start 22)) (DateObj (Demo.month_start 25)) NoExog
                   (Demo.fitted ["auto_arima"; "tbats"; "ensemble"])).2
     = self (Demo.fitted ["auto_arima"; "tbats"; "ensemble"]))
  ∧ (is_ok (predict (DateObj (Demo.month_start 22)) (DateObj (Demo.month_start 25)) NoExog
                    (Demo.fitted ["auto_arima"; "tbats"; "ensemble"])).1 = true →
     fit_model_type (self (Demo.fitted ["auto_arima"; "tbats"; "ensemble"])) = Some "ensemble" →
     fit_model (self (predict (DateObj (Demo.month_start 22)) (DateObj (Demo.month_start 25))
                              NoExog (Demo.fitted ["auto_arima"; "tbats"; "ensemble"])).2)
     = None).
Proof.
  exact (predict_changes_at_most_the_active_model
           (DateObj (Demo.month_start 22)) (DateObj (Demo.month_start 25)) NoExog
           (Demo.fitted ["auto_arima"; "tbats"; "ensemble"]) _ _
           (surjective_pairing _)).
Defined.

(** ** Instances reached through the interface *)

(** The instances that calls of the three public methods lead to, whatever
    the calls return. *)
Inductive history `{C : Collaborators} : world → Prop :=
  | history_init names metric season holdout verb aa es tb st w :
      __init__ names metric season holdout verb aa es tb st = Ok w → history w
  | history_fit w d c ex r w' : history w → fit d c ex w = (r, w') → history w'
  | history_predict w a b ex r w' : history w → predict a b ex w = (r, w') → history w'.

Section histories.
Context `{C : Collaborators}.

(** What holds of every instance that the interface leads to. *)
Record sound (s : AutoTS) : Prop := {
  sound_metric : error_metric s ∈ valid_error_metrics;
  sound_seasonal : is_seasonal s = true ↔ is_Some (seasonal_period s);
  sound_candidates : Forall (λ c, well_formed (summary c)) (candidate_models s);
  sound_fitted :
    is_fitted s = true →
    is_Some (data s) ∧ candidate_models s ≠ []
    ∧ ∃ t, fit_model_type s = Some t ∧ t ∈ model_types;
}.

Lemma init_sound names metric season holdout verb aa es tb st w :
  __init__ names metric season holdout verb aa es tb st = Ok w → sound (self w).
Proof.
  unfold __init__.
  destruct (arg_dict aa st) as [? st1], (arg_dict es st1) as [? st2],
           (arg_dict tb st2) as [? st3].
  destruct (check_models names); [done|].
  case_bool_decide as Hm; [|done]. intros [= <-]. split; cbn.
  - done.
  - destruct season; split; try done; by intros [? ?].
  - constructor.
  - done.
Qed.

Lemma prepared_is_fitted d c ex s : is_fitted (prepared d c ex s) = is_fitted s.
Proof. by destruct ex. Qed.

Lemma prepared_fit_model_type d c ex s : fit_model_type (prepared d c ex s) = fit_model_type s.
Proof. by destruct ex. Qed.

Lemma prepared_data d c ex s : data (prepared d c ex s) = Some d.
Proof. by destruct ex. Qed.

Lemma sound_config s s' :
  config_kept s s' → sound s →
  error_metric s' ∈ valid_error_metrics ∧ (is_seasonal s' = true ↔ is_Some (seasonal_period s')).
Proof. intros [] []. split; congruence. Qed.

(** What a step of [fit_candidates] leaves of a sound instance. *)
Lemma grown_sound d c ex w ts w' :
  sound (self w) →
  grown {| self := prepared d c ex (self w); store := store w; calls := calls w |} ts w' →
  Forall (λ c, well_formed (summary c)) (candidate_models (self w'))
  ∧ is_fitted (self w') = is_fitted (self w)
  ∧ fit_model_type (self w') = fit_model_type (self w)
  ∧ data (self w') = Some d
  ∧ (candidate_models (self w) ≠ [] → candidate_models (self w') ≠ []).
Proof.
  intros Hs (added & Hsum & _ & Hwf & Hself). cbn [self] in *.
  rewrite prepared_candidates in Hsum.
  split; [|rewrite Hself; cbn;
            rewrite prepared_is_fitted, prepared_fit_model_type, prepared_data].
  - apply (Forall_fmap summary well_formed). rewrite Hsum. apply Forall_app. split; [|done].
    apply Forall_fmap. apply Hs.
  - repeat split; try done. intros Hne E.
    rewrite E in Hsum. destruct (candidate_models (self w)); done.
Qed.

Lemma fit_sound d c ex w r w' : sound (self w) → fit d c ex w = (r, w') → sound (self w').
Proof.
  intros Hs H. destruct (fit_kept _ _ _ _ _ _ H) as [Hcfg _].
  destruct (sound_config _ _ Hcfg Hs) as [Hm Hse].
  unfold fit in H. apply bind_inv in H as [(e & H & ->)|([] & w1 & H1 & H2)].
  - pose proof (fit_candidates_adds _ _ _ _ _ _ H) as Hadds.
    destruct (check_datetime_index d); [by destruct Hadds as [_ ->]|].
    destruct Hadds as (ts & Hg & _).
    destruct (grown_sound _ _ _ _ _ _ Hs Hg) as (Hc & Hf & Ht & Hd & Hne).
    split; try done. rewrite Hf, Ht, Hd. intros Hfit.
    destruct (sound_fitted _ Hs Hfit) as (_ & ? & ?). auto.
  - pose proof (fit_candidates_adds _ _ _ _ _ _ H1) as Hadds.
    destruct (check_datetime_index d); [by destruct Hadds|].
    destruct Hadds as (ts & Hg & _).
    destruct (grown_sound _ _ _ _ _ _ Hs Hg) as (Hc & Hf & Ht & Hd & Hne).
    rewrite retain_winner_run in H2. unfold ranked in H2.
    pose proof (sorted_perm CandidateModel.error (candidate_models (self w1))) as Hperm.
    destruct (sorted CandidateModel.error (candidate_models (self w1))) as [|best rest] eqn:E;
      injection H2 as <- <-.
    + split; [done|done|cbn; constructor|cbn].
      rewrite Hf. intros Hfit. destruct (sound_fitted _ Hs Hfit) as (_ & Hne' & _).
      apply Hne in Hne'. apply Permutation_nil in Hperm. done.
    + split; [done|done|cbn; unfold ranked; by rewrite sorted_perm|cbn].
      intros _. rewrite Hd. split; [done|]. split; [unfold ranked; by rewrite E|].
      exists (CandidateModel.model_type best). split; [done|].
      rewrite <- Hperm in Hc. apply Forall_cons in Hc as [[Hin _] _]. exact Hin.
Qed.

Lemma predict_sound a b ex w r w' : sound (self w) → predict a b ex w = (r, w') → sound (self w').
Proof.
  intros Hs H. destruct (predict_model_only _ _ _ _ _ _ H) as [[h ->] _].
  destruct Hs. by split.
Qed.

Lemma history_sound w : history w → sound (self w).
Proof.
  induction 1 as [names metric season holdout verb aa es tb st w Hinit
                 |w d c ex r w' _ IH Hfit|w a b ex r w' _ IH Hp].
  - by eapply init_sound.
  - by eapply fit_sound.
  - by eapply predict_sound.
Qed.

End histories.

Lemma checks_passed_fitted `{C : Collaborators} a b ex w x w' :
  predict_checks a b ex w = (Ok x, w') → is_fitted (self w) = true.
Proof.
  unfold predict_checks. rewrite bind_run. cbn [get_self]. rewrite bind_run.
  by destruct (is_fitted (self w)).
Qed.

Lemma returning_some `{C : Collaborators} {A} (m : M A) w r w' :
  returning m w = (Ok r, w') → is_Some r.
Proof.
  unfold returning. rewrite bind_run. destruct (m w) as [[x|e] w1]; intros [= <- _]; eauto.
Qed.

(** X4: on every instance that the interface leads to, the error metric is
    one of the three names that [__init__] admits, in lower case, so
    [_error_metric] never falls off its end: it is the metric of that
    name, applied to the table, and leaves the instance alone. *)
Theorem error_metric_is_always_defined `{C : Collaborators} w :
  history w →
  error_metric (self w) ∈ ["mase"; "mse"; "rmse"]
  ∧ ∀ d p a,
      _error_metric d p a w
      = (if String.eqb (error_metric (self w)) "mase" then mase d p a
         else if String.eqb (error_metric (self w)) "mse" then mse d p a
         else rmse d p a,
         w).
Proof.
  intros H. apply history_sound in H. destruct H as [Hm _ _ _].
  split; [exact Hm|]. intros d p a. unfold _error_metric. rewrite bind_run. cbn [get_self].
  unfold valid_error_metrics in Hm.
  apply elem_of_cons in Hm as [->|Hm]; [done|].
  apply elem_of_cons in Hm as [->|Hm]; [done|].
  apply elem_of_cons in Hm as [->|Hm]; [done|].
  by apply elem_of_nil in Hm.
Qed.

Lemma error_metric_is_always_defined_witness :
  error_metric (self (Demo.fitted ["exponential_smoothing"; "tbats"])) ∈ ["mase"; "mse"; "rmse"]
  ∧ ∀ d p a,
      _error_metric d p a (Demo.fitted ["exponential_smoothing"; "tbats"])
      = (if String.eqb (error_metric (self (Demo.fitted ["exponential_smoothing"; "tbats"])))
                       "mase"
         then mase d p a
         else if String.eqb (error_metric (self (Demo.fitted ["exponential_smoothing"; "tbats"])))
                            "mse"
         then mse d p a
         else rmse d p a,
         Demo.fitted ["exponential_smoothing"; "tbats"]).
Proof.
  assert (H0 : __init__ ["exponential_smoothing"; "tbats"] "mse" NoSeason 4 false None None None
                        Demo.empty_store
               = Ok (Demo.unfitted ["exponential_smoothing"; "tbats"])).
  { unfold Demo.unfitted. apply world_of_ok. by_vm. }
  exact (error_metric_is_always_defined _
           (history_fit _ Demo.sales "sales" NoNames _ _
              (history_init _ _ _ _ _ _ _ _ _ _ H0) (surjective_pairing _))).
Defined.

(** X5: on every instance that the interface leads to, a call of [predict]
    that returns, returns a series: the retained type is one of the four
    that [predict] knows, so the method never runs off its end, which would
    make it return [None]. *)
Theorem predict_returns_a_series `{C : Collaborators} a b ex w r w' :
  history w → predict a b ex w = (Ok r, w') → is_Some r.
Proof.
  intros Hh H. apply history_sound in Hh. unfold predict in H.
  apply bind_inv in H as [(e & _ & ?)|([[start stop] last] & w1 & H1 & H2)]; [done|].
  pose proof (checks_passed_fitted _ _ _ _ _ _ H1) as Hfit.
  destruct (self_kept_checks _ _ _ _ _ _ I H1) as [Hself _].
  destruct (sound_fitted _ Hh Hfit) as (_ & _ & t & Ht & Hin).
  unfold predict_dispatch in H2. rewrite bind_run in H2. cbn [get_self] in H2.
  rewrite Hself, Ht in H2. unfold model_types in Hin.
  repeat (apply elem_of_cons in Hin as [->|Hin];
          [repeat (case_bool_decide; try done); by eapply returning_some|]).
  by apply elem_of_nil in Hin.
Qed.

Lemma predict_returns_a_series_witness :
  is_Some (Some {| s_index := [Demo.month_start 24]; s_values := [Fin (inject_Z 24)] |}).
Proof.
  assert (H0 : __init__ ["exponential_smoothing"] "mse" NoSeason 4 false None None None
                        Demo.empty_store
               = Ok (Demo.unfitted ["exponential_smoothing"])).
  { unfold Demo.unfitted. apply world_of_ok. by_vm. }
  assert (H1 : predict (DateObj (Demo.month_start 24)) (DateObj (Demo.month_start 24)) NoExog
                       (Demo.fitted ["exponential_smoothing"])
               = (Ok (Some {| s_index := [Demo.month_start 24];
                              s_values := [Fin (inject_Z 24)] |}),
                  (predict (DateObj (Demo.month_start 24)) (DateObj (Demo.month_start 24)) NoExog
                           (Demo.fitted ["exponential_smoothing"])).2)).
  { apply run_eq. by_vm. }
  exact (predict_returns_a_series _ _ _ _ _ _
           (history_fit _ Demo.sales "sales" NoNames _ _
              (history_init _ _ _ _ _ _ _ _ _ _ H0) (surjective_pairing _)) H1).
Defined.

(** ** The holdout split *)

(** X6: [_set_input_data] cuts the frame at one place: the training rows
    followed by the testing rows are the rows of the data, in their order,
    and both parts keep the columns.  With a positive holdout period [h] the
    test set holds the last [h] rows, or all rows when there are fewer.  A
    holdout period of 0 leaves the training set empty and tests on all the
    data, since [-0] is [0]; a negative one makes the first [-h] rows the
    training set. *)
Theorem holdout_split_partitions_the_data `{C : Collaborators} d c w :
  ∃ tr te,
    _set_input_data d c w
    = (Ok tt, {| self := set_input d tr te c (self w); store := store w; calls := calls w |})
    ∧ columns tr = columns d ∧ columns te = columns d
    ∧ rows tr ++ rows te = rows d
    ∧ ((0 < holdout_period (self w))%Z →
       df_len te = Nat.min (Z.to_nat (holdout_period (self w))) (df_len d))
    ∧ (holdout_period (self w) = 0%Z → rows tr = [] ∧ rows te = rows d)
    ∧ ((holdout_period (self w) < 0)%Z →
       df_len tr = Nat.min (Z.to_nat (- holdout_period (self w))) (df_len d)).
Proof.
  exists (iloc_to d (- holdout_period (self w))), (iloc_from d (- holdout_period (self w))).
  split; [done|]. split; [done|]. split; [done|].
  unfold iloc_to, iloc_from, slice_to, slice_from, df_len. cbn [rows].
  split; [apply take_drop|]. unfold slice_bound.
  split; [|split].
  - intros Hh. rewrite length_drop.
    destruct (Z.ltb_spec (- holdout_period (self w)) 0); lia.
  - intros ->. change (- 0)%Z with 0%Z. cbn [Z.ltb Z.compare Z.to_nat].
    by rewrite Nat.min_0_r.
  - intros Hh. rewrite length_take.
    destruct (Z.ltb_spec (- holdout_period (self w)) 0); lia.
Qed.

(** ** The option dictionaries of a new instance *)

Lemma arg_dict_spec a st l st' :
  arg_dict a st = (l, st') →
  (∀ x, a = Some x → x ∈ dom st) →
  l ∈ dom st'
  ∧ dom st ⊆ dom st'
  ∧ (∀ k, k ∈ dom st → st' !! k = st !! k)
  ∧ (∀ x, a = Some x → l = x)
  ∧ (a = None → (l ∉ dom st) ∧ st' !! l = Some ∅).
Proof.
  unfold arg_dict. destruct a as [x|]; intros [= <- <-] Hx.
  - split; [by apply Hx|]. split; [done|]. split; [done|]. split; [by intros ? [= ->]|done].
  - pose proof (is_fresh (dom st)) as Hf.
    split; [set_solver|]. split; [set_solver|].
    split; [|split; [done|]].
    + intros k Hk. apply lookup_insert_ne. intros <-. done.
    + intros _. split; [done|]. apply lookup_insert_eq.
Qed.

(** X7: of the three option dictionaries, [__init__] keeps the one that the
    caller supplies as it is, by reference, and makes a new empty
    dictionary for one that is left out.  A new dictionary is different
    from every dictionary that existed before and from the two other
    dictionaries of the instance, and no existing dictionary is changed:
    instances built with the defaults share no dictionary. *)
Theorem default_dictionaries_are_fresh `{C : Collaborators}
    names metric season holdout verb aa es tb st w :
  (∀ l, aa = Some l ∨ es = Some l ∨ tb = Some l → l ∈ dom st) →
  __init__ names metric season holdout verb aa es tb st = Ok w →
  (∀ l, aa = Some l → auto_arima_args (self w) = l)
  ∧ (∀ l, es = Some l → exponential_smoothing_args (self w) = l)
  ∧ (∀ l, tb = Some l → tbats_args (self w) = l)
  ∧ (aa = None →
     (auto_arima_args (self w) ∉ dom st)
     ∧ store w !! auto_arima_args (self w) = Some ∅
     ∧ auto_arima_args (self w) ≠ exponential_smoothing_args (self w)
     ∧ auto_arima_args (self w) ≠ tbats_args (self w))
  ∧ (es = None →
     (exponential_smoothing_args (self w) ∉ dom st)
     ∧ store w !! exponential_smoothing_args (self w) = Some ∅
     ∧ exponential_smoothing_args (self w) ≠ auto_arima_args (self w)
     ∧ exponential_smoothing_args (self w) ≠ tbats_args (self w))
  ∧ (tb = None →
     (tbats_args (self w) ∉ dom st)
     ∧ store w !! tbats_args (self w) = Some ∅
     ∧ tbats_args (self w) ≠ auto_arima_args (self w)
     ∧ tbats_args (self w) ≠ exponential_smoothing_args (self w))
  ∧ (∀ l, l ∈ dom st → store w !! l = st !! l).
Proof.
  intros Hst. unfold __init__.
  destruct (arg_dict aa st) as [A st1] eqn:E1.
  destruct (arg_dict es st1) as [E st2] eqn:E2.
  destruct (arg_dict tb st2) as [T st3] eqn:E3.
  destruct (arg_dict_spec _ _ _ _ E1) as (A1 & A2 & A3 & A4 & A5); [by eauto|].
  destruct (arg_dict_spec _ _ _ _ E2) as (B1 & B2 & B3 & B4 & B5);
    [intros x Hx; apply A2; by eauto|].
  destruct (arg_dict_spec _ _ _ _ E3) as (C1 & C2 & C3 & C4 & C5);
    [intros x Hx; apply B2, A2; by eauto|].
  destruct (check_models names); [done|]. case_bool_decide; [|done].
  intros [= <-]. cbn [self store auto_arima_args exponential_smoothing_args tbats_args].
  assert (HA : (∃ x, aa = Some x) → A ∈ dom st).
  { intros [x Hx]. rewrite (A4 x Hx). by eauto. }
  assert (HE : (∃ x, es = Some x) → E ∈ dom st).
  { intros [x Hx]. rewrite (B4 x Hx). by eauto. }
  assert (HT : (∃ x, tb = Some x) → T ∈ dom st).
  { intros [x Hx]. rewrite (C4 x Hx). by eauto. }
  split; [exact A4|]. split; [exact B4|]. split; [exact C4|].
  split; [|split; [|split]].
  - intros Ha. destruct (A5 Ha) as [Hn Hl]. split; [done|].
    split; [by rewrite C3, B3 by auto|].
    split.
    + intros ->. destruct es as [x|]; [apply Hn, HE; by eauto|]. by destruct (B5 eq_refl).
    + intros ->. destruct tb as [x|]; [apply Hn, HT; by eauto|].
      destruct (C5 eq_refl) as [Hn' _]. apply Hn'. auto.
  - intros He. destruct (B5 He) as [Hn Hl]. split; [by intros ?; apply Hn, A2|].
    split; [by rewrite C3 by auto|].
    split.
    + intros ->. done.
    + intros ->. destruct tb as [x|]; [apply Hn, A2, HT; by eauto|].
      destruct (C5 eq_refl) as [Hn' _]. apply Hn'. auto.
  - intros Ht. destruct (C5 Ht) as [Hn Hl]. split; [by intros ?; apply Hn, B2, A2|].
    split; [done|].
    split.
    + intros ->. apply Hn. auto.
    + intros ->. done.
  - intros l Hl. rewrite C3, B3, A3 by auto. done.
Qed.

Lemma default_dictionaries_are_fresh_witness :
  auto_arima_args (self (Demo.unfitted ["tbats"])) ≠ tbats_args (self (Demo.unfitted ["tbats"]))
  ∧ store (Demo.unfitted ["tbats"]) !! tbats_args (self (Demo.unfitted ["tbats"])) = Some ∅.
Proof.
  assert (H0 : __init__ ["tbats"] "mse" NoSeason 4 false None None None Demo.empty_store
               = Ok (Demo.unfitted ["tbats"])).
  { unfold Demo.unfitted. apply world_of_ok. by_vm. }
  assert (H1 : ∀ l : loc, None = Some l ∨ None = Some l ∨ None = Some l
                          → l ∈ dom Demo.empty_store).
  { intros l [?|[?|?]]; discriminate. }
  pose proof (default_dictionaries_are_fresh _ _ _ _ _ _ _ _ _ _ H1 H0)
    as (_ & _ & _ & Ha & _ & Ht & _).
  destruct (Ha eq_refl) as (_ & _ & _ & Hat). destruct (Ht eq_refl) as (_ & Hs & _).
  split; [exact Hat|exact Hs].
Defined.

(** ** The arguments of predict *)

(** X8: on a fitted instance [predict] settles what its two dates are before
    it looks at anything else: a start that is neither a string nor a
    datetime is a [TypeError], whatever the end is; with a start that is a
    date, such an end is a [TypeError]; and a string that pandas cannot
    parse fails with the error of [to_datetime].  In all these cases the
    instance is left as it was, and the data are not looked at. *)
Theorem predict_rejects_what_is_no_date `{C : Collaborators} w :
  is_fitted (self w) = true →
  (∀ b ex, predict DateOther b ex w
           = (Raise (Exn TypeError "`start_date` must be a str or datetime-like object"), w))
  ∧ (∀ a start ex, resolves a start →
       predict a DateOther ex w
       = (Raise (Exn TypeError "`end_date` must be a str or datetime-like object"), w))
  ∧ (∀ text e b ex, to_datetime text = Raise e → predict (DateStr text) b ex w = (Raise e, w))
  ∧ (∀ a start text e ex, resolves a start → to_datetime text = Raise e →
       predict a (DateStr text) ex w = (Raise e, w)).
Proof.
  intros Hfit.
  assert (Hstart : ∀ a b ex e, (∀ what, date_of a what = Raise e) ∨
                     date_of a "`start_date` must be a str or datetime-like object" = Raise e →
                     predict a b ex w = (Raise e, w)).
  { intros a b ex e He. unfold predict, predict_checks. rewrite !bind_run. cbn [get_self].
    rewrite Hfit. cbn [negb]. rewrite bind_run, when_false. unfold as_datetime.
    rewrite bind_run. cbn [lift]. destruct He as [He|He]; by rewrite He. }
  assert (Hend : ∀ a start b ex e, resolves a start →
                   date_of b "`end_date` must be a str or datetime-like object" = Raise e →
                   predict a b ex w = (Raise e, w)).
  { intros a start b ex e Ha He. unfold predict, predict_checks. rewrite !bind_run.
    cbn [get_self]. rewrite Hfit. cbn [negb]. rewrite bind_run, when_false. unfold as_datetime.
    rewrite bind_run, Ha. cbn [lift]. rewrite bind_run, He. done. }
  split; [|split; [|split]].
  - intros b ex. apply Hstart. by right.
  - intros a start ex Ha. by eapply Hend.
  - intros text e b ex He. apply Hstart. by left.
  - intros a start text e ex Ha He. by eapply Hend.
Qed.

Lemma predict_rejects_what_is_no_date_witness :
  predict DateOther (DateObj (Demo.month_start 3)) NoExog (Demo.fitted ["exponential_smoothing"])
  = (Raise (Exn TypeError "`start_date` must be a str or datetime-like object"),
     Demo.fitted ["exponential_smoothing"])
  ∧ predict (DateStr "next year") (DateObj (Demo.month_start 3)) NoExog
            (Demo.fitted ["exponential_smoothing"])
    = (Raise (Exn ValueError "Unknown datetime string format"),
       Demo.fitted ["exponential_smoothing"]).
Proof.
  assert (H1 : is_fitted (self (Demo.fitted ["exponential_smoothing"])) = true) by by_vm.
  assert (H2 : to_datetime "next year" = Raise (Exn ValueError "Unknown datetime string format"))
    by by_vm.
  pose proof (predict_rejects_what_is_no_date (Demo.fitted ["exponential_smoothing"]) H1)
    as (Ha & _ & Hc & _).
  split; [exact (Ha _ _)|exact (Hc _ _ _ _ H2)].
Defined.

(** X9: on an instance fitted with exogenous regressors, a request that
    passes the checks of the dates and ends after the last date of the data
    fails with a [ValueError] when no exogenous data come with it, and the
    instance is left as it was.  A request that ends within the data needs
    none, and with exogenous data every such request reaches the predictor
    of the retained model. *)
Theorem forecast_needs_the_exogenous_regressors `{C : Collaborators}
    w d first last a b start stop :
  is_fitted (self w) = true →
  using_exogenous (self w) = true →
  data (self w) = Some d →
  py_index (df_index d) 0 = Ok first →
  py_index (df_index d) (-1) = Ok last →
  resolves a start → resolves b stop →
  dt_leb start stop = true → dt_leb first start = true →
  dt_leb start (add_one_month last) = true →
  (dt_ltb last stop = true →
   predict a b NoExog w
   = (Raise (Exn ValueError "Exogenous regressor(s) must be provided as a dataframe since they were provided during training"), w))
  ∧ (dt_leb stop last = true →
     predict a b NoExog w = predict_dispatch start stop last NoExog w)
  ∧ (∀ exo, exo ≠ NoExog → predict a b exo w = predict_dispatch start stop last exo w).
Proof.
  intros Hfit Hex Hd Hfirst Hlast Ha Hb H1 H2 H3.
  assert (Hrun : ∀ exo, predict_checks a b exo w
            = (if dt_ltb last stop && exogenous_missing exo
               then Raise (Exn ValueError "Exogenous regressor(s) must be provided as a dataframe since they were provided during training")
               else Ok (start, stop, last), w)).
  { intros exo.
    rewrite (predict_checks_run w d first last a b start stop exo Hfit Hd Hfirst Hlast Ha Hb).
    unfold dt_leb in H1, H2, H3. apply negb_true_iff in H1, H2, H3.
    by rewrite H1, H2, H3, Hex. }
  split; [|split].
  - intros Hlt. unfold predict. apply bind_raise. by rewrite Hrun, Hlt.
  - intros Hle. unfold predict. unfold dt_leb in Hle. apply negb_true_iff in Hle.
    rewrite (bind_ok _ _ _ (start, stop, last) w); [done|]. by rewrite Hrun, Hle.
  - intros exo Hexo. unfold predict.
    rewrite (bind_ok _ _ _ (start, stop, last) w); [done|]. rewrite Hrun.
    destruct exo; [done| |]; cbn; by rewrite andb_false_r.
Qed.

(** [AutoTS(model_names=['auto_arima'], error_metric='mse')] after
    [fit(sales, 'sales', exogenous='sales')]. *)
Definition fitted_with_regressor : world (C := Demo.collaborators) :=
  (fit Demo.sales "sales" (OneName "sales") (Demo.unfitted ["auto_arima"])).2.

Lemma forecast_needs_the_exogenous_regressors_witness :
  predict (DateObj (Demo.month_start 22)) (DateObj (Demo.month_start 25)) NoExog
          fitted_with_regressor
  = (Raise (Exn ValueError "Exogenous regressor(s) must be provided as a dataframe since they were provided during training"),
     fitted_with_regressor)
  ∧ predict (DateObj (Demo.month_start 20)) (DateObj (Demo.month_start 22)) NoExog
            fitted_with_regressor
    = predict_dispatch (Demo.month_start 20) (Demo.month_start 22) (Demo.month_start 23) NoExog
                       fitted_with_regressor.
Proof.
  assert (H1 : is_fitted (self fitted_with_regressor) = true) by by_vm.
  assert (H2 : using_exogenous (self fitted_with_regressor) = true) by by_vm.
  assert (H3 : data (self fitted_with_regressor) = Some Demo.sales) by by_vm.
  assert (H4 : py_index (df_index Demo.sales) 0 = Ok (Demo.month_start 0)) by by_vm.
  assert (H5 : py_index (df_index Demo.sales) (-1) = Ok (Demo.month_start 23)) by by_vm.
  assert (H6 : dt_leb (Demo.month_start 22) (Demo.month_start 25) = true) by by_vm.
  assert (H7 : dt_leb (Demo.month_start 0) (Demo.month_start 22) = true) by by_vm.
  assert (H8 : dt_leb (Demo.month_start 22) (add_one_month (Demo.month_start 23)) = true)
    by by_vm.
  assert (H9 : dt_ltb (Demo.month_start 23) (Demo.month_start 25) = true) by by_vm.
  assert (G6 : dt_leb (Demo.month_start 20) (Demo.month_start 22) = true) by by_vm.
  assert (G7 : dt_leb (Demo.month_start 0) (Demo.month_start 20) = true) by by_vm.
  assert (G8 : dt_leb (Demo.month_start 20) (add_one_month (Demo.month_start 23)) = true)
    by by_vm.
  assert (G9 : dt_leb (Demo.month_start 22) (Demo.month_start 23) = true) by by_vm.
  split.
  - exact (proj1 (forecast_needs_the_exogenous_regressors fitted_with_regressor Demo.sales
                    (Demo.month_start 0) (Demo.month_start 23)
                    (DateObj (Demo.month_start 22)) (DateObj (Demo.month_start 25))
                    (Demo.month_start 22) (Demo.month_start 25)
                    H1 H2 H3 H4 H5 (λ _, eq_refl) (λ _, eq_refl) H6 H7 H8) H9).
  - exact (proj1 (proj2 (forecast_needs_the_exogenous_regressors fitted_with_regressor Demo.sales
                    (Demo.month_start 0) (Demo.month_start 23)
                    (DateObj (Demo.month_start 20)) (DateObj (Demo.month_start 22))
                    (Demo.month_start 20) (Demo.month_start 22)
                    H1 H2 H3 H4 H5 (λ _, eq_refl) (λ _, eq_refl) G6 G7 G8)) G9).
Defined.

(** ** Requests off the labels of the data *)

Lemma get_loc_missing idx t :
  t ∉ idx → get_loc idx t = Raise (Exn KeyError "timestamp not in index").
Proof.
  intros Hnot. unfold get_loc. destruct (list_find _ _) as [[i t']|] eqn:E; [|done].
  apply list_find_Some in E as (Hi & -> & _). exfalso. apply Hnot.
  by eapply list_elem_of_lookup_2.
Qed.

Lemma get_loc_present idx t : t ∈ idx → ∃ i, get_loc idx t = Ok i.
Proof.
  intros Hin. unfold get_loc. destruct (list_find _ _) as [[i t']|] eqn:E; [by eauto|].
  apply list_find_None in E. rewrite Forall_forall in E. by destruct (E t Hin).
Qed.

(** X10: with a retained auto_arima model, the bounds of the part of a
    request that lies within the data must be labels of the data.  A
    request that passes the checks of [predict] and starts before the last
    date of the data at a time that is no label, a day within a month for
    one, fails with the [KeyError] of [get_loc]; so does a request that
    starts at a label and ends, within the data, at a time that is no
    label.  No call of the model is made and the instance is left as it
    was. *)
Theorem in_sample_bounds_must_be_labels `{C : Collaborators}
    w d first last a b start stop exo :
  is_fitted (self w) = true →
  fit_model_type (self w) = Some "auto_arima" →
  data (self w) = Some d →
  py_index (df_index d) 0 = Ok first →
  py_index (df_index d) (-1) = Ok last →
  resolves a start → resolves b stop →
  dt_leb start stop = true → dt_leb first start = true →
  dt_ltb start last = true →
  using_exogenous (self w) = false ∨ exo ≠ NoExog →
  (start ∉ df_index d →
   predict a b exo w = (Raise (Exn KeyError "timestamp not in index"), w))
  ∧ (start ∈ df_index d → dt_leb stop last = true → stop ∉ df_index d →
     predict a b exo w = (Raise (Exn KeyError "timestamp not in index"), w)).
Proof.
  intros Hfit Htype Hd Hfirst Hlast Ha Hb H1 H2 H3 Hexo.
  assert (Hchecks : predict_checks a b exo w = (Ok (start, stop, last), w)).
  { rewrite (predict_checks_run w d first last a b start stop exo Hfit Hd Hfirst Hlast Ha Hb).
    unfold dt_leb in H1, H2. apply negb_true_iff in H1, H2. rewrite H1, H2.
    assert (dt_ltb (add_one_month last) start = false) as ->.
    { apply not_true_is_false. intros Hlt.
      pose proof (dt_ltb_trans _ _ _ (dt_ltb_trans _ _ _ H3 (dt_ltb_add_one_month last)) Hlt)
        as Hc.
      by rewrite dt_ltb_irrefl in Hc. }
    destruct Hexo as [->|Hexo]; [done|]. destruct exo; [done| |]; cbn; by rewrite andb_false_r. }
  assert (Hloc : ∀ t, data_get_loc t w = (get_loc (df_index d) t, w)).
  { intros t. unfold data_get_loc. rewrite bind_run. cbn [get_self]. by rewrite Hd. }
  assert (Hrun : predict a b exo w
                 = returning (_predict_auto_arima start stop last
                                (match exo with
                                 | NoExog => None
                                 | ExogFrame d0 => Some d0
                                 | ExogSeries name x => Some (frame_of_series name x)
                                 end)) w).
  { unfold predict. rewrite (bind_ok _ _ _ _ _ Hchecks). unfold predict_dispatch.
    rewrite bind_run. cbn [get_self]. rewrite Htype. by rewrite bool_decide_eq_true_2. }
  rewrite Hrun. unfold returning, _predict_auto_arima.
  run. rewrite (data_index_run _ _ _ _ Hd Hlast). rewrite H3.
  cbn [andb].
  split.
  - intros Hnot. destruct (dt_leb stop last) eqn:Hle.
    + rewrite !bind_run, Hloc, get_loc_missing by done. done.
    + unfold dt_leb in Hle. apply negb_false_iff in Hle. rewrite Hle.
      rewrite !bind_run, Hloc, get_loc_missing by done. done.
  - intros Hin Hle Hnot. rewrite Hle.
    destruct (get_loc_present _ _ Hin) as [i Hi].
    rewrite !bind_run, Hloc, Hi. rewrite !bind_run, Hloc, get_loc_missing by done. done.
Qed.

Lemma in_sample_bounds_must_be_labels_witness :
  predict (DateObj {| year := 2020; month := 3; day := 15; tod := 0 |})
          (DateObj (Demo.month_start 5)) NoExog (Demo.fitted ["auto_arima"])
  = (Raise (Exn KeyError "timestamp not in index"), Demo.fitted ["auto_arima"]).
Proof.
  assert (H1 : is_fitted (self (Demo.fitted ["auto_arima"])) = true) by by_vm.
  assert (H2 : fit_model_type (self (Demo.fitted ["auto_arima"])) = Some "auto_arima") by by_vm.
  assert (H3 : data (self (Demo.fitted ["auto_arima"])) = Some Demo.sales) by by_vm.
  assert (H4 : py_index (df_index Demo.sales) 0 = Ok (Demo.month_start 0)) by by_vm.
  assert (H5 : py_index (df_index Demo.sales) (-1) = Ok (Demo.month_start 23)) by by_vm.
  assert (H6 : dt_leb {| year := 2020; month := 3; day := 15; tod := 0 |} (Demo.month_start 5)
               = true) by by_vm.
  assert (H7 : dt_leb (Demo.month_start 0) {| year := 2020; month := 3; day := 15; tod := 0 |}
               = true) by by_vm.
  assert (H8 : dt_ltb {| year := 2020; month := 3; day := 15; tod := 0 |} (Demo.month_start 23)
               = true) by by_vm.
  assert (H9 : using_exogenous (self (Demo.fitted ["auto_arima"])) = false) by by_vm.
  assert (H10 : {| year := 2020; month := 3; day := 15; tod := 0 |} ∉ df_index Demo.sales).
  { assert (E : bool_decide ({| year := 2020; month := 3; day := 15; tod := 0 |}
                             ∉ df_index Demo.sales) = true) by by_vm.
    exact (bool_decide_eq_true_1 _ E). }
  exact (proj1 (in_sample_bounds_must_be_labels (Demo.fitted ["auto_arima"]) Demo.sales
                  (Demo.month_start 0) (Demo.month_start 23)
                  (DateObj {| year := 2020; month := 3; day := 15; tod := 0 |})
                  (DateObj (Demo.month_start 5))
                  {| year := 2020; month := 3; day := 15; tod := 0 |} (Demo.month_start 5) NoExog
                  H1 H2 H3 H4 H5 (λ _, eq_refl) (λ _, eq_refl) H6 H7 H8 (or_introl H9)) H10).
Defined.

(** ** The inputs of a fit *)

(** X11: once the index of the frame has passed its check, a call of [fit]
    leaves the frame, its split and the name of the series column on the
    instance, whether the call returns or raises later on.  Names of
    exogenous columns replace the earlier ones and switch the regressors
    on; a call without such names keeps what an earlier call has set, so
    that regressors stay in use until other names are given.  A frame that
    fails the check changes nothing. *)
Theorem fit_records_its_inputs `{C : Collaborators} d c ex w r w' :
  fit d c ex w = (r, w') →
  match check_datetime_index d with
  | Some e => r = Raise e ∧ w' = w
  | None =>
      data (self w') = Some d
      ∧ training_data (self w') = Some (iloc_to d (- holdout_period (self w)))
      ∧ testing_data (self w') = Some (iloc_from d (- holdout_period (self w)))
      ∧ series_column_name (self w') = Some c
      ∧ using_exogenous (self w')
        = match ex with NoNames => using_exogenous (self w) | _ => true end
      ∧ exogenous (self w')
        = match ex with
          | NoNames => exogenous (self w)
          | OneName x => Some [x]
          | Names xs => Some xs
          end
  end.
Proof.
  unfold fit. intros H.
  apply bind_inv in H as [(e & H & ->)|([] & w1 & H1 & H2)].
  - pose proof (fit_candidates_adds _ _ _ _ _ _ H) as Hadds.
    destruct (check_datetime_index d); [done|].
    destruct Hadds as (ts & (added & _ & _ & _ & Hself) & _).
    rewrite Hself. cbn. by destruct ex.
  - pose proof (fit_candidates_adds _ _ _ _ _ _ H1) as Hadds.
    destruct (check_datetime_index d); [by destruct Hadds|].
    destruct Hadds as (ts & (added & _ & _ & _ & Hself) & _).
    rewrite retain_winner_run in H2.
    destruct (ranked w1); injection H2 as <- <-; cbn; rewrite Hself; cbn; by destruct ex.
Qed.

Lemma fit_records_its_inputs_witness :
  match check_datetime_index Demo.sales with
  | Some e => (fit Demo.sales "sales" (OneName "sales") (Demo.unfitted ["auto_arima"])).1 = Raise e
              ∧ fitted_with_regressor = Demo.unfitted ["auto_arima"]
  | None =>
      data (self fitted_with_regressor) = Some Demo.sales
      ∧ training_data (self fitted_with_regressor)
        = Some (iloc_to Demo.sales (- holdout_period (self (Demo.unfitted ["auto_arima"]))))
      ∧ testing_data (self fitted_with_regressor)
        = Some (iloc_from Demo.sales (- holdout_period (self (Demo.unfitted ["auto_arima"]))))
      ∧ series_column_name (self fitted_with_regressor) = Some "sales"
      ∧ using_exogenous (self fitted_with_regressor) = true
      ∧ exogenous (self fitted_with_regressor) = Some ["sales"]
  end.
Proof.
  exact (fit_records_its_inputs Demo.sales "sales" (OneName "sales")
           (Demo.unfitted ["auto_arima"]) _ _ (surjective_pairing _)).
Defined.

(** ** Options that repeat an argument of the call *)

Lemma col_pos_present c cols : c ∈ cols → is_Some (col_pos c cols).
Proof.
  induction cols as [|c' cols IH]; [by intros ?%elem_of_nil|].
  intros Hin. cbn [col_pos]. destruct (String.eqb_spec c c') as [->|Hne]; [by eauto|].
  apply elem_of_cons in Hin as [?|Hin]; [done|]. destruct (IH Hin) as [p ->]. by eauto.
Qed.

Lemma column_of_present `{C : Collaborators} d c w :
  c ∈ columns d → ∃ y, column_of (Some d) (Some c) w = (Ok y, w).
Proof.
  intros Hin. unfold column_of. rewrite bind_run. cbn. unfold df_col.
  destruct (col_pos_present _ _ Hin) as [p ->]. by eauto.
Qed.

(** X12: an option of auto_arima that repeats an argument which the program
    passes itself makes [fit] fail with a [TypeError] before the library is
    called.  The handler of the [ValueError] does not catch it: there is no
    second attempt, the option dictionary is not written to, and nothing
    is logged.  The instance keeps the new data and is not marked fitted. *)
Theorem reserved_option_fails_the_fit `{C : Collaborators} d c w k :
  check_datetime_index d = None →
  configured "auto_arima" (self w) = true →
  using_exogenous (self w) = false →
  seasonal_period (self w) ≠ Some [] →
  c ∈ columns d →
  k ∈ arima_named →
  is_Some (dict_at (store w) (auto_arima_args (self w)) !! k) →
  fit d c NoNames w
  = (Raise (Exn TypeError "got multiple values for keyword argument"),
     {| self := prepared d c NoNames (self w); store := store w; calls := calls w |}).
Proof.
  intros Hcheck Haa Hexo Hseason Hc Hk Hset.
  set (w0 := {| self := prepared d c NoNames (self w); store := store w; calls := calls w |}).
  unfold fit. apply bind_raise. unfold fit_candidates.
  rewrite bind_run, prepare_fit_run, Hcheck. fold w0.
  rewrite bind_run. cbn [get_self]. apply bind_raise.
  replace (self w0) with (prepared d c NoNames (self w)) by done.
  rewrite configured_prepared, Haa, when_true. apply bind_raise.
  assert (Hin : ∃ m, arima_inputs true w0 = (Ok (Some d, None, None, m), w0)).
  { unfold arima_inputs. rewrite bind_run. cbn [get_self].
    replace (self w0) with (prepared d c NoNames (self w)) by done.
    cbn [prepared using_exogenous seasonal_period data set_input]. rewrite Hexo.
    rewrite bind_run. cbn [mret M_ret]. rewrite bind_run.
    destruct (seasonal_period (self w)) as [[|p ps]|]; [done| |]; cbn; by eauto. }
  destruct Hin as [m Hin]. unfold _fit_auto_arima. rewrite (bind_ok _ _ _ _ _ Hin).
  apply bind_raise. unfold auto_arima_or_retry, try_except_ValueError.
  rewrite call_auto_arima_run.
  destruct (column_of_present d c w0 Hc) as [y Hy].
  replace (series_column_name (self w0)) with (Some c) by done. rewrite Hy.
  cbn zeta. rewrite bool_decide_eq_true_2; [done|].
  apply Exists_exists. exists k. split; [done|]. exact Hset.
Qed.

(** [AutoTS(model_names=['auto_arima'], error_metric='mse',
    auto_arima_args={'seasonal': False})] *)
Definition seasonal_given : world (C := Demo.collaborators) :=
  Demo.world_of (__init__ ["auto_arima"] "mse" NoSeason 4 false (Some 1%positive) None None
                          {[ 1%positive := {[ "seasonal" := PBool false ]} ]}).

Lemma reserved_option_fails_the_fit_witness :
  fit Demo.sales "sales" NoNames seasonal_given
  = (Raise (Exn TypeError "got multiple values for keyword argument"),
     {| self := prepared Demo.sales "sales" NoNames (self seasonal_given);
        store := store seasonal_given; calls := calls seasonal_given |}).
Proof.
  assert (H1 : check_datetime_index Demo.sales = None) by by_vm.
  assert (H2 : configured "auto_arima" (self seasonal_given) = true) by by_vm.
  assert (H3 : using_exogenous (self seasonal_given) = false) by by_vm.
  assert (H4 : seasonal_period (self seasonal_given) = None) by by_vm.
  assert (H5 : bool_decide ("sales" ∈ columns Demo.sales) = true) by by_vm.
  assert (H6 : bool_decide ("seasonal" ∈ arima_named) = true) by by_vm.
  assert (H7 : dict_at (store seasonal_given) (auto_arima_args (self seasonal_given))
               !! "seasonal" = Some (PBool false)) by by_vm.
  exact (reserved_option_fails_the_fit Demo.sales "sales" seasonal_given "seasonal"
           H1 H2 H3 (λ E, eq_ind None (λ o, match o with None => True | Some _ => False end)
                            I _ (eq_trans (eq_sym H4) E))
           (bool_decide_eq_true_1 _ H5) (bool_decide_eq_true_1 _ H6)
           (ex_intro _ (PBool false) H7)).
Defined.

(** ** The regressors of a request that runs over the end of the data *)

(** X13: for a request that starts within the data and ends after them, the
    auto_arima predictor hands the exogenous data that come with the
    request neither to the retrieval of the fitted values nor to the
    forecast: the outcome is the one without exogenous data, whatever the
    request carries, although [predict] insists on them. *)
Theorem straddling_request_drops_the_regressors `{C : Collaborators}
    w d last start stop exo :
  data (self w) = Some d →
  py_index (df_index d) (-1) = Ok last →
  dt_ltb start last = true → dt_ltb last stop = true →
  _predict_auto_arima start stop last exo w = _predict_auto_arima start stop last None w
  ∧ ∀ i h, get_loc (df_index d) start = Ok i → fit_model (self w) = Some h →
      _predict_auto_arima start stop last exo w
      = (match arima_predict_in_sample h i None None with
         | Ok fitted =>
             match arima_predict h (months_between last stop) None with
             | Ok forecasts => series_of_array (date_range start stop) (fitted ++ forecasts)
             | Raise e => Raise e
             end
         | Raise e => Raise e
         end,
         {| self := self w; store := store w;
            calls := calls w ++ [CallArimaPredictInSample i None]
                     ++ match arima_predict_in_sample h i None None with
                        | Ok _ => [CallArimaPredict (months_between last stop)]
                        | Raise _ => []
                        end |}).
Proof.
  intros Hd Hlast H1 H2.
  assert (Hle : dt_leb stop last = false) by (unfold dt_leb; by rewrite H2).
  assert (Hrun : ∀ ex, _predict_auto_arima start stop last ex w
    = (i ← data_get_loc start;
       log (CallArimaPredictInSample i None);;
       in_sample_preds ← on_handle (λ h, arima_predict_in_sample h i None None)
                                   (fit_model (self w));
       log (CallArimaPredict (months_between last stop));;
       out_of_sample_preds ← on_handle (λ h, arima_predict h (months_between last stop) None)
                                       (fit_model (self w));
       lift (series_of_array (date_range start stop)
                             (in_sample_preds ++ out_of_sample_preds))) w).
  { intros ex. unfold _predict_auto_arima. rewrite bind_run. cbn [get_self].
    rewrite bind_run, (data_index_run _ _ _ _ Hd Hlast). rewrite H1, H2, Hle. cbn [andb].
    rewrite !bind_run. destruct (data_get_loc start w) as [[i|e] w1]; [|done].
    rewrite !bind_run. destruct (log _ w1) as [[[]|e] w2]; [|done].
    rewrite !bind_run. destruct (on_handle _ _ w2) as [[l1|e] w3]; [|done].
    rewrite !bind_run. destruct (log _ w3) as [[[]|e] w4]; [|done].
    rewrite !bind_run. destruct (on_handle _ _ w4) as [[l2|e] w5]; [|done].
    done. }
  split; [by rewrite !Hrun|].
  intros i h Hi Hh. rewrite Hrun.
  assert (Hloc : data_get_loc start w = (Ok i, w)).
  { unfold data_get_loc. rewrite bind_run. cbn [get_self]. rewrite Hd.
    rewrite bind_run. cbn [attr_of mret M_ret lift]. by rewrite Hi. }
  rewrite bind_run, Hloc. run. cbn [self]. rewrite Hh. run.
  destruct (arima_predict_in_sample h i None None) as [l1|e].
  - run. destruct (arima_predict h (months_between last stop) None) as [l2|e].
    + run. cbn. by rewrite <- app_assoc.
    + cbn. by rewrite <- app_assoc.
  - done.
Qed.

Lemma straddling_request_drops_the_regressors_witness :
  _predict_auto_arima (Demo.month_start 22) (Demo.month_start 25) (Demo.month_start 23)
                      (Some Demo.sales) fitted_with_regressor
  = _predict_auto_arima (Demo.month_start 22) (Demo.month_start 25) (Demo.month_start 23)
                        None fitted_with_regressor.
Proof.
  assert (H1 : data (self fitted_with_regressor) = Some Demo.sales) by by_vm.
  assert (H2 : py_index (df_index Demo.sales) (-1) = Ok (Demo.month_start 23)) by by_vm.
  assert (H3 : dt_ltb (Demo.month_start 22) (Demo.month_start 23) = true) by by_vm.
  assert (H4 : dt_ltb (Demo.month_start 23) (Demo.month_start 25) = true) by by_vm.
  exact (proj1 (straddling_request_drops_the_regressors fitted_with_regressor Demo.sales
                  (Demo.month_start 23) (Demo.month_start 22) (Demo.month_start 25)
                  (Some Demo.sales) H1 H2 H3 H4)).
Defined.

(** ** The ensemble predictor with fewer than two models *)

Section few_constituents.
Context `{C : Collaborators}.

Lemma constituent_run t name (P : M Series) w :
  (activate t;; preds ← P; mret [frame_of_series name preds]) w
  = match P (activate t w).2 with
    | (Ok preds, w') => (Ok [frame_of_series name preds], w')
    | (Raise e, w') => (Raise e, w')
    end.
Proof. rewrite bind_run, activate_run. cbn [snd]. rewrite bind_run. by destruct (P _) as [[]]. Qed.

Lemma bind_mret {A B} (x : A) (f : A → M B) w : (mret x ≫= f) w = f x w.
Proof. done. Qed.

Lemma single_table_fails (f : DataFrame) (k : DataFrame → M Series) w :
  ∃ e w', (all_predictions ← lift (reduce (λ left right, Ok (merge left right)) [f]);
           when (bool_decide (length [f] = 1))
                (raise ValueError "No axis named columns for object type Series");;
           k all_predictions) w = (Raise e, w').
Proof. rewrite bind_run. cbn. by eauto. Qed.

End few_constituents.

(** X14: the ensemble predictor needs two of the three other model types in
    the configuration.  With none it fails on the reduction of an empty
    list, before anything is changed; with one, the predictions of that
    model come back from the reduction as the series they are, and the
    mean over columns fails.  It returns in neither case. *)
Theorem ensemble_prediction_needs_two_models `{C : Collaborators} a b l ex w :
  constituents (self w) < 2 →
  (∃ e w', _predict_ensemble a b l ex w = (Raise e, w'))
  ∧ (constituents (self w) = 0 →
     _predict_ensemble a b l ex w
     = (Raise (Exn TypeError "reduce() of empty iterable with no initial value"), w)).
Proof.
  unfold constituents. cbn [List.filter]. intros Hlt.
  unfold _predict_ensemble. rewrite bind_run. cbn [get_self].
  destruct (configured "auto_arima" (self w)) eqn:E1,
           (configured "exponential_smoothing" (self w)) eqn:E2,
           (configured "tbats" (self w)) eqn:E3; cbn [length] in Hlt; try lia.
  - split; [|done]. rewrite bind_run, constituent_run.
    destruct (_predict_auto_arima a b l ex _) as [[preds|e] w1]; [|by eauto].
    rewrite !bind_mret. apply single_table_fails.
  - split; [|done]. rewrite bind_mret, bind_run, constituent_run.
    destruct (_predict_exponential_smoothing a b _) as [[preds|e] w1]; [|by eauto].
    rewrite !bind_mret. apply single_table_fails.
  - split; [|done]. rewrite !bind_mret, bind_run, constituent_run.
    destruct (_predict_tbats a b l _) as [[preds|e] w1]; [|by eauto].
    apply single_table_fails.
  - split; [by eauto|]. intros _. done.
Qed.

Lemma ensemble_prediction_needs_two_models_witness :
  ∃ e w',
    _predict_ensemble (Demo.month_start 22) (Demo.month_start 25) (Demo.month_start 23) None
                      (Demo.fitted ["tbats"; "ensemble"])
    = (Raise e, w').
Proof.
  assert (E : constituents (self (Demo.fitted ["tbats"; "ensemble"])) = 1) by by_vm.
  exact (proj1 (ensemble_prediction_needs_two_models
                  (Demo.month_start 22) (Demo.month_start 25) (Demo.month_start 23) None
                  (Demo.fitted ["tbats"; "ensemble"])
                  (eq_ind_r (λ n, n < 2) (le_n 2) E))).
Defined.

(** ** Fits that have nothing to rank *)

(** X15: when none of the four model types is configured and the instance
    holds no candidate, [fit] passes the check of the index, takes the
    data, fits nothing, and fails on the first element of the empty
    ranking with an [IndexError]; the instance is not marked fitted. *)
Theorem fit_without_models_is_index_error `{C : Collaborators} d c ex w :
  check_datetime_index d = None →
  to_fit (self w) = [] →
  candidate_models (self w) = [] →
  fit d c ex w
  = (Raise (Exn IndexError "index out of bounds"),
     {| self := set_candidate_models [] (prepared d c ex (self w));
        store := store w; calls := calls w |})
  ∧ is_fitted (set_candidate_models [] (prepared d c ex (self w))) = is_fitted (self w).
Proof.
  intros Hcheck Hnone Hcs. unfold to_fit, model_types in Hnone. cbn [List.filter] in Hnone.
  destruct (configured "auto_arima" (self w)) eqn:E1; [done|].
  destruct (configured "exponential_smoothing" (self w)) eqn:E2; [done|].
  destruct (configured "tbats" (self w)) eqn:E3; [done|].
  destruct (configured "ensemble" (self w)) eqn:E4; [done|].
  split; [|by destruct ex].
  set (w0 := {| self := prepared d c ex (self w); store := store w; calls := calls w |}).
  assert (H0 : fit_candidates d c ex w = (Ok tt, w0)).
  { unfold fit_candidates. rewrite bind_run, prepare_fit_run, Hcheck. fold w0.
    rewrite bind_run. cbn [get_self].
    replace (self w0) with (prepared d c ex (self w)) by done.
    rewrite !configured_prepared, E1, E2, E3, E4. done. }
  unfold fit. rewrite (bind_ok _ _ _ _ _ H0), retain_winner_run. unfold ranked.
  replace (candidate_models (self w0)) with (candidate_models (self w))
    by (symmetry; apply prepared_candidates).
  rewrite Hcs. done.
Qed.

Lemma fit_without_models_is_index_error_witness :
  fit Demo.sales "sales" NoNames (Demo.unfitted [])
  = (Raise (Exn IndexError "index out of bounds"),
     {| self := set_candidate_models [] (prepared Demo.sales "sales" NoNames
                                                  (self (Demo.unfitted [])));
        store := store (Demo.unfitted []); calls := calls (Demo.unfitted []) |})
  ∧ is_fitted (set_candidate_models [] (prepared Demo.sales "sales" NoNames
                                                 (self (Demo.unfitted []))))
    = is_fitted (self (Demo.unfitted [])).
Proof.
  assert (H1 : check_datetime_index Demo.sales = None) by by_vm.
  assert (H2 : to_fit (self (Demo.unfitted [])) = []) by by_vm.
  assert (H3 : candidate_models (self (Demo.unfitted [])) = []) by by_vm.
  exact (fit_without_models_is_index_error Demo.sales "sales" NoNames (Demo.unfitted [])
           H1 H2 H3).
Defined.

(** ** A seasonal period without entries *)

(** X16: a list of seasonal periods without an entry makes the instance
    seasonal, and the first model that takes the first period of the list
    fails with an [IndexError]: auto_arima before anything is changed but
    the data, exponential smoothing, when auto_arima is not configured,
    after it has written its defaults. *)
Theorem empty_seasonal_list_is_index_error `{C : Collaborators} d c w :
  check_datetime_index d = None →
  seasonal_period (self w) = Some [] →
  using_exogenous (self w) = false →
  (configured "auto_arima" (self w) = true →
   fit d c NoNames w
   = (Raise (Exn IndexError "index out of bounds"),
      {| self := prepared d c NoNames (self w); store := store w; calls := calls w |}))
  ∧ (configured "auto_arima" (self w) = false →
     configured "exponential_smoothing" (self w) = true →
     (fit d c NoNames w).1 = Raise (Exn IndexError "index out of bounds")
     ∧ self (fit d c NoNames w).2 = prepared d c NoNames (self w)).
Proof.
  intros Hcheck Hseason Hexo.
  set (w0 := {| self := prepared d c NoNames (self w); store := store w; calls := calls w |}).
  split.
  - intros Haa. unfold fit. apply bind_raise. unfold fit_candidates.
    rewrite bind_run, prepare_fit_run, Hcheck. fold w0.
    rewrite bind_run. cbn [get_self]. apply bind_raise.
    replace (self w0) with (prepared d c NoNames (self w)) by done.
    rewrite configured_prepared, Haa, when_true. apply bind_raise.
    unfold _fit_auto_arima. apply bind_raise. unfold arima_inputs.
    rewrite bind_run. cbn [get_self].
    replace (self w0) with (prepared d c NoNames (self w)) by done.
    cbn [prepared using_exogenous seasonal_period data set_input]. rewrite Hexo, Hseason.
    rewrite bind_run. cbn [mret M_ret]. rewrite bind_run. done.
  - intros Haa Hes.
    assert (Hfit : ∃ w1, _fit_exponential_smoothing true w0
                         = (Raise (Exn IndexError "index out of bounds"), w1)
                         ∧ self w1 = self w0).
    { unfold _fit_exponential_smoothing. rewrite bind_run. cbn [get_self].
      replace (self w0) with (prepared d c NoNames (self w)) by done.
      cbn [prepared seasonal_period exponential_smoothing_args set_input]. rewrite Hseason.
      rewrite bind_run.
      destruct (setdefault _ "trend" _ w0) as [[[]|e] w1] eqn:E1.
      2:{ unfold setdefault in E1. rewrite bind_run in E1. cbn [read_dict] in E1.
          by destruct (bool_decide _). }
      assert (H1 : self w1 = self w0).
      { unfold setdefault in E1. rewrite bind_run in E1. cbn [read_dict] in E1.
        destruct (bool_decide _); by injection E1 as <-. }
      rewrite bind_run.
      destruct (setdefault _ "seasonal" _ w1) as [[[]|e] w2] eqn:E2.
      2:{ unfold setdefault in E2. rewrite bind_run in E2. cbn [read_dict] in E2.
          by destruct (bool_decide _). }
      assert (H2 : self w2 = self w1).
      { unfold setdefault in E2. rewrite bind_run in E2. cbn [read_dict] in E2.
        destruct (bool_decide _); by injection E2 as <-. }
      exists w2. split; [|by rewrite H2, H1]. rewrite bind_run. done. }
    destruct Hfit as (w1 & Hfit & Hself).
    assert (Hrun : fit d c NoNames w = (Raise (Exn IndexError "index out of bounds"), w1)).
    { unfold fit. apply bind_raise. unfold fit_candidates.
      rewrite bind_run, prepare_fit_run, Hcheck. fold w0.
      rewrite bind_run. cbn [get_self].
      replace (self w0) with (prepared d c NoNames (self w)) by done.
      rewrite !configured_prepared, Haa, Hes, when_true. rewrite bind_run, when_false.
      apply bind_raise. by apply bind_raise. }
    rewrite Hrun. done.
Qed.

(** [AutoTS(model_names=['auto_arima'], error_metric='mse', seasonal_period=[])] *)
Definition no_periods : world (C := Demo.collaborators) :=
  Demo.world_of (__init__ ["auto_arima"] "mse" (SeasonList []) 4 false None None None
                          Demo.empty_store).

Lemma empty_seasonal_list_is_index_error_witness :
  is_seasonal (self no_periods) = true
  ∧ fit Demo.sales "sales" NoNames no_periods
    = (Raise (Exn IndexError "index out of bounds"),
       {| self := prepared Demo.sales "sales" NoNames (self no_periods);
          store := store no_periods; calls := calls no_periods |}).
Proof.
  assert (H0 : is_seasonal (self no_periods) = true) by by_vm.
  assert (H1 : check_datetime_index Demo.sales = None) by by_vm.
  assert (H2 : seasonal_period (self no_periods) = Some []) by by_vm.
  assert (H3 : using_exogenous (self no_periods) = false) by by_vm.
  assert (H4 : configured "auto_arima" (self no_periods) = true) by by_vm.
  split; [exact H0|].
  exact (proj1 (empty_seasonal_list_is_index_error Demo.sales "sales" no_periods H1 H2 H3) H4).
Defined.

(** ** The ensemble of a first fit *)

Section ensemble_mean.
Context `{C : Collaborators}.

(** The values of the row at a position. *)
Definition at_row (t : DataFrame) (j : nat) : list float := default [] (snd <$> rows t !! j).

(** A table of test predictions as the fitters build it: the actuals and
    one column of predictions named [p], on the labels [idx]. *)
Definition test_table (idx : list datetime) (p : string) (t : DataFrame) : Prop :=
  columns t = ["actuals"; p] ∧ df_index t = idx ∧ Forall (λ r, length r.2 = 2) (rows t).

(** The rows of the tables joined one after the other: every table adds its
    predictions at the right. *)
Fixpoint widen (acc : list (datetime * list float)) (ts : list DataFrame)
  : list (datetime * list float) :=
  match ts with
  | [] => acc
  | t :: ts' => widen (zip_with (λ rl rr, (rl.1, rl.2 ++ [cell 1 rr.2])) acc (rows t)) ts'
  end.

(** The table of the ensemble over the tables [ts], the first of which is
    [t1]: the actuals of [t1] and the mean of the predictions of all. *)
Definition ensemble_rows (t1 : DataFrame) (ts : list DataFrame) : list (datetime * list float) :=
  imap (λ j r, (r.1, [cell 0 r.2; row_mean ((λ t, cell 1 (at_row t j)) <$> ts)])) (rows t1).

Lemma frame_of_series_array_table s p arr t :
  length (s_values s) = length (s_index s) →
  frame_of_series_array "actuals" s p arr = Ok t → test_table (s_index s) p t.
Proof.
  intros Hlen. unfold frame_of_series_array. case_decide as Harr; [|done]. intros [= <-].
  split; [done|]. split.
  - unfold df_index. cbn [rows]. apply fst_zip. rewrite length_fmap, length_zip. lia.
  - cbn [rows]. apply Forall_forall. intros [lbl vals] Hin.
    apply elem_of_zip_r in Hin. cbn in Hin. apply list_elem_of_fmap in Hin as (q & -> & _).
    done.
Qed.

Lemma actuals_has_no_suffix p : ends_with "predictions" p = true → p ≠ "actuals".
Proof. by intros H ->. Qed.

Lemma drop_actuals idx p t :
  test_table idx p t → p ≠ "actuals" →
  df_drop t "actuals"
  = Ok {| columns := [p]; rows := (λ r, (r.1, [cell 1 r.2])) <$> rows t |}.
Proof.
  intros (Hcols & _ & _) Hp. unfold df_drop. rewrite Hcols. cbn [col_pos String.eqb].
  cbn [positions_where].
  destruct (String.eqb_spec p "actuals") as [?|_]; [done|]. cbn [negb].
  rewrite filter_cons_False by (by intros ?). rewrite filter_cons_True by done.
  by rewrite filter_nil.
Qed.


Lemma frame_eq (a b : DataFrame) : columns a = columns b → rows a = rows b → a = b.
Proof. destruct a, b. cbn. by intros -> ->. Qed.

Lemma no_suffix others sfx cols :
  Forall (λ c, c ∉ others) cols → with_suffix others sfx <$> cols = cols.
Proof.
  induction 1 as [|c cols Hc _ IH]; [done|]. rewrite fmap_cons, IH.
  unfold with_suffix. by rewrite bool_decide_eq_false_2.
Qed.

Lemma zip_with_fst {A B X} (g : X * A → B → A) (l : list (X * A)) (r : list B) :
  length l = length r → (zip_with (λ rl rr, (rl.1, g rl rr)) l r).*1 = l.*1.
Proof.
  revert r. induction l as [|a l IH]; intros [|b r] H; try done.
  cbn. f_equal. apply IH. by injection H.
Qed.

Lemma index_length (t : DataFrame) : length (df_index t) = length (rows t).
Proof. unfold df_index. by rewrite length_fmap. Qed.

(** One step of the reduction: the table on the right has a name of its
    own for its predictions, so nothing is renamed. *)
Lemma merge_step idx qs acc p t :
  columns acc = "actuals" :: qs → df_index acc = idx → NoDup idx →
  test_table idx p t → p ∉ "actuals" :: qs →
  merge_predictions acc t
  = Ok {| columns := "actuals" :: qs ++ [p];
          rows := zip_with (λ rl rr, (rl.1, rl.2 ++ [cell 1 rr.2])) (rows acc) (rows t) |}.
Proof.
  intros Hcols Hidx Hnd Ht Hp.
  assert (Hne : p ≠ "actuals") by (intros ->; apply Hp; left).
  unfold merge_predictions. rewrite (drop_actuals idx p t Ht Hne). f_equal.
  destruct Ht as (_ & Htidx & _).
  apply frame_eq.
  - unfold merge. cbn [columns]. rewrite Hcols.
    rewrite no_suffix.
    2:{ apply Forall_forall. intros c Hc Hin. apply list_elem_of_singleton in Hin as ->. done. }
    cbn [fmap list_fmap]. unfold with_suffix. by rewrite bool_decide_eq_false_2.
  - rewrite merge_rows.
    + cbn [rows]. by rewrite zip_with_fmap_r.
    + unfold df_index. cbn [rows]. rewrite <- list_fmap_compose.
      change ((fst ∘ (λ r : datetime * list float, (r.1, [cell 1 r.2])))) with
        (fst : datetime * list float → datetime).
      fold (df_index t). by rewrite Htidx.
    + unfold df_index at 2. cbn [rows]. rewrite <- list_fmap_compose.
      change ((fst ∘ (λ r : datetime * list float, (r.1, [cell 1 r.2])))) with
        (fst : datetime * list float → datetime).
      fold (df_index t). by rewrite Htidx.
Qed.

Lemma reduce_tables idx ts :
  NoDup idx →
  ∀ ps acc qs,
    columns acc = "actuals" :: qs → df_index acc = idx →
    Forall2 (test_table idx) ps ts →
    NoDup ("actuals" :: qs ++ ps) →
    foldl (λ acc b, match acc with Ok x => merge_predictions x b | Raise e => Raise e end)
          (Ok acc) ts
    = Ok {| columns := "actuals" :: qs ++ ps; rows := widen (rows acc) ts |}.
Proof.
  intros Hnd. induction ts as [|t ts IH]; intros ps acc qs Hcols Hidx Hts Hps.
  - apply Forall2_nil_inv_r in Hts as ->. rewrite app_nil_r. cbn. f_equal.
    by apply frame_eq.
  - apply Forall2_cons_inv_r in Hts as (p & ps' & Ht & Hts & ->).
    cbn [foldl widen].
    assert (Hp : p ∉ "actuals" :: qs).
    { change ("actuals" :: qs ++ p :: ps') with (("actuals" :: qs) ++ p :: ps') in Hps.
      apply NoDup_app in Hps as (_ & Hdisj & _). intros Hin. apply (Hdisj _ Hin). left. }
    rewrite (merge_step idx qs acc p t Hcols Hidx Hnd Ht Hp).
    rewrite (IH ps' _ (qs ++ [p])).
    + cbn [rows]. by rewrite <- app_assoc.
    + done.
    + unfold df_index. cbn [rows]. rewrite zip_with_fst; [exact Hidx|].
      destruct Ht as (_ & Htidx & _). by rewrite <- !index_length, Hidx, Htidx.
    + done.
    + by rewrite <- app_assoc.
Qed.


(** The predictions of the tables [ts] in the row [j]. *)
Definition predictions_at (ts : list DataFrame) (j : nat) : list float :=
  (λ t, cell 1 (at_row t j)) <$> ts.

Lemma widen_lookup idx ts :
  ∀ acc, acc.*1 = idx → Forall (λ t, df_index t = idx) ts →
  ∀ j, widen acc ts !! j = (λ r, (r.1, r.2 ++ predictions_at ts j)) <$> acc !! j.
Proof.
  induction ts as [|t ts IH]; intros acc Hacc Hts j.
  - cbn. destruct (acc !! j) as [[lbl vals]|]; [|done]. cbn. by rewrite app_nil_r.
  - apply Forall_cons in Hts as [Ht Hts]. cbn [widen].
    assert (Hlen : length acc = length (rows t)).
    { rewrite <- index_length, Ht, <- Hacc. by rewrite length_fmap. }
    rewrite IH; [|by rewrite zip_with_fst|done].
    rewrite lookup_zip_with. unfold predictions_at, at_row.
    destruct (acc !! j) as [r|] eqn:E1; [|done]. cbn.
    destruct (rows t !! j) as [r'|] eqn:E2.
    + cbn. by rewrite <- app_assoc.
    + apply lookup_ge_None in E2. apply lookup_lt_Some in E1. lia.
Qed.

Lemma col_pos_middle c pre post : c ∉ pre → col_pos c (pre ++ c :: post) = Some (length pre).
Proof.
  induction pre as [|c' pre IH]; intros Hc; cbn [app col_pos length].
  - by rewrite String.eqb_refl.
  - apply not_elem_of_cons in Hc as [Hne Hc].
    destruct (String.eqb_spec c c') as [?|_]; [done|]. by rewrite IH.
Qed.

Lemma col_pos_missing c cols : c ∉ cols → col_pos c cols = None.
Proof.
  induction cols as [|c' cols IH]; intros Hc; [done|]. cbn [col_pos].
  apply not_elem_of_cons in Hc as [Hne Hc].
  destruct (String.eqb_spec c c') as [?|_]; [done|]. by rewrite IH.
Qed.

Lemma col_positions_suffix ps :
  ∀ pre, NoDup (pre ++ ps) → col_positions ps (pre ++ ps) = Ok (seq (length pre) (length ps)).
Proof.
  induction ps as [|p ps IH]; intros pre Hnd; [done|]. cbn [col_positions length seq].
  rewrite col_pos_middle.
  2:{ apply NoDup_app in Hnd as (_ & Hdisj & _). intros Hin. apply (Hdisj _ Hin). left. }
  specialize (IH (pre ++ [p])). rewrite <- app_assoc in IH. cbn [app] in IH.
  rewrite IH by done. rewrite length_app. cbn [length]. by rewrite Nat.add_1_r.
Qed.

Lemma pick_suffix (pre xs : list float) :
  pick (seq (length pre) (length xs)) (pre ++ xs) = xs.
Proof.
  unfold pick, cell. apply list_eq. intros i. rewrite list_lookup_fmap.
  destruct (xs !! i) as [x|] eqn:E.
  - rewrite lookup_seq_lt by (by eapply lookup_lt_Some). cbn. f_equal.
    apply nth_lookup_Some. by rewrite lookup_app_r, Nat.add_comm, Nat.add_sub by lia.
  - rewrite lookup_seq_ge; [done|]. by apply lookup_ge_None.
Qed.

Lemma predictions_columns_all ps :
  Forall (λ p, ends_with "predictions" p = true) ps →
  List.filter (ends_with "predictions") ("actuals" :: ps) = ps.
Proof.
  intros H. cbn. induction H as [|p ps Hp _ IH]; [done|]. cbn. by rewrite Hp, IH.
Qed.


(** The error of a table under the metric of the instance. *)
Definition scored (s : AutoTS) (d : DataFrame) (p a : string) : result float :=
  if String.eqb (error_metric s) "mase" then mase d p a
  else if String.eqb (error_metric s) "mse" then mse d p a
  else if String.eqb (error_metric s) "rmse" then rmse d p a
  else Raise (Exn TypeError "'<' not supported for 'NoneType'").

Lemma error_metric_run d p a w : _error_metric d p a w = (scored (self w) d p a, w).
Proof.
  unfold _error_metric, scored. rewrite bind_run. cbn [get_self].
  by repeat destruct (String.eqb _ _).
Qed.

(** The table that [_fit_ensemble] returns. *)
Definition ensemble_table (t1 : DataFrame) (ts : list DataFrame) : DataFrame :=
  {| columns := ["actuals"; "en_test_predictions"]; rows := ensemble_rows t1 ts |}.

Section tables.
Variables (idx : list datetime) (t1 : DataFrame) (rest : list DataFrame).
Variables (p1 : string) (ps : list string).
Hypothesis Hidx : NoDup idx.
Hypothesis Htables : Forall2 (test_table idx) (p1 :: ps) (t1 :: rest).
Hypothesis Hnames : NoDup (p1 :: ps).
Hypothesis Hsuffix : Forall (λ p, ends_with "predictions" p = true) (p1 :: ps).
Hypothesis Hfresh : "en_test_predictions" ∉ p1 :: ps.

Lemma names_not_actuals : "actuals" ∉ p1 :: ps.
Proof using Hsuffix.
  intros Hin. rewrite Forall_forall in Hsuffix. specialize (Hsuffix _ Hin). done.
Qed.

Lemma names_length : length ps = length rest.
Proof using Htables.
  apply Forall2_length in Htables. cbn in Htables. lia.
Qed.

(** The join of all the tables. *)
Definition joined : DataFrame :=
  {| columns := "actuals" :: p1 :: ps; rows := widen (rows t1) rest |}.

Lemma reduce_joined : reduce merge_predictions (t1 :: rest) = Ok joined.
Proof using Hidx Htables Hnames Hsuffix.
  pose proof names_not_actuals as Hna.
  pose proof Htables as Ht. apply Forall2_cons in Ht as [(Hc1 & Hi1 & Hl1) Hrest].
  unfold reduce. rewrite (reduce_tables idx rest Hidx ps t1 [p1]); try done.
  by constructor.
Qed.

Lemma tables_on_labels : df_index t1 = idx ∧ Forall (λ t, df_index t = idx) rest.
Proof using Htables.
  pose proof Htables as Ht. apply Forall2_cons in Ht as [(_ & Hi1 & _) Hrest].
  split; [done|]. apply Forall_forall. intros t Hin.
  apply list_elem_of_lookup in Hin as [i Hi].
  destruct (Forall2_lookup_r _ _ _ _ _ Hrest Hi) as (p & _ & (_ & ? & _)). done.
Qed.

Lemma joined_row j r :
  rows t1 !! j = Some r →
  rows joined !! j = Some (r.1, cell 0 r.2 :: predictions_at (t1 :: rest) j)
  ∧ length (predictions_at (t1 :: rest) j) = S (length ps).
Proof using Htables.
  intros Hr. pose proof names_length as Hnl. destruct tables_on_labels as [Hi1 Hrest].
  pose proof Htables as Ht. apply Forall2_cons in Ht as [(_ & _ & Hl1) _].
  cbn [rows joined]. rewrite (widen_lookup idx) by done. rewrite Hr.
  rewrite Forall_forall in Hl1. assert (Hlen : length r.2 = 2).
  { apply Hl1. by eapply list_elem_of_lookup_2. }
  assert (Hp : predictions_at (t1 :: rest) j = cell 1 r.2 :: predictions_at rest j).
  { unfold predictions_at. rewrite fmap_cons. unfold at_row at 1. by rewrite Hr. }
  rewrite Hp. destruct r as [lbl [|a [|x [|]]]]; try done. split; [done|].
  cbn [length]. unfold predictions_at. by rewrite length_fmap, Hnl.
Qed.

Lemma joined_length : length (rows joined) = length (rows t1).
Proof using Htables.
  destruct (decide (length (rows joined) = length (rows t1))) as [|Hne]; [done|]. exfalso.
  destruct (Nat.lt_ge_cases (length (rows joined)) (length (rows t1))) as [Hlt|Hge].
  - destruct (lookup_lt_is_Some_2 (rows t1) (length (rows joined)) Hlt) as [r Hr].
    destruct (joined_row _ _ Hr) as [Hj _]. apply lookup_lt_Some in Hj. lia.
  - assert (Hlt : length (rows t1) < length (rows joined)) by lia.
    destruct (lookup_lt_is_Some_2 (rows joined) (length (rows t1)) Hlt) as [r Hr].
    destruct tables_on_labels as [Hi1 Hrest].
    cbn [rows joined] in Hr. rewrite (widen_lookup idx) in Hr by done.
    rewrite (lookup_ge_None_2 (rows t1)) in Hr by lia. done.
Qed.

Lemma pick_ends (a m : float) (xs : list float) :
  pick [0; S (length xs)] (a :: xs ++ [m]) = [a; m].
Proof.
  unfold pick, cell. cbn [fmap list_fmap nth]. f_equal. f_equal.
  by rewrite app_nth2, Nat.sub_diag by lia.
Qed.

(** The row-wise means of the prediction columns of the join. *)
Definition means : list float :=
  imap (λ j (_ : datetime * list float), row_mean (predictions_at (t1 :: rest) j)) (rows t1).

Lemma mean_of_joined : mean_of_columns joined (p1 :: ps) = Ok means.
Proof using Htables Hnames Hsuffix.
  pose proof names_not_actuals as Hna.
  unfold mean_of_columns, df_select. cbn [columns joined].
  change ("actuals" :: p1 :: ps) with (["actuals"] ++ p1 :: ps).
  rewrite (col_positions_suffix (p1 :: ps) ["actuals"]) by (by constructor).
  cbn [rows]. f_equal. apply list_eq. intros j. unfold means.
  rewrite !list_lookup_fmap, list_lookup_imap.
  destruct (rows t1 !! j) as [r|] eqn:Hr.
  - destruct (joined_row j r Hr) as [-> Hlen].
    cbn [fmap option_fmap option_map fst snd]. f_equal. f_equal.
    change (length (p1 :: ps)) with (S (length ps)). rewrite <- Hlen.
    apply (pick_suffix [cell 0 r.2]).
  - rewrite (lookup_ge_None_2 (rows joined)); [done|].
    rewrite joined_length. by apply lookup_ge_None.
Qed.

(** The join with the column of the ensemble. *)
Definition scored_table : DataFrame := df_assign joined "en_test_predictions" means.

Lemma scored_table_columns :
  columns scored_table = "actuals" :: (p1 :: ps) ++ ["en_test_predictions"].
Proof using Hfresh.
  unfold scored_table, df_assign. cbn [columns joined].
  rewrite col_pos_missing; [done|].
  apply not_elem_of_cons. split; [done|exact Hfresh].
Qed.

Lemma scored_table_row j r :
  rows t1 !! j = Some r →
  rows scored_table !! j
  = Some (r.1, cell 0 r.2 :: predictions_at (t1 :: rest) j
                ++ [row_mean (predictions_at (t1 :: rest) j)]).
Proof using Htables Hfresh.
  intros Hr. unfold scored_table, df_assign. cbn [columns joined].
  rewrite col_pos_missing by (apply not_elem_of_cons; split; [done|exact Hfresh]).
  cbn [rows]. rewrite list_lookup_fmap.
  rewrite (lookup_zip_with pair (rows joined) means j).
  destruct (joined_row j r Hr) as [Hj _]. rewrite Hj.
  unfold means. rewrite list_lookup_imap, Hr. done.
Qed.

Lemma scored_table_length : length (rows scored_table) = length (rows t1).
Proof using Htables Hfresh.
  unfold scored_table, df_assign. cbn [columns joined].
  rewrite col_pos_missing by (apply not_elem_of_cons; split; [done|exact Hfresh]).
  cbn [rows]. rewrite length_fmap, length_zip.
  pose proof joined_length as Hj. rewrite Hj.
  unfold means. rewrite length_imap. lia.
Qed.

Lemma select_ensemble :
  df_select scored_table ["actuals"; "en_test_predictions"]
  = Ok (ensemble_table t1 (t1 :: rest)).
Proof using Htables Hsuffix Hfresh.
  pose proof names_not_actuals as Hna.
  unfold df_select. rewrite scored_table_columns. cbn [col_positions col_pos String.eqb].
  change ("actuals" :: (p1 :: ps) ++ ["en_test_predictions"])
    with (("actuals" :: p1 :: ps) ++ "en_test_predictions" :: []).
  destruct (String.eqb_spec "en_test_predictions" "actuals") as [?|_]; [done|].
  cbn [app]. fold (app (A := string)).
  assert (Hpos : col_pos "en_test_predictions" ((p1 :: ps) ++ ["en_test_predictions"])
                 = Some (length (p1 :: ps))).
  { apply col_pos_middle. exact Hfresh. }
  change (col_pos "en_test_predictions" (p1 :: ps ++ ["en_test_predictions"]))
    with (col_pos "en_test_predictions" ((p1 :: ps) ++ ["en_test_predictions"])).
  rewrite Hpos. cbn [fmap option_fmap option_map]. unfold ensemble_table. f_equal. f_equal.
  apply list_eq. intros j. unfold ensemble_rows.
  rewrite list_lookup_fmap, list_lookup_imap.
  destruct (rows t1 !! j) as [r|] eqn:Hr.
  - rewrite (scored_table_row j r Hr). destruct (joined_row j r Hr) as [_ Hlen].
    cbn [fmap option_fmap option_map fst snd]. f_equal. f_equal.
    change (length (p1 :: ps)) with (S (length ps)). rewrite <- Hlen.
    apply pick_ends.
  - rewrite (lookup_ge_None_2 (rows scored_table)); [done|].
    rewrite scored_table_length. by apply lookup_ge_None.
Qed.

End tables.

End ensemble_mean.

(** X17: when the tables of the candidates carry the same labels, each
    once, and every table names its predictions differently, with a name
    that ends in "predictions", as the tables of a first fit do,
    [_fit_ensemble] scores, with the metric of the instance, the join of
    all the tables with a column for the ensemble, and returns a candidate
    of type "ensemble" without a fitted model whose table holds for every
    row the label, the actuals of the first table and the mean over the
    predictions of all candidates in that row. *)
Theorem first_fit_ensemble_is_the_mean `{C : Collaborators} w idx t1 rest p1 ps :
  CandidateModel.predictions <$> candidate_models (self w) = t1 :: rest →
  NoDup idx →
  Forall2 (test_table idx) (p1 :: ps) (t1 :: rest) →
  NoDup (p1 :: ps) →
  Forall (λ p, ends_with "predictions" p = true) (p1 :: ps) →
  "en_test_predictions" ∉ p1 :: ps →
  ∃ wide,
    columns wide = "actuals" :: (p1 :: ps) ++ ["en_test_predictions"]
    ∧ df_select wide ["actuals"; "en_test_predictions"] = Ok (ensemble_table t1 (t1 :: rest))
    ∧ (_fit_ensemble w).1
      = match scored (self w) wide "en_test_predictions" "actuals" with
        | Ok err => Ok {| CandidateModel.error := err;
                          CandidateModel.fit_model := None;
                          CandidateModel.model_type := "ensemble";
                          CandidateModel.predictions := ensemble_table t1 (t1 :: rest) |}
        | Raise e => Raise e
        end
    ∧ length (rows (ensemble_table t1 (t1 :: rest))) = length (rows t1)
    ∧ ∀ j r, rows t1 !! j = Some r →
        rows (ensemble_table t1 (t1 :: rest)) !! j
        = Some (r.1, [cell 0 r.2; row_mean ((λ t, cell 1 (at_row t j)) <$> t1 :: rest)]).
Proof.
  intros Hcs Hidx Htables Hnames Hsuffix Hfresh.
  exists (scored_table t1 rest p1 ps).
  split; [by apply scored_table_columns|].
  split; [by eapply select_ensemble|].
  split; [|split].
  - unfold _fit_ensemble. rewrite bind_run. cbn [get_self]. rewrite lift_run, Hcs.
    rewrite (reduce_joined idx t1 rest p1 ps) by done.
    unfold predictions_columns. cbn [columns joined].
    rewrite predictions_columns_all by done.
    rewrite lift_run, (mean_of_joined idx t1 rest p1 ps) by done.
    fold (scored_table t1 rest p1 ps). rewrite bind_run.
    assert (Hsc : ∀ cs' d p a, scored (set_candidate_models cs' (self w)) d p a
                              = scored (self w) d p a) by done.
    destruct (candidate_models (self w)) as [|c [|c2 cs]]; cbn [modify_self mret M_ret];
      rewrite bind_run, error_metric_run; cbn [self]; rewrite ?Hsc;
      (destruct (scored (self w) _ _ _) as [err|e];
       [rewrite lift_run, (select_ensemble idx t1 rest p1 ps) by done|]);
      done.
  - unfold ensemble_table, ensemble_rows. cbn [rows]. by rewrite length_imap.
  - intros j r Hr. unfold ensemble_table, ensemble_rows. cbn [rows].
    by rewrite list_lookup_imap, Hr.
Qed.

(** [fit(sales, 'sales')] on a new instance with the models
    exponential_smoothing, tbats and ensemble, stopped where it is about to
    fit the ensemble, and the two tables it has by then. *)
Definition first_fit_before_ensemble : world (C := Demo.collaborators) :=
  let w := (prepare_fit Demo.sales "sales" NoNames (Demo.unfitted Demo.refit_models)).2 in
  let w := ((c ← _fit_exponential_smoothing true; append_candidate c) w).2 in
  ((c ← _fit_tbats true; append_candidate c) w).2.

Definition first_fit_table (k : nat) : DataFrame :=
  nth k (CandidateModel.predictions <$> candidate_models (self first_fit_before_ensemble))
      Demo.sales.

Lemma first_fit_ensemble_is_the_mean_witness :
  ∃ wide,
    columns wide
    = "actuals" :: ["es_test_predictions"; "tb_test_predictions"] ++ ["en_test_predictions"]
    ∧ df_select wide ["actuals"; "en_test_predictions"]
      = Ok (ensemble_table (first_fit_table 0) [first_fit_table 0; first_fit_table 1])
    ∧ (_fit_ensemble first_fit_before_ensemble).1
      = match scored (self first_fit_before_ensemble) wide "en_test_predictions" "actuals" with
        | Ok err =>
            Ok {| CandidateModel.error := err;
                  CandidateModel.fit_model := None;
                  CandidateModel.model_type := "ensemble";
                  CandidateModel.predictions :=
                    ensemble_table (first_fit_table 0) [first_fit_table 0; first_fit_table 1] |}
        | Raise e => Raise e
        end
    ∧ length (rows (ensemble_table (first_fit_table 0) [first_fit_table 0; first_fit_table 1]))
      = length (rows (first_fit_table 0))
    ∧ ∀ j r, rows (first_fit_table 0) !! j = Some r →
        rows (ensemble_table (first_fit_table 0) [first_fit_table 0; first_fit_table 1]) !! j
        = Some (r.1, [cell 0 r.2;
                      row_mean ((λ t, cell 1 (at_row t j))
                                  <$> [first_fit_table 0; first_fit_table 1])]).
Proof.
  pose (idx := df_index (iloc_from Demo.sales (-4))).
  assert (H1 : CandidateModel.predictions <$> candidate_models (self first_fit_before_ensemble)
               = [first_fit_table 0; first_fit_table 1]) by by_vm.
  assert (H2 : bool_decide (NoDup idx) = true) by by_vm.
  assert (T1 : test_table idx "es_test_predictions" (first_fit_table 0)).
  { split; [by_vm|]. split; [by_vm|].
    assert (E : bool_decide (Forall (λ r : datetime * list float, length r.2 = 2)
                                    (rows (first_fit_table 0))) = true) by by_vm.
    exact (bool_decide_eq_true_1 _ E). }
  assert (T2 : test_table idx "tb_test_predictions" (first_fit_table 1)).
  { split; [by_vm|]. split; [by_vm|].
    assert (E : bool_decide (Forall (λ r : datetime * list float, length r.2 = 2)
                                    (rows (first_fit_table 1))) = true) by by_vm.
    exact (bool_decide_eq_true_1 _ E). }
  assert (H4 : bool_decide (NoDup ["es_test_predictions"; "tb_test_predictions"]) = true)
    by by_vm.
  assert (H5 : ends_with "predictions" "es_test_predictions" = true) by by_vm.
  assert (H6 : ends_with "predictions" "tb_test_predictions" = true) by by_vm.
  assert (H7 : bool_decide ("en_test_predictions"
                            ∉ ["es_test_predictions"; "tb_test_predictions"]) = true)
    by by_vm.
  assert (H3 : Forall2 (test_table idx) ["es_test_predictions"; "tb_test_predictions"]
                       [first_fit_table 0; first_fit_table 1]).
  { constructor; [exact T1|]. constructor; [exact T2|]. constructor. }
  assert (H8 : Forall (λ p, ends_with "predictions" p = true)
                      ["es_test_predictions"; "tb_test_predictions"]).
  { constructor; [exact H5|]. constructor; [exact H6|]. constructor. }
  exact (first_fit_ensemble_is_the_mean first_fit_before_ensemble idx
           (first_fit_table 0) [first_fit_table 1] "es_test_predictions" ["tb_test_predictions"]
           H1 (bool_decide_eq_true_1 _ H2) H3 (bool_decide_eq_true_1 _ H4) H8
           (bool_decide_eq_true_1 _ H7)).
Defined.

(** ** The calls that the methods make *)

Section library_calls.
Context `{C : Collaborators}.

(** What [fit] may put on the log: no update of a model, no retrieval of
    fitted values, and lines of output only in verbose mode. *)
Definition fit_call (v : bool) (c : call) : Prop :=
  match c with
  | CallArimaUpdate | CallArimaPredictInSample _ _ => False
  | Echo _ _ => v = true
  | _ => True
  end.

(** What [predict] may put on the log: predictions of fitted models. *)
Definition predict_call (c : call) : Prop :=
  match c with
  | CallArimaPredict _ | CallArimaPredictInSample _ _ | CallEsPredict _ _
  | CallBatsForecast _ => True
  | _ => False
  end.

(** The log has grown by calls that satisfy [Q], and the verbosity is as it
    was. *)
Definition logs (Q : call → Prop) (w w' : world) : Prop :=
  verbose (self w') = verbose (self w)
  ∧ ∃ new, calls w' = calls w ++ new ∧ Forall Q new.

Definition verbosity (v : bool) (s : AutoTS) : Prop := verbose s = v.

Section logs.
Variables (Q : call → Prop) (v : bool).

Lemma logs_refl w : logs Q w w.
Proof. split; [done|]. exists []. by rewrite app_nil_r. Qed.

Lemma logs_trans w1 w2 w3 : logs Q w1 w2 → logs Q w2 w3 → logs Q w1 w3.
Proof.
  intros (H1 & n1 & E1 & F1) (H2 & n2 & E2 & F2). split; [congruence|].
  exists (n1 ++ n2). rewrite E2, E1, <- app_assoc. split; [done|]. by apply Forall_app.
Qed.

Lemma logs_verbosity w w' : verbosity v (self w) → logs Q w w' → verbosity v (self w').
Proof. unfold verbosity. intros <- [? _]. done. Qed.

Lemma logs_log c : Q c → respects (logs Q) (verbosity v) (log c).
Proof.
  intros Hc. apply respects_log. intros w. split; [done|]. exists [c].
  split; [done|]. by constructor.
Qed.

Lemma logs_modify f :
  (∀ s, verbose (f s) = verbose s) → respects (logs Q) (verbosity v) (modify_self f).
Proof.
  intros Hf. apply respects_modify_self. intros w _. split; [apply Hf|].
  exists []. by rewrite app_nil_r.
Qed.

Lemma logs_dict_set l k x : respects (logs Q) (verbosity v) (dict_set l k x).
Proof. intros w r w' _ [= _ <-]. apply (logs_refl w). Qed.

End logs.

Section fit_calls.
Variable v : bool.

Lemma logs_echo s name e :
  verbosity v s → respects (logs (fit_call v)) (verbosity v) (when (verbose s) (log (Echo name e))).
Proof.
  unfold verbosity. intros <-. destruct (verbose s) eqn:E.
  - rewrite when_true. by apply logs_log.
  - intros w r w' _. rewrite when_false. intros [= _ <-]. apply logs_refl.
Qed.

Lemma logs_echo_item s name (x : result float) :
  verbosity v s →
  respects (logs (fit_call v)) (verbosity v)
           (when (verbose s) (e ← lift x; log (Echo name e))).
Proof.
  unfold verbosity. intros <-. destruct (verbose s) eqn:E.
  - rewrite when_true. intros w r w' HP. rewrite lift_run. destruct x as [e|e].
    + intros H. exact (logs_log (fit_call true) true (Echo name e) eq_refl w r w' HP H).
    + intros [= _ <-]. apply logs_refl.
  - intros w r w' _. rewrite when_false. intros [= _ <-]. apply logs_refl.
Qed.

Local Hint Extern 1 (respects _ _ (log _)) => (apply logs_log; exact I) : frames.
Local Hint Extern 1 (respects _ _ (when (verbose _) (log (Echo _ _)))) =>
  (apply logs_echo; assumption) : frames.
Local Hint Extern 1 (respects _ _ (when (verbose _) (_ ≫= _))) =>
  (apply logs_echo_item; assumption) : frames.
Local Hint Extern 1 (respects _ _ (modify_self _)) =>
  (apply logs_modify; intros ?; reflexivity) : frames.
Local Hint Resolve logs_dict_set : frames.

Lemma fit_logs d c ex : respects (logs (fit_call v)) (verbosity v) (fit d c ex).
Proof.
  unfold fit, fit_candidates, retain_winner, prepare_fit, _set_input_data, append_candidate,
    _fit_auto_arima, auto_arima_or_retry, retry_with_ch, call_auto_arima, arima_inputs,
    _fit_exponential_smoothing, _fit_tbats, _fit_ensemble, _error_metric,
    setdefault, column_of, df_cols, kwargs.
  respects_go (logs_refl (fit_call v)) (logs_trans (fit_call v))
              (logs_verbosity (fit_call v) v).
Qed.

End fit_calls.

Section predict_calls.
Variable v : bool.

Local Hint Extern 1 (respects _ _ (log _)) => (apply logs_log; exact I) : frames.
Local Hint Extern 1 (respects _ _ (modify_self _)) =>
  (apply logs_modify; intros ?; reflexivity) : frames.

Lemma activate_verbose t s :
  verbose (foldl (λ s c, if String.eqb (CandidateModel.model_type c) t
                         then set_fit_model (CandidateModel.fit_model c) s else s)
                 s (candidate_models s))
  = verbose s.
Proof. rewrite activate_fold. by destruct (last_of_type _ _). Qed.

Lemma predict_logs_activate t : respects (logs predict_call) (verbosity v) (activate t).
Proof. unfold activate. apply logs_modify. intros s. apply activate_verbose. Qed.

Local Hint Resolve predict_logs_activate : frames.

Lemma predict_logs a b ex : respects (logs predict_call) (verbosity v) (predict a b ex).
Proof.
  unfold predict, predict_checks, predict_dispatch, returning, as_datetime,
    _predict_ensemble, _predict_auto_arima, _predict_exponential_smoothing, _predict_tbats,
    data_index, data_get_loc.
  respects_go (logs_refl predict_call) (logs_trans predict_call)
              (logs_verbosity predict_call v).
Qed.

End predict_calls.

End library_calls.



(** X19: [predict] fits nothing: whatever its outcome, the calls it makes
    are predictions of models that are fitted already, forecasts or
    fitted values, and it neither warns nor writes output.  The log only
    grows. *)
Theorem predict_fits_nothing `{C : Collaborators} a b ex w r w' :
  predict a b ex w = (r, w') →
  ∃ new,
    calls w' = calls w ++ new
    ∧ Forall predict_call new
    ∧ (∀ args, (CallAutoArima args ∉ new) ∧ (CallExponentialSmoothing args ∉ new)
               ∧ (CallBats args ∉ new))
    ∧ CallArimaUpdate ∉ new.
Proof.
  intros H.
  destruct (predict_logs (verbose (self w)) a b ex w r w' eq_refl H)
    as (_ & new & Hnew & Hall).
  exists new. split; [done|]. split; [done|]. rewrite Forall_forall in Hall.
  split; [|intros Hin; exact (Hall _ Hin)].
  intros args. repeat split; intros Hin; exact (Hall _ Hin).
Qed.

Lemma predict_fits_nothing_witness :
  ∃ new,
    calls (predict (DateObj (Demo.month_start 20)) (DateObj (Demo.month_start 26)) NoExog
                   (Demo.fitted ["auto_arima"])).2
    = calls (Demo.fitted ["auto_arima"]) ++ new
    ∧ Forall predict_call new
    ∧ (∀ args, (CallAutoArima args ∉ new) ∧ (CallExponentialSmoothing args ∉ new)
               ∧ (CallBats args ∉ new))
    ∧ CallArimaUpdate ∉ new.
Proof.
  exact (predict_fits_nothing (DateObj (Demo.month_start 20)) (DateObj (Demo.month_start 26))
           NoExog (Demo.fitted ["auto_arima"]) _ _ (surjective_pairing _)).
Defined.

(** ** Requests within the data *)

Section within_the_data.
Context `{C : Collaborators}.

Lemma months_from_app d a m1 m2 :
  months_from d a (m1 + m2) = months_from d a m1 ++ months_from d (a + m1) m2.
Proof. unfold months_from. by rewrite seq_app, fmap_app. Qed.

Lemma filter_zip_false {A} (P : datetime → bool) idx (ys : list A) :
  Forall (λ t, P t = false) idx →
  List.filter (λ it : datetime * A, P it.1) (zip idx ys) = [].
Proof.
  intros H. revert ys. induction H as [|t idx Ht _ IH]; intros [|y ys]; try done.
  cbn. by rewrite Ht, IH.
Qed.

Lemma filter_zip_true {A} (P : datetime → bool) idx (ys : list A) :
  Forall (λ t, P t = true) idx →
  List.filter (λ it : datetime * A, P it.1) (zip idx ys) = zip idx ys.
Proof.
  intros H. revert ys. induction H as [|t idx Ht _ IH]; intros [|y ys]; try done.
  cbn. by rewrite Ht, IH.
Qed.

Lemma months_from_Forall (P : datetime → Prop) d a m :
  (∀ k, a ≤ k < a + m → P (nth_month d k)) → Forall P (months_from d a m).
Proof.
  intros H. unfold months_from. apply Forall_fmap, Forall_forall. intros k Hk.
  apply elem_of_seq in Hk. apply H. lia.
Qed.

(** On the grid the labels between two months are a segment of the
    series. *)
Lemma loc_slice_segment first n i j (yh : list float) :
  month_begin first → length yh = S n → i ≤ j → j ≤ n →
  loc_slice {| s_index := months_from first 0 (S n); s_values := yh |}
            (nth_month first i) (Some (nth_month first j))
  = {| s_index := months_from first i (S j - i); s_values := take (S j - i) (drop i yh) |}.
Proof.
  intros Hf Hlen Hij Hjn. unfold loc_slice, s_items. cbn [s_index s_values].
  set (P := λ t, dt_leb (nth_month first i) t && dt_leb t (nth_month first j)).
  assert (Hkeep : List.filter (λ it : datetime * float, P it.1)
                              (zip (months_from first 0 (S n)) yh)
                  = zip (months_from first i (S j - i)) (take (S j - i) (drop i yh))).
  { replace (S n) with (i + ((S j - i) + (n - j))) by lia.
    rewrite !months_from_app. cbn [Nat.add].
    rewrite <- (take_drop i yh) at 1.
    rewrite <- (take_drop (S j - i) (drop i yh)) at 1.
    rewrite zip_with_app by (rewrite length_take, months_from_length; lia).
    rewrite zip_with_app by (rewrite length_take, length_drop, months_from_length; lia).
    rewrite !List.filter_app.
    rewrite filter_zip_false, filter_zip_true, filter_zip_false.
    - by rewrite app_nil_r.
    - apply months_from_Forall. intros k Hk. unfold P.
      rewrite !dt_leb_nth_month by done.
      rewrite (bool_decide_eq_false_2 (k ≤ j)) by lia. by rewrite andb_false_r.
    - apply months_from_Forall. intros k Hk. unfold P.
      rewrite !dt_leb_nth_month by done. by rewrite !bool_decide_eq_true_2 by lia.
    - apply months_from_Forall. intros k Hk. unfold P.
      rewrite !dt_leb_nth_month by done. by rewrite (bool_decide_eq_false_2 (i ≤ k)) by lia. }
  change (List.filter _ (zip (months_from first 0 (S n)) yh))
    with (List.filter (λ it : datetime * float, P it.1) (zip (months_from first 0 (S n)) yh)).
  rewrite Hkeep. f_equal.
  - apply fst_zip. rewrite length_take, length_drop, months_from_length. lia.
  - apply snd_zip. rewrite length_take, length_drop, months_from_length. lia.
Qed.

Lemma s_lookup_at idx (vals : list float) k t v :
  NoDup idx → idx !! k = Some t → vals !! k = Some v →
  s_lookup {| s_index := idx; s_values := vals |} t = v.
Proof.
  intros Hnd Ht Hv. unfold s_lookup, s_items. cbn [s_index s_values].
  destruct (list_find _ _) as [[k' [t' v']]|] eqn:E.
  - apply list_find_Some in E as (Hk' & Heq & _). cbn in Heq. subst t'.
    apply lookup_zip_with_Some in Hk' as (t'' & v'' & [= <- <-] & Ht' & Hv').
    assert (k' = k) as -> by (by eapply NoDup_lookup). cbn. congruence.
  - exfalso. apply list_find_None in E. rewrite Forall_forall in E.
    apply (E (t, v)); [|done]. apply list_elem_of_lookup. exists k.
    apply lookup_zip_with_Some. by exists t, v.
Qed.

Lemma series_reindex_same idx (vals : list float) :
  NoDup idx → length vals = length idx →
  series_reindex {| s_index := idx; s_values := vals |} idx
  = {| s_index := idx; s_values := vals |}.
Proof.
  intros Hnd Hlen. unfold series_reindex. cbn [s_index]. f_equal.
  apply list_eq. intros k. rewrite list_lookup_fmap.
  destruct (idx !! k) as [t|] eqn:Ht.
  - destruct (lookup_lt_is_Some_2 vals k) as [v Hv].
    { rewrite Hlen. by eapply lookup_lt_Some. }
    cbn. rewrite Hv. f_equal. by eapply s_lookup_at.
  - cbn. symmetry. apply lookup_ge_None. rewrite Hlen. by apply lookup_ge_None.
Qed.

End within_the_data.

(** X20: a request that lies within the data and starts before their last
    date is answered from the fit alone.  With a retained auto_arima model
    the fitted values are asked for once, from the position of the start to
    the position of the end, with the exogenous data of the request, and
    whatever comes back is labelled with the months of the request; with a
    retained BATS model the answer is the part of [y_hat] at these
    positions, and no call is made.  Neither makes a forecast. *)
Theorem request_within_the_data_is_answered_from_the_fit `{C : Collaborators}
    w d first n i j h :
  data (self w) = Some d →
  month_begin first →
  df_index d = months_from first 0 (S n) →
  i ≤ j → i < n → j ≤ n →
  fit_model (self w) = Some h →
  (∀ exo,
     _predict_auto_arima (nth_month first i) (nth_month first j) (nth_month first n) exo w
     = (match arima_predict_in_sample h i (Some j) exo with
        | Ok fitted => series_of_array (months_from first i (S j - i)) fitted
        | Raise e => Raise e
        end,
        logged (CallArimaPredictInSample i (Some j)) w))
  ∧ (∀ yh, bats_y_hat h = Ok yh → length yh = S n →
       _predict_tbats (nth_month first i) (nth_month first j) (nth_month first n) w
       = (Ok {| s_index := months_from first i (S j - i);
                s_values := take (S j - i) (drop i yh) |}, w)).
Proof.
  intros Hd Hf Hindex Hij Hi Hj Hh. split.
  - intros exo. unfold _predict_auto_arima.
    rewrite bind_run. cbn [get_self].
    rewrite bind_run, (data_last w d first n Hd Hindex w) by done.
    rewrite dt_ltb_nth_month, dt_leb_nth_month by done.
    rewrite !bool_decide_eq_true_2 by lia. cbn [andb].
    rewrite date_range_nth_month by (done || lia). rewrite Hh.
    rewrite bind_run, bind_run, (data_loc w d first n Hd Hf Hindex i w) by (done || lia).
    rewrite bind_run, (data_loc w d first n Hd Hf Hindex j w) by (done || lia).
    run. by destruct (arima_predict_in_sample h i (Some j) exo).
  - intros yh Hyh Hlen. unfold _predict_tbats.
    run. rewrite Hh. run. rewrite Hyh. run.
    rewrite (data_first w d first n Hd Hindex). run.
    rewrite (data_last w d first n Hd Hindex w) by done. run.
    rewrite date_range_data by done.
    rewrite series_of_array_ok by (by rewrite months_from_length). run.
    cbn [s_index]. rewrite (py_index_last _ (nth_month first n) n)
      by (apply months_from_length || by rewrite months_from_lookup by lia).
    rewrite dt_ltb_nth_month, dt_leb_nth_month by done.
    rewrite !bool_decide_eq_true_2 by lia. cbn [andb]. run.
    rewrite date_range_nth_month by (done || lia).
    rewrite loc_slice_segment by (done || lia).
    rewrite series_reindex_same; [done|by apply months_from_NoDup|].
    rewrite length_take, length_drop, months_from_length. lia.
Qed.

Lemma request_within_the_data_is_answered_from_the_fit_witness :
  _predict_tbats (nth_month (Demo.month_start 0) 2) (nth_month (Demo.month_start 0) 5)
                 (nth_month (Demo.month_start 0) 23) (Demo.fitted ["tbats"])
  = (Ok {| s_index := months_from (Demo.month_start 0) 2 (6 - 2);
           s_values := take (6 - 2) (drop 2 ((λ r, cell 0 r.2) <$> rows Demo.sales)) |},
     Demo.fitted ["tbats"]).
Proof.
  pose (train := {| s_index := df_index Demo.sales;
                    s_values := (λ r, cell 0 r.2) <$> rows Demo.sales |}).
  assert (H1 : data (self (Demo.fitted ["tbats"])) = Some Demo.sales) by by_vm.
  assert (H2 : month_begin (Demo.month_start 0)).
  { split; [by_vm|]. vm_compute. split; discriminate. }
  assert (H3 : df_index Demo.sales = months_from (Demo.month_start 0) 0 24) by by_vm.
  assert (H4 : 2 ≤ 5) by lia.
  assert (H5 : 2 < 23) by lia.
  assert (H6 : 5 ≤ 23) by lia.
  assert (H7 : fit_model (self (Demo.fitted ["tbats"])) = Some (Demo.Trained "tbats" train))
    by by_vm.
  assert (H8 : bats_y_hat (Demo.Trained "tbats" train)
               = Ok ((λ r, cell 0 r.2) <$> rows Demo.sales)) by by_vm.
  assert (H9 : length ((λ r : datetime * list float, cell 0 r.2) <$> rows Demo.sales) = 24)
    by by_vm.
  exact (proj2 (request_within_the_data_is_answered_from_the_fit (Demo.fitted ["tbats"])
                  Demo.sales (Demo.month_start 0) 23 2 5 (Demo.Trained "tbats" train)
                  H1 H2 H3 H4 H5 H6 H7) _ H8 H9).
Defined.
